(** * pdp.data_utils.file_utils: a shallow embedding

    The module is a thin script layer over the operating system, [curl],
    [rclone] and an S3 client.  The embedding keeps the control flow of
    every function of [file_utils.py] and threads an explicit [world]
    (file system, name supply of [tempfile], S3 service state, log of
    observable events) through a state-and-exception monad.  The Python
    library calls the module relies on ([os.path], [os.listdir],
    [os.makedirs], [tempfile], [subprocess.call], [open]) are modelled
    after their CPython (posix) definitions. *)

From Stdlib Require Import ZArith Lia Ascii String.
From stdpp Require Import gmap strings list fin_maps.

Open Scope string_scope.
Open Scope list_scope.

(** ** Strings, as [str] is used by the module *)

Module Str.

Definition sep : ascii := "/"%char.

Definition is_sep (c : ascii) : bool := bool_decide (c = sep).

Definition is_empty (s : string) : bool :=
  match s with
  | EmptyString => true
  | String _ _ => false
  end.

(** [s.startswith(p)] *)
Fixpoint startswith (p s : string) : bool :=
  match p, s with
  | EmptyString, _ => true
  | String a p', String b s' => bool_decide (a = b) && startswith p' s'
  | String _ _, EmptyString => false
  end.

(** [s.endswith('/')] *)
Fixpoint endswith_sep (s : string) : bool :=
  match s with
  | EmptyString => false
  | String c EmptyString => is_sep c
  | String _ r => endswith_sep r
  end.

(** ['/' in s] *)
Fixpoint has_sep (s : string) : bool :=
  match s with
  | EmptyString => false
  | String c r => is_sep c || has_sep r
  end.

(** [s == '/' * len(s)] *)
Fixpoint all_sep (s : string) : bool :=
  match s with
  | EmptyString => true
  | String c r => is_sep c && all_sep r
  end.

(** [s.rstrip('/')] *)
Fixpoint rstrip_sep (s : string) : string :=
  match s with
  | EmptyString => EmptyString
  | String c r =>
      let r' := rstrip_sep r in
      if is_sep c && is_empty r' then EmptyString else String c r'
  end.

(** [(s[:i], s[i:])] with [i = s.rfind('/') + 1] *)
Fixpoint cut_last_sep (s : string) : string * string :=
  match s with
  | EmptyString => (EmptyString, EmptyString)
  | String c r =>
      match cut_last_sep r with
      | (EmptyString, t) =>
          if is_sep c then (String c EmptyString, t)
          else (EmptyString, String c t)
      | (h, t) => (String c h, t)
      end
  end.

(** [(s[:i], s[i:])] with [i = s.find('/')], or [len(s)] when there is
    no separator *)
Fixpoint cut_first_sep (s : string) : string * string :=
  match s with
  | EmptyString => (EmptyString, EmptyString)
  | String c r =>
      if is_sep c then (EmptyString, s)
      else let '(h, t) := cut_first_sep r in (String c h, t)
  end.

(** [s.split('/')] *)
Fixpoint split_sep (s : string) : list string :=
  match s with
  | EmptyString => [EmptyString]
  | String c r =>
      if is_sep c then EmptyString :: split_sep r
      else match split_sep r with
           | [] => [String c EmptyString]
           | w :: ws => String c w :: ws
           end
  end.

(** [d.join(l)] *)
Fixpoint join (d : string) (l : list string) : string :=
  match l with
  | [] => EmptyString
  | [x] => x
  | x :: r => x +:+ d +:+ join d r
  end.

(** ['/' * n] *)
Fixpoint repeat_sep (n : nat) : string :=
  match n with
  | O => EmptyString
  | S n' => String sep (repeat_sep n')
  end.

(** [s.split('\n')] *)
Definition newline : ascii := "010"%char.

Fixpoint split_lines (s : string) : list string :=
  match s with
  | EmptyString => [EmptyString]
  | String c r =>
      if bool_decide (c = newline) then EmptyString :: split_lines r
      else match split_lines r with
           | [] => [String c EmptyString]
           | w :: ws => String c w :: ws
           end
  end.

Fixpoint has_newline (s : string) : bool :=
  match s with
  | EmptyString => false
  | String c r => bool_decide (c = newline) || has_newline r
  end.

End Str.

(** ** [os.path] (posixpath) *)

Module Path.
Import Str.

(** [posixpath.split] *)
Definition split (p : string) : string * string :=
  let '(head, tail) := cut_last_sep p in
  if negb (is_empty head) && negb (all_sep head)
  then (rstrip_sep head, tail)
  else (head, tail).

Definition basename (p : string) : string := snd (cut_last_sep p).

Definition dirname (p : string) : string := fst (split p).

Definition isabs (p : string) : bool := startswith "/" p.

(** [posixpath.join(a, b)] *)
Definition join (a b : string) : string :=
  if startswith "/" b then b
  else if is_empty a || endswith_sep a then a +:+ b
  else a +:+ "/" +:+ b.

(** the loop of [posixpath.normpath] over the components; [new_comps]
    is kept reversed (its last element first) *)
Fixpoint norm_comps (initial_slashes : nat) (comps new_comps : list string)
  : list string :=
  match comps with
  | [] => rev new_comps
  | comp :: rest =>
      if bool_decide (comp = "") || bool_decide (comp = ".")
      then norm_comps initial_slashes rest new_comps
      else
        if negb (bool_decide (comp = ".."))
           || (bool_decide (initial_slashes = 0%nat)
               && bool_decide (new_comps = []))
           || match new_comps with
              | last :: _ => bool_decide (last = "..")
              | [] => false
              end
        then norm_comps initial_slashes rest (comp :: new_comps)
        else norm_comps initial_slashes rest (tail new_comps)
  end.

Definition normpath (path : string) : string :=
  if is_empty path then "."
  else
    let initial_slashes : nat :=
      if startswith "/" path then
        if startswith "//" path && negb (startswith "///" path)
        then 2%nat else 1%nat
      else 0%nat in
    let comps := norm_comps initial_slashes (split_sep path) [] in
    let path' := repeat_sep initial_slashes +:+ Str.join "/" comps in
    if is_empty path' then "." else path'.

End Path.

(** ** Observable events and exceptions *)

(** What [print] is handed: a string or a number ([len(...)]). *)
Inductive print_arg :=
| PStr (s : string)
| PInt (n : nat).

Inductive event :=
| Print (args : list print_arg)
| Listdir (path : string)
| Call (argv : list string) (status : Z)
| S3List (bucket prefix : string)
| S3Upload (local_path bucket key : string)
| Remove (path : string).

(** The exceptions of [os] and [open], the error of the S3 client, and
    [RecursionError] for the recursion bound of [makedirs], which is never
    reached. *)
Inductive exn :=
| FileNotFoundError (path : string)
| FileExistsError (path : string)
| NotADirectoryError (path : string)
| IsADirectoryError (path : string)
| RecursionError
| ClientError (code : string).

Definition is_FileExistsError (e : exn) : bool :=
  match e with
  | FileExistsError _ => true
  | _ => false
  end.

(** ** The S3 client handed to [download_files_to_s3] *)

Record s3_object := { Key : string }.

(** The dict returned by [list_objects_v2]; the key ['Contents'] is absent
    when no object matches. *)
Record s3_response := { Contents : option (list s3_object) }.

Class S3Client (S : Type) := {
  list_objects_v2 : S -> string -> string -> exn + s3_response;
  put_object : S -> string -> string -> string -> exn + S;
}.

(** What one run of [curl url --output path] obtains from the network. *)
Inductive fetch_result :=
| Fetched (body : string)
| FetchFailed (exit_status : positive).

Section FileUtils.

(** the state of the S3 service behind [s3_client] *)
Context {S : Type} `{!S3Client S}.
(** the network as [curl] sees it, the exit status of [rclone], and
    [hashlib.md5(...).hexdigest()] *)
Variable fetch : string -> fetch_result.
Variable rclone_status : list string -> Z.
Variable md5_hexdigest : string -> string.

(** Paths in [dirs] and [files] are absolute and normalised; the root
    is always a directory; there are no symbolic links. *)
Record world := {
  cwd : string;
  environ_HOME : option string;
  pw_name : string;
  pw_dirs : gmap string string;
  dirs : gset string;
  files : gmap string string;
  tempdir : string;
  temp_names : list string;
  s3 : S;
  log : list event;
}.

Definition set_fs (d : gset string) (f : gmap string string) (w : world)
  : world :=
  {| cwd := cwd w; environ_HOME := environ_HOME w; pw_name := pw_name w;
     pw_dirs := pw_dirs w; dirs := d; files := f; tempdir := tempdir w;
     temp_names := temp_names w; s3 := s3 w; log := log w |}.

Definition set_temp_names (l : list string) (w : world) : world :=
  {| cwd := cwd w; environ_HOME := environ_HOME w; pw_name := pw_name w;
     pw_dirs := pw_dirs w; dirs := dirs w; files := files w;
     tempdir := tempdir w; temp_names := l; s3 := s3 w; log := log w |}.

Definition set_s3 (s : S) (w : world) : world :=
  {| cwd := cwd w; environ_HOME := environ_HOME w; pw_name := pw_name w;
     pw_dirs := pw_dirs w; dirs := dirs w; files := files w;
     tempdir := tempdir w; temp_names := temp_names w; s3 := s;
     log := log w |}.

Definition add_log (e : event) (w : world) : world :=
  {| cwd := cwd w; environ_HOME := environ_HOME w; pw_name := pw_name w;
     pw_dirs := pw_dirs w; dirs := dirs w; files := files w;
     tempdir := tempdir w; temp_names := temp_names w; s3 := s3 w;
     log := log w ++ [e] |}.

(** *** State and exceptions *)

Definition M (A : Type) : Type := world -> world * (exn + A).

Definition ret {A} (a : A) : M A := fun w => (w, inr a).

Definition raise {A} (e : exn) : M A := fun w => (w, inl e).

Definition bind {A B} (m : M A) (k : A -> M B) : M B :=
  fun w =>
    match m w with
    | (w', inr a) => k a w'
    | (w', inl e) => (w', inl e)
    end.

(** [try: m  except <exception>: h] *)
Definition try_except {A} (m : M A) (h : exn -> M A) : M A :=
  fun w =>
    match m w with
    | (w', inr a) => (w', inr a)
    | (w', inl e) => h e w'
    end.

(** [try: m  finally: c], for a [c] that does not raise *)
Definition try_finally {A} (m : M A) (c : world -> world) : M A :=
  fun w => let '(w', r) := m w in (c w', r).

Definition get : M world := fun w => (w, inr w).

Definition modify (f : world -> world) : M unit := fun w => (f w, inr tt).

Definition emit (e : event) : M unit := modify (add_log e).

Notation "'let*' x ':=' m 'in' k" := (bind m (fun x => k))
  (at level 10, x name, m at level 200, k at level 200).
Notation "m ;; k" := (bind m (fun _ => k))
  (at level 100, k at level 200, right associativity).

Definition print (args : list print_arg) : M unit := emit (Print args).

(** *** [os.path] on the file system *)

Definition abspath (w : world) (path : string) : string :=
  Path.normpath (if Path.isabs path then path else Path.join (cwd w) path).

(** [os.path.expanduser] *)
Definition expanduser (w : world) (path : string) : string :=
  if negb (Str.startswith "~" path) then path
  else
    let '(head, rest) := Str.cut_first_sep path in
    let userhome :=
      if bool_decide (head = "~") then
        match environ_HOME w with
        | Some h => Some h
        | None => pw_dirs w !! pw_name w
        end
      else
        match head with
        | String _ name => pw_dirs w !! name
        | EmptyString => None
        end in
    match userhome with
    | None => path
    | Some h =>
        let r := Str.rstrip_sep h +:+ rest in
        if Str.is_empty r then "/" else r
    end.

Definition is_dir (w : world) (q : string) : bool :=
  bool_decide (q = "/") || bool_decide (q ∈ dirs w).

Definition is_file (w : world) (q : string) : bool :=
  bool_decide (is_Some (files w !! q)).

(** [os.path.exists], [os.path.isdir] *)
Definition path_exists (w : world) (path : string) : bool :=
  negb (Str.is_empty path)
  && (is_dir w (abspath w path) || is_file w (abspath w path)).

Definition path_isdir (w : world) (path : string) : bool :=
  negb (Str.is_empty path) && is_dir w (abspath w path).

(** *** [os] *)

(** the names of the direct entries of directory [q] *)
Definition entries (w : world) (q : string) : list string :=
  Path.basename <$>
    filter (fun e => e ≠ q ∧ Path.dirname e = q)
           (elements (dirs w ∪ dom (files w))).

Definition listdir (path : string) : M (list string) :=
  emit (Listdir path) ;;
  let* w := get in
  let q := abspath w path in
  if Str.is_empty path then raise (FileNotFoundError path)
  else if is_file w q then raise (NotADirectoryError path)
  else if negb (is_dir w q) then raise (FileNotFoundError path)
  else ret (entries w q).

Definition mkdir (path : string) : M unit :=
  let* w := get in
  let q := abspath w path in
  if Str.is_empty path then raise (FileNotFoundError path)
  else if is_dir w q || is_file w q then raise (FileExistsError path)
  else if is_file w (Path.dirname q) then raise (NotADirectoryError path)
  else if negb (is_dir w (Path.dirname q)) then raise (FileNotFoundError path)
  else modify (set_fs ({[ q ]} ∪ dirs w) (files w)).

(** [os.makedirs(name, exist_ok=exist_ok)]; the recursion is on the
    head of [name], which is shorter than [name] *)
Fixpoint makedirs_rec (fuel : nat) (name : string) (exist_ok : bool)
  : M unit :=
  match fuel with
  | O => raise RecursionError
  | Datatypes.S fuel' =>
      let '(head, tail) := Path.split name in
      let '(head, tail) :=
        if Str.is_empty tail then Path.split head else (head, tail) in
      let* w := get in
      let* stop :=
        (if negb (Str.is_empty head) && negb (Str.is_empty tail)
            && negb (path_exists w head)
         then
           try_except (makedirs_rec fuel' head exist_ok)
             (fun e => if is_FileExistsError e then ret tt else raise e) ;;
           ret (bool_decide (tail = "."))
         else ret false) in
      if (stop : bool) then ret tt
      else
        try_except (mkdir name)
          (fun e =>
             let* w := get in
             if negb exist_ok || negb (path_isdir w name) then raise e
             else ret tt)
  end.

Definition makedirs (name : string) (exist_ok : bool) : M unit :=
  makedirs_rec (Datatypes.S (String.length name)) name exist_ok.

(** [with open(path, 'w') as f: f.write(content)] *)
Definition write_file (path content : string) : M unit :=
  let* w := get in
  let q := abspath w path in
  if Str.is_empty path then raise (FileNotFoundError path)
  else if is_dir w q then raise (IsADirectoryError path)
  else if is_file w (Path.dirname q) then raise (NotADirectoryError path)
  else if negb (is_dir w (Path.dirname q)) then raise (FileNotFoundError path)
  else modify (set_fs (dirs w) (<[ q := content ]> (files w))).

(** [with open(path, 'rb') as f: f.read()] *)
Definition read_file (path : string) : M string :=
  let* w := get in
  let q := abspath w path in
  if Str.is_empty path then raise (FileNotFoundError path)
  else if is_dir w q then raise (IsADirectoryError path)
  else match files w !! q with
       | Some content => ret content
       | None => raise (FileNotFoundError path)
       end.

(** [os.remove] *)
Definition remove (path : string) : M unit :=
  emit (Remove path) ;;
  let* w := get in
  let q := abspath w path in
  if Str.is_empty path then raise (FileNotFoundError path)
  else if is_dir w q then raise (IsADirectoryError path)
  else if negb (is_file w q) then raise (FileNotFoundError path)
  else modify (set_fs (dirs w) (delete q (files w))).

(** *** [tempfile] *)

(** [q] is [d] or lies below it *)
Definition under (d q : string) : bool :=
  bool_decide (q = d) || Str.startswith (d +:+ "/") q.

(** [shutil.rmtree(d)], as [TemporaryDirectory.cleanup] runs it *)
Definition rmtree (d : string) (w : world) : world :=
  set_fs (filter (fun q => under d q = false) (dirs w))
         (filter (fun kv => under d kv.1 = false) (files w)) w.

(** the loop of [tempfile.mkdtemp] over the candidate names *)
Fixpoint mkdtemp_loop (names : list string) : M string :=
  match names with
  | [] => raise (FileExistsError "No usable temporary directory name found")
  | name :: rest =>
      modify (set_temp_names rest) ;;
      let* w := get in
      let file := Path.join (tempdir w) ("tmp" +:+ name) in
      try_except (mkdir file ;; ret (abspath w file))
        (fun e => if is_FileExistsError e then mkdtemp_loop rest
                  else raise e)
  end.

Definition mkdtemp : M string :=
  let* w := get in mkdtemp_loop (temp_names w).

(** [with tempfile.TemporaryDirectory() as tmp_dir: body] *)
Definition with_TemporaryDirectory {A} (body : string -> M A) : M A :=
  let* tmp_dir := mkdtemp in
  try_finally (body tmp_dir) (rmtree tmp_dir).

(** *** External programs, run through [subprocess.call]

    Both programs are taken to be installed; the call returns their
    exit status. *)

(** [curl url --output output_path].  A fetch that succeeds writes the
    body to [output_path], replacing what was there, and exits with 0, or
    with 23 (curl's write error) when the file cannot be written; a fetch
    that fails writes nothing and exits with its non-zero status. *)
Definition curl (url output_path : string) : M Z :=
  let* status :=
    match fetch url with
    | Fetched body =>
        try_except (write_file output_path body ;; ret 0%Z)
                   (fun _ => ret 23%Z)
    | FetchFailed code => ret (Z.pos code)
    end in
  emit (Call ["curl"; url; "--output"; output_path] status) ;;
  ret status.

(** [subprocess.call(command)] for an [rclone] command line *)
Definition rclone (command : list string) : M Z :=
  let status := rclone_status command in
  emit (Call command status) ;;
  ret status.

(** *** The S3 client's methods on the world *)

Definition s3_list_objects_v2 (bucket prefix : string) : M s3_response :=
  emit (S3List bucket prefix) ;;
  let* w := get in
  match list_objects_v2 (s3 w) bucket prefix with
  | inl e => raise e
  | inr response => ret response
  end.

(** [s3_client.upload_file(local_path, bucket, key)] reads the local
    file and stores it *)
Definition s3_upload_file (local_path bucket key : string) : M unit :=
  emit (S3Upload local_path bucket key) ;;
  let* body := read_file local_path in
  let* w := get in
  match put_object (s3 w) body bucket key with
  | inl e => raise e
  | inr s' => modify (set_s3 s')
  end.

(** *** Loops and comprehensions *)

(** [for x in l: body(x)] *)
Fixpoint for_each {A} (l : list A) (body : A -> M unit) : M unit :=
  match l with
  | [] => ret tt
  | x :: rest => body x ;; for_each rest body
  end.

(** [[f(x) for x in l]] *)
Fixpoint list_comp {A B} (f : A -> M B) (l : list A) : M (list B) :=
  match l with
  | [] => ret []
  | x :: rest =>
      let* y := f x in
      let* ys := list_comp f rest in
      ret (y :: ys)
  end.

(** ** The functions of [file_utils.py] *)

Definition download_file (url : string) (output_path : option string)
  : M unit :=
  print [] ;;
  print [PStr "downloading"; PStr url] ;;
  let output_path :=
    match output_path with
    | None => Path.basename url
    | Some p => p
    end in
  makedirs (Path.dirname output_path) true ;;
  let* _ := curl url output_path in
  ret tt.

(** the loop of [download_files] that fills [skip_urls] *)
Fixpoint skip_existing_loop (output_dir : string)
  (pairs : list (string * string)) (skip_urls : gset string)
  : M (gset string) :=
  match pairs with
  | [] => ret skip_urls
  | (url, filename) :: rest =>
      let* names := listdir output_dir in
      skip_existing_loop output_dir rest
        (if bool_decide (filename ∈ names) then {[ url ]} ∪ skip_urls
         else skip_urls)
  end.

Definition download_files (urls : list string) (output_dir : option string)
  (skip_existing : bool) : M unit :=
  (* get output dir *)
  let output_dir :=
    match output_dir with
    | None => "."
    | Some d => d
    end in
  let* w := get in
  let output_dir := abspath w (expanduser w output_dir) in
  print [PStr "downloading"; PInt (length urls); PStr "files"] ;;
  print [] ;;
  print [PStr "using output_dir"; PStr output_dir] ;;
  (* skip existing files *)
  let* skip_urls :=
    (if skip_existing then
       let url_filenames := Path.basename <$> urls in
       let* skip_urls :=
         skip_existing_loop output_dir (zip urls url_filenames) ∅ in
       (if bool_decide (0 < size skip_urls)%nat then
          print [] ;;
          print [PStr "skipping"; PInt (size skip_urls);
                 PStr "files that already exist"]
        else ret tt) ;;
       ret skip_urls
     else ret ∅) in
  (* download files *)
  for_each urls (fun url =>
    if bool_decide (url ∉ skip_urls) then download_file url None
    else ret tt) ;;
  print [] ;;
  print [PStr "done"].

(** the skip set of [download_files_to_s3] *)
Definition s3_skip_urls (urls : list string) (prefix : string)
  (response : s3_response) : gset string :=
  match Contents response with
  | Some contents =>
      let existing_files : gset string := list_to_set (Key <$> contents) in
      list_to_set
        (filter (fun url =>
                   Path.join prefix (Path.basename url) ∈ existing_files)
                urls)
  | None => ∅
  end.

Definition download_files_to_s3 (urls : list string)
  (s3_bucket prefix : string) (skip_existing : bool) : M unit :=
  (* Create a temporary directory *)
  with_TemporaryDirectory (fun tmp_dir =>
    print [PStr "downloading"; PInt (length urls); PStr "files"] ;;
    print [] ;;
    print [PStr "using tmp_dir"; PStr tmp_dir] ;;
    (* skip existing files *)
    let* skip_urls :=
      (if skip_existing then
         let* response := s3_list_objects_v2 s3_bucket prefix in
         let skip_urls := s3_skip_urls urls prefix response in
         (if bool_decide (0 < size skip_urls)%nat then
            print [] ;;
            print [PStr "skipping"; PInt (size skip_urls);
                   PStr "files that already exist"]
          else ret tt) ;;
         ret skip_urls
       else ret ∅) in
    (* download files *)
    for_each urls (fun url =>
      if bool_decide (url ∉ skip_urls) then
        let local_path := Path.join tmp_dir (Path.basename url) in
        download_file url (Some local_path) ;;
        s3_upload_file local_path s3_bucket
          (Path.join prefix (Path.basename url)) ;;
        remove local_path
      else ret tt) ;;
    print [] ;;
    print [PStr "done"]).

Definition get_file_hash (path : string) : M string :=
  let* data := read_file path in
  ret (md5_hexdigest data).

Definition get_file_hashes (paths : list string) : M (list string) :=
  list_comp get_file_hash paths.

Definition upload_file (local_path bucket_path : string) : M unit :=
  let command :=
    ["rclone"; "copyto"; local_path;
     "paradigm-data-portal:" +:+ bucket_path; "-v"] in
  let* _ := rclone command in
  ret tt.

(** the literal ['".*"']: a double quote, a dot, a star, a double quote *)
Definition exclude_pattern : string :=
  String "034"%char (".*" +:+ String "034"%char EmptyString).

Definition upload_directory (local_path bucket_path : string)
  (dir_files : option (list string)) (remove_deleted_files : bool)
  : M unit :=
  print [PStr "uploading directory:"; PStr local_path] ;;
  print [PStr "to bucket path:"; PStr bucket_path] ;;
  print [] ;;
  let action := if remove_deleted_files then "sync" else "copy" in
  let command :=
    ["rclone"; action; local_path;
     "paradigm-data-portal:" +:+ bucket_path; "-v"] in
  let* command :=
    match dir_files with
    | Some dir_files =>
        (* create tempfile with list of files to upload *)
        let* temp_dir := mkdtemp in
        let temp_path := Path.join temp_dir "file_list.txt" in
        write_file temp_path (Str.join (String Str.newline "") dir_files) ;;
        ret (command ++ ["--files-from"; temp_path])%list
    | None => ret (command ++ ["--exclude"; exclude_pattern])%list
    end in
  let* _ := rclone command in
  ret tt.

End FileUtils.

Arguments world S : clear implicits.
Arguments M S A : clear implicits.

(** ** An in-memory S3 service: bucket, then key, to body

    [list_objects_v2] answers with one page of at most 1000 keys and
    leaves ['Contents'] out when nothing matches. *)

Module MemoryS3.

Definition state : Type := gmap string (gmap string string).

Definition list_page (s : state) (bucket prefix : string)
  : exn + s3_response :=
  match s !! bucket with
  | None => inl (ClientError "NoSuchBucket")
  | Some objects =>
      let keys :=
        filter (fun k => Str.startswith prefix k = true)
               (elements (dom objects)) in
      inr {| Contents :=
               match keys with
               | [] => None
               | _ => Some ((fun k => {| Key := k |}) <$> take 1000 keys)
               end |}
  end.

Definition put (s : state) (body bucket key : string) : exn + state :=
  match s !! bucket with
  | None => inl (ClientError "NoSuchBucket")
  | Some objects => inr (<[ bucket := <[ key := body ]> objects ]> s)
  end.

#[export] Instance client : S3Client state :=
  {| list_objects_v2 := list_page; put_object := put |}.

End MemoryS3.

(** ** What [rclone] does with the filter options it is handed

    [rclone] is an external program; only its filter is modelled, after
    its documentation: in a pattern [*] stands for any run of characters
    other than [/], [**] for any run of characters, [?] for one character
    other than [/], a backslash (character 92) makes the next character literal, every
    other character stands for itself (character classes and brace
    alternatives are left out).  A pattern that starts with [/] is matched
    against the whole path, any other pattern against the end of the path
    from the start of one of its segments.  [--exclude] drops the matching
    paths; [--files-from] keeps the paths listed in a file, one per line,
    blank lines ignored. *)

Module Rclone.

Inductive glob_token :=
| GLit (c : ascii)
| GAny
| GStar
| GStarStar.

Fixpoint tokens (pattern : string) : list glob_token :=
  match pattern with
  | EmptyString => []
  | String c rest =>
      if bool_decide (c = "092"%char) then
        match rest with
        | String c' rest' => GLit c' :: tokens rest'
        | EmptyString => [GLit c]
        end
      else if bool_decide (c = "*"%char) then
        match rest with
        | String c' rest' =>
            if bool_decide (c' = "*"%char) then GStarStar :: tokens rest'
            else GStar :: tokens rest
        | EmptyString => [GStar]
        end
      else if bool_decide (c = "?"%char) then GAny :: tokens rest
      else GLit c :: tokens rest
  end.

Fixpoint match_tokens (ts : list glob_token) : string -> bool :=
  match ts with
  | [] => Str.is_empty
  | GLit a :: ts' =>
      fun s =>
        match s with
        | String c r => bool_decide (a = c) && match_tokens ts' r
        | EmptyString => false
        end
  | GAny :: ts' =>
      fun s =>
        match s with
        | String c r => negb (Str.is_sep c) && match_tokens ts' r
        | EmptyString => false
        end
  | GStar :: ts' =>
      fix star (s : string) : bool :=
        match_tokens ts' s
        || match s with
           | String c r => negb (Str.is_sep c) && star r
           | EmptyString => false
           end
  | GStarStar :: ts' =>
      fix star (s : string) : bool :=
        match_tokens ts' s
        || match s with
           | String c r => star r
           | EmptyString => false
           end
  end.

(** the suffixes of a path that start right after a separator *)
Fixpoint after_seps (path : string) : list string :=
  match path with
  | EmptyString => []
  | String c r => if Str.is_sep c then r :: after_seps r else after_seps r
  end.

Definition matches (pattern path : string) : bool :=
  match pattern with
  | String c rest =>
      if Str.is_sep c then match_tokens (tokens rest) path
      else existsb (match_tokens (tokens pattern)) (path :: after_seps path)
  | EmptyString => Str.is_empty path
  end.

(** the lines of a [--files-from] file *)
Definition listed (content : string) : list string :=
  filter (fun line => Str.is_empty line = false) (Str.split_lines content).

(** whether the filter options of a command line let the file at [path]
    (relative to the source directory) through; [read] gives the content
    of a list file *)
Fixpoint selected (read : string -> option string) (options : list string)
  (path : string) : bool :=
  match options with
  | [] => true
  | option :: rest =>
      match rest with
      | arg :: rest' =>
          if bool_decide (option = "--exclude") then
            negb (matches arg path) && selected read rest' path
          else if bool_decide (option = "--files-from") then
            match read arg with
            | Some content => bool_decide (path ∈ listed content)
            | None => false
            end && selected read rest' path
          else selected read rest path
      | [] => true
      end
  end.

End Rclone.

(** ** Vocabulary of the statements *)

Section Vocabulary.

Context {S : Type} `{!S3Client S}.
Variable fetch : string -> fetch_result.

(** [w'] differs from [w] at most in the file system and the name supply *)
Definition quiet (w w' : world S) : Prop :=
  log w' = log w /\ s3 w' = s3 w /\ cwd w' = cwd w /\ tempdir w' = tempdir w.

Definition Quiet {A} (m : M S A) : Prop := forall w, quiet w (m w).1.

(** the two lines [download_file] prints first *)
Definition announced (url : string) (w : world S) : world S :=
  add_log (Print [PStr "downloading"; PStr url]) (add_log (Print []) w).

(** what one run of [curl url --output output_path] leaves behind and the
    status it exits with *)
Definition curl_outcome (url output_path : string) (w : world S)
  : world S * Z :=
  match fetch url with
  | Fetched body =>
      match write_file output_path body w with
      | (w', inr _) => (w', 0%Z)
      | (w', inl _) => (w', 23%Z)
      end
  | FetchFailed code => (w, Z.pos code)
  end.

(** [w] with [t] appended to its log *)
Definition append_log (t : list event) (w : world S) : world S :=
  {| cwd := cwd w; environ_HOME := environ_HOME w; pw_name := pw_name w;
     pw_dirs := pw_dirs w; dirs := dirs w; files := files w;
     tempdir := tempdir w; temp_names := temp_names w; s3 := s3 w;
     log := log w ++ t |}.

(** what [os.listdir(d)] answers in [w] *)
Definition listing (d : string) (w : world S) : exn + list string :=
  if Str.is_empty d then inl (FileNotFoundError d)
  else if is_file w (abspath w d) then inl (NotADirectoryError d)
  else if negb (is_dir w (abspath w d)) then inl (FileNotFoundError d)
  else inr (entries w (abspath w d)).

(** the directory [download_files] resolves [output_dir] to *)
Definition resolved_output_dir (w : world S) (output_dir : option string)
  : string :=
  abspath w (expanduser w (match output_dir with
                           | None => "."
                           | Some d => d
                           end)).

(** the URLs whose base name is among [names] *)
Definition present_urls (urls names : list string) : gset string :=
  list_to_set (filter (fun url => Path.basename url ∈ names) urls).

(** the URLs the transfer loop lets through *)
Definition remaining (urls : list string) (skip_urls : gset string)
  : list string :=
  filter (fun url => url ∉ skip_urls) urls.

(** the lines printed before the transfer loop *)
Definition download_files_header (urls : list string) (output_dir : string)
  : list event :=
  [Print [PStr "downloading"; PInt (length urls); PStr "files"];
   Print [];
   Print [PStr "using output_dir"; PStr output_dir]].

Definition skipping_lines (skip_urls : gset string) : list event :=
  if bool_decide (0 < size skip_urls)%nat then
    [Print [];
     Print [PStr "skipping"; PInt (size skip_urls);
            PStr "files that already exist"]]
  else [].

Definition done_lines : list event := [Print []; Print [PStr "done"]].

(** an event is a run of an external program *)
Definition is_call (e : event) : bool :=
  match e with
  | Call _ _ => true
  | _ => false
  end.

Definition is_listdir (e : event) : bool :=
  match e with
  | Listdir _ => true
  | _ => false
  end.

(** the command line of [upload_directory] before the filter options *)
Definition mirror_command (local_path bucket_path : string)
  (remove_deleted_files : bool) : list string :=
  ["rclone"; if remove_deleted_files then "sync" else "copy"; local_path;
   "paradigm-data-portal:" +:+ bucket_path; "-v"].

Definition upload_directory_header (local_path bucket_path : string)
  : list event :=
  [Print [PStr "uploading directory:"; PStr local_path];
   Print [PStr "to bucket path:"; PStr bucket_path];
   Print []].

(** the content of a file of the world, by name *)
Definition file_content (w : world S) (path : string) : option string :=
  files w !! abspath w path.

(** whether a call returned normally *)
Definition returned {A} (r : exn + A) : bool :=
  match r with
  | inr _ => true
  | inl _ => false
  end.

(** *** The download-then-upload pipeline *)

Definition scratch_path (tmp_dir url : string) : string :=
  Path.join tmp_dir (Path.basename url).

Definition object_key (prefix url : string) : string :=
  Path.join prefix (Path.basename url).

(** the body of the transfer loop of [download_files_to_s3] for a URL
    that is not skipped *)
Definition transfer (tmp_dir s3_bucket prefix url : string) : M S unit :=
  bind (download_file fetch url (Some (scratch_path tmp_dir url))) (fun _ =>
  bind (s3_upload_file (scratch_path tmp_dir url) s3_bucket
          (object_key prefix url)) (fun _ =>
  remove (scratch_path tmp_dir url))).

(** what a complete transfer of one URL logs: the two lines of
    [download_file], the fetch into the scratch directory, the upload of
    the scratch file, its removal *)
Definition transfer_block (tmp_dir s3_bucket prefix url : string) (status : Z)
  : list event :=
  [Print [];
   Print [PStr "downloading"; PStr url];
   Call ["curl"; url; "--output"; scratch_path tmp_dir url] status;
   S3Upload (scratch_path tmp_dir url) s3_bucket (object_key prefix url);
   Remove (scratch_path tmp_dir url)].

(** The logs the transfer loop can leave for the URLs it lets through:
    complete transfers, in order, up to the end of the list or up to a
    transfer that raised, either before the fetch (the parent-directory
    step) or at the upload, after which nothing more happens. *)
Inductive loop_trace (tmp_dir s3_bucket prefix : string)
  : list string -> bool -> list event -> Prop :=
| loop_done : loop_trace tmp_dir s3_bucket prefix [] true []
| loop_transfer url rest status ok t :
    loop_trace tmp_dir s3_bucket prefix rest ok t ->
    loop_trace tmp_dir s3_bucket prefix (url :: rest) ok
      (transfer_block tmp_dir s3_bucket prefix url status ++ t)
| loop_stop_before_fetch url rest :
    loop_trace tmp_dir s3_bucket prefix (url :: rest) false
      [Print []; Print [PStr "downloading"; PStr url]]
| loop_stop_at_upload url rest status :
    loop_trace tmp_dir s3_bucket prefix (url :: rest) false
      (take 4 (transfer_block tmp_dir s3_bucket prefix url status)).

Definition s3_header (urls : list string) (tmp_dir : string) : list event :=
  [Print [PStr "downloading"; PInt (length urls); PStr "files"];
   Print [];
   Print [PStr "using tmp_dir"; PStr tmp_dir]].

(** the keys of a listing *)
Definition listed_keys (response : s3_response) : list string :=
  match Contents response with
  | Some contents => Key <$> contents
  | None => []
  end.

Definition is_s3list (e : event) : bool :=
  match e with
  | S3List _ _ => true
  | _ => false
  end.

(** the skip set [download_files_to_s3] works with, or the exception of
    the listing *)
Definition s3_skip_decision (urls : list string) (s3_bucket prefix : string)
  (skip_existing : bool) (w : world S) : exn + gset string :=
  if skip_existing then
    match list_objects_v2 (s3 w) s3_bucket prefix with
    | inl e => inl e
    | inr response => inr (s3_skip_urls urls prefix response)
    end
  else inr ∅.

(** what [download_files_to_s3] logs before its transfer loop *)
Definition s3_preamble (urls : list string) (tmp_dir s3_bucket prefix : string)
  (skip_existing : bool) (skip_urls : gset string) : list event :=
  s3_header urls tmp_dir
  ++ (if skip_existing
      then S3List s3_bucket prefix :: skipping_lines skip_urls
      else []).

End Vocabulary.

(** ** A concrete machine for the scenarios *)

Module Scenario.

(** every URL answers except [http://x/bad.bin], for which [curl] exits
    with status 6 *)
Definition net (url : string) : fetch_result :=
  if bool_decide (url = "http://x/bad.bin") then FetchFailed 6
  else Fetched ("body of " +:+ url).

Definition rclone_ok (command : list string) : Z := 0%Z.

Definition md5 (data : string) : string := "md5:" +:+ data.

(** [/tmp/out] is an empty directory, the bucket [b] is empty *)
Definition machine : world MemoryS3.state :=
  {| cwd := "/home/u"; environ_HOME := Some "/home/u"; pw_name := "u";
     pw_dirs := {[ "u" := "/home/u" ]};
     dirs := {[ "/tmp"; "/tmp/out"; "/home"; "/home/u"; "/home/u/data" ]};
     files := {[ "/home/u/notes.txt" := "hello";
                 "/home/u/data/.hidden" := "secret";
                 "/home/u/data/a.csv" := "1,2" ]};
     tempdir := "/tmp"; temp_names := ["k3x9"; "q7pm"];
     s3 := {[ "b" := ∅ ]};
     log := [] |}.

(** the same machine with the object [p/a.bin] already in the bucket *)
Definition stocked : world MemoryS3.state :=
  set_s3 {[ "b" := {[ "p/a.bin" := "old body" ]} ]} machine.

End Scenario.

(** ** Vocabulary of the further statements *)

Section MoreVocabulary.

Context {S : Type} `{!S3Client S}.
Variable fetch : string -> fetch_result.

(** [w'] has the files of [w], the directories of [w] and possibly more,
    and is otherwise as [quiet] says *)
Definition grows (w w' : world S) : Prop :=
  files w' = files w /\ dirs w ⊆ dirs w' /\ quiet w w'.

Definition Grows {A} (m : M S A) : Prop := forall w, grows w (m w).1.

(** The bucket states a run of the pipeline goes through: for each URL in
    turn, the body fetched from it is stored under its key. *)
Inductive stores (s3_bucket prefix : string) : S -> list string -> S -> Prop :=
| stores_nil s : stores s3_bucket prefix s [] s
| stores_cons s s' s'' url urls body :
    fetch url = Fetched body ->
    put_object s body s3_bucket (object_key prefix url) = inr s' ->
    stores s3_bucket prefix s' urls s'' ->
    stores s3_bucket prefix s (url :: urls) s''.

Definition is_upload (e : event) : bool :=
  match e with
  | S3Upload _ _ _ => true
  | _ => false
  end.

End MoreVocabulary.

(** ** A second concrete machine *)

Module MoreScenario.

(** the machine of the scenarios after an earlier download: [/tmp/out]
    holds [a.bin] *)
Definition visited : world MemoryS3.state :=
  set_fs (dirs Scenario.machine)
         (<[ "/tmp/out/a.bin" := "old body" ]> (files Scenario.machine))
         Scenario.machine.

End MoreScenario.

(** ** Normalised absolute paths, by their components *)

Module Normal.

(** a path component that [normpath] keeps as it is: not empty, not [.],
    not [..], without separator *)
Definition goodb (c : string) : bool :=
  negb (Str.is_empty c) && negb (Str.has_sep c)
  && negb (bool_decide (c = ".")) && negb (bool_decide (c = "..")).

Definition good (c : string) : Prop := goodb c = true.

(** the absolute path with the given components *)
Definition rooted (comps : list string) : string :=
  "/" +:+ Str.join "/" comps.

(** [p] is an absolute path in the form [normpath] gives, with one leading
    separator *)
Definition normal (p : string) : Prop :=
  exists comps, Forall good comps /\ p = rooted comps.

(** the components of an absolute path with one leading separator *)
Definition comps_of (p : string) : list string :=
  if bool_decide (p = "/") then [] else tail (Str.split_sep p).

Definition normalb (p : string) : bool :=
  forallb goodb (comps_of p) && bool_decide (p = rooted (comps_of p)).

(** the paths with components [a ++ p], for the non-empty prefixes [p]
    of [b], shortest first *)
Fixpoint chain (a b : list string) : list string :=
  match b with
  | [] => []
  | c :: b' => rooted (a ++ [c]) :: chain (a ++ [c]) b'
  end.

End Normal.

Section WellFormed.

Context {S : Type}.

(** Every directory and file of the world has a normalised absolute name
    and lies in a directory of the world, no name is a directory and a
    file at once; [tempfile] works in such a directory name and draws
    names without separator. *)
Definition well_formed (w : world S) : Prop :=
  (forall q, q ∈ dirs w \/ is_Some (files w !! q) ->
             Normal.normal q /\ is_dir w (Path.dirname q) = true)
  /\ (forall q, is_dir w q = true -> files w !! q = None)
  /\ Normal.normal (tempdir w)
  /\ Forall (fun name => Str.has_sep name = false) (temp_names w).

Definition well_formedb (w : world S) : bool :=
  forallb (fun q => Normal.normalb q && is_dir w (Path.dirname q))
          (elements (dirs w ∪ dom (files w)))
  && forallb (fun q => negb (is_file w q)) ("/" :: elements (dirs w))
  && Normal.normalb (tempdir w)
  && forallb (fun name => negb (Str.has_sep name)) (temp_names w).

(** the directory with components [ct ++ [tn]] is an empty directory of
    [w], in a directory of [w] *)
Definition empty_scratch (w : world S) (ct : list string) (tn : string)
  : Prop :=
  Forall Normal.good ct /\ Normal.good tn
  /\ is_dir w (Normal.rooted ct) = true
  /\ is_dir w (Normal.rooted (ct ++ [tn])) = true
  /\ forall q, under (Normal.rooted (ct ++ [tn])) q = true ->
       files w !! q = None
       /\ (q ∈ dirs w -> q = Normal.rooted (ct ++ [tn])).

End WellFormed.

(** * Properties *)

Create HintDb monad_ops.

#[export] Hint Unfold bind ret raise get modify emit print try_except
  try_finally : monad_ops.

(** one step of symbolic execution in [M] *)
Ltac exec := autounfold with monad_ops; cbn [fst snd].

(** ** Paths *)

Section PathFacts.

Import Str.

Lemma cut_last_sep_tail_no_sep (s : string) :
  has_sep (snd (cut_last_sep s)) = false.
Proof.
  induction s as [|c r IH]; [reflexivity|].
  cbn [cut_last_sep].
  destruct (cut_last_sep r) as [h t] eqn:E.
  cbn [snd] in IH.
  destruct h as [|a h'].
  - destruct (is_sep c) eqn:Ec; cbn [snd has_sep].
    + exact IH.
    + rewrite Ec, IH. reflexivity.
  - exact IH.
Qed.

Lemma cut_last_sep_no_sep (s : string) :
  has_sep s = false -> cut_last_sep s = (EmptyString, s).
Proof.
  induction s as [|c r IH]; [reflexivity|].
  cbn [has_sep cut_last_sep].
  intros H. apply orb_false_iff in H as [Hc Hr].
  rewrite (IH Hr), Hc. reflexivity.
Qed.

Lemma basename_no_sep (p : string) : has_sep (Path.basename p) = false.
Proof. apply cut_last_sep_tail_no_sep. Qed.

Lemma split_no_sep (s : string) :
  has_sep s = false -> Path.split s = (EmptyString, s).
Proof.
  intros H. unfold Path.split. rewrite (cut_last_sep_no_sep s H).
  reflexivity.
Qed.

(** A bare file name has no directory part. *)
Lemma dirname_basename (p : string) :
  Path.dirname (Path.basename p) = EmptyString.
Proof.
  unfold Path.dirname.
  rewrite (split_no_sep _ (basename_no_sep p)). reflexivity.
Qed.

Lemma cut_last_sep_length (s : string) :
  String.length (cut_last_sep s).1 + String.length (cut_last_sep s).2
  = String.length s.
Proof.
  induction s as [|c r IH]; [reflexivity|].
  cbn [cut_last_sep].
  destruct (cut_last_sep r) as [h t]. cbn [fst snd] in IH.
  destruct h as [|a h'].
  - destruct (is_sep c); cbn [fst snd String.length] in *; lia.
  - cbn [fst snd String.length] in *. lia.
Qed.

Lemma rstrip_sep_length (s : string) :
  String.length (rstrip_sep s) <= String.length s.
Proof.
  induction s as [|c r IH]; [reflexivity|].
  cbn [rstrip_sep].
  destruct (is_sep c && is_empty (rstrip_sep r));
    cbn [String.length]; lia.
Qed.

(** The two parts of a path are together no longer than the path. *)
Lemma split_length (p : string) :
  String.length (Path.split p).1 + String.length (Path.split p).2
  <= String.length p.
Proof.
  unfold Path.split.
  pose proof (cut_last_sep_length p) as H.
  destruct (cut_last_sep p) as [head tail]. cbn [fst snd] in H.
  destruct (negb (is_empty head) && negb (all_sep head)); cbn [fst snd].
  - pose proof (rstrip_sep_length head). lia.
  - lia.
Qed.

Lemma is_empty_length (s : string) :
  is_empty s = false -> 0 < String.length s.
Proof. destruct s; [discriminate|]. cbn. lia. Qed.

End PathFacts.

(** ** Computations that touch only the file system *)

Section Quiet.

Context {S : Type}.

Lemma quiet_refl (w : world S) : quiet w w.
Proof. repeat split. Qed.

Lemma quiet_trans (w1 w2 w3 : world S) :
  quiet w1 w2 -> quiet w2 w3 -> quiet w1 w3.
Proof.
  intros (A1 & A2 & A3 & A4) (B1 & B2 & B3 & B4).
  repeat split; congruence.
Qed.

Lemma Quiet_ret {A} (a : A) : Quiet (S := S) (ret a).
Proof. intros w. apply quiet_refl. Qed.

Lemma Quiet_raise {A} (e : exn) : Quiet (S := S) (raise (A := A) e).
Proof. intros w. apply quiet_refl. Qed.

Lemma Quiet_get : Quiet (S := S) get.
Proof. intros w. apply quiet_refl. Qed.

Lemma Quiet_set_fs d f : Quiet (S := S) (modify (set_fs d f)).
Proof. intros w. repeat split. Qed.

Lemma Quiet_set_temp_names l : Quiet (S := S) (modify (set_temp_names l)).
Proof. intros w. repeat split. Qed.

Lemma Quiet_bind {A B} (m : M S A) (k : A -> M S B) :
  Quiet m -> (forall a, Quiet (S := S) (k a)) -> Quiet (S := S) (bind m k).
Proof.
  intros Hm Hk w. unfold bind.
  specialize (Hm w). destruct (m w) as [w1 [e|a]]; cbn [fst] in *.
  - exact Hm.
  - eapply quiet_trans; [exact Hm | apply Hk].
Qed.

Lemma Quiet_try_except {A} (m : M S A) (h : exn -> M S A) :
  Quiet m -> (forall e, Quiet (S := S) (h e)) -> Quiet (S := S) (try_except m h).
Proof.
  intros Hm Hh w. unfold try_except.
  specialize (Hm w). destruct (m w) as [w1 [e|a]]; cbn [fst] in *.
  - eapply quiet_trans; [exact Hm | apply Hh].
  - exact Hm.
Qed.

Lemma Quiet_if {A} (b : bool) (m1 m2 : M S A) :
  Quiet m1 -> Quiet m2 -> Quiet (S := S) (if b then m1 else m2).
Proof. destruct b; auto. Qed.

Lemma Quiet_mkdir path : Quiet (S := S) (mkdir path).
Proof.
  unfold mkdir. apply Quiet_bind; [apply Quiet_get|]. intros w.
  repeat (apply Quiet_if; [apply Quiet_raise|]).
  apply Quiet_set_fs.
Qed.

Lemma Quiet_makedirs_rec fuel : forall name exist_ok,
  Quiet (S := S) (makedirs_rec fuel name exist_ok).
Proof.
  induction fuel as [|fuel IH]; intros name exist_ok.
  - apply Quiet_raise.
  - cbn [makedirs_rec].
    destruct (Path.split name) as [head tail].
    destruct (if Str.is_empty tail then Path.split head else (head, tail))
      as [head' tail'].
    apply Quiet_bind; [apply Quiet_get|]. intros w.
    apply Quiet_bind.
    + apply Quiet_if; [|apply Quiet_ret].
      apply Quiet_bind; [|intros; apply Quiet_ret].
      apply Quiet_try_except; [apply IH|].
      intros e. apply Quiet_if; [apply Quiet_ret | apply Quiet_raise].
    + intros stop. apply Quiet_if; [apply Quiet_ret|].
      apply Quiet_try_except; [apply Quiet_mkdir|].
      intros e. apply Quiet_bind; [apply Quiet_get|]. intros w'.
      apply Quiet_if; [apply Quiet_raise | apply Quiet_ret].
Qed.

Lemma Quiet_makedirs name exist_ok : Quiet (S := S) (makedirs name exist_ok).
Proof. apply Quiet_makedirs_rec. Qed.

Lemma Quiet_write_file path content :
  Quiet (S := S) (write_file path content).
Proof.
  unfold write_file. apply Quiet_bind; [apply Quiet_get|]. intros w.
  repeat (apply Quiet_if; [apply Quiet_raise|]).
  apply Quiet_set_fs.
Qed.

Lemma Quiet_mkdtemp_loop names : Quiet (S := S) (mkdtemp_loop names).
Proof.
  induction names as [|name rest IH]; [apply Quiet_raise|].
  cbn [mkdtemp_loop].
  apply Quiet_bind; [apply Quiet_set_temp_names|]. intros _.
  apply Quiet_bind; [apply Quiet_get|]. intros w.
  apply Quiet_try_except.
  - apply Quiet_bind; [apply Quiet_mkdir|]. intros _. apply Quiet_ret.
  - intros e. apply Quiet_if; [exact IH | apply Quiet_raise].
Qed.

Lemma Quiet_mkdtemp : Quiet (S := S) mkdtemp.
Proof.
  unfold mkdtemp. apply Quiet_bind; [apply Quiet_get|].
  intros w. apply Quiet_mkdtemp_loop.
Qed.

(** Reading a file leaves the world as it is. *)
Lemma read_file_world path (w : world S) : (read_file path w).1 = w.
Proof.
  unfold read_file. exec.
  repeat match goal with
         | |- context [if ?b then _ else _] => destruct b
         | |- context [match ?o with Some _ => _ | None => _ end] => destruct o
         end; reflexivity.
Qed.

End Quiet.

(** ** The functions of the module *)

Section Facts.

Context {S : Type} `{!S3Client S}.
Variable fetch : string -> fetch_result.
Variable rclone_status : list string -> Z.
Variable md5_hexdigest : string -> string.

Implicit Types (w : world S) (url path : string) (urls : list string).

Set Default Proof Using "Type".

(** *** Hashing *)

Lemma get_file_hash_world path w : (get_file_hash md5_hexdigest path w).1 = w.
Proof.
  unfold get_file_hash, bind.
  pose proof (read_file_world path w) as H.
  destruct (read_file path w) as [w1 [e|data]]; exact H.
Qed.

Lemma get_file_hashes_cons path paths w :
  get_file_hashes md5_hexdigest (path :: paths) w =
  match get_file_hash md5_hexdigest path w with
  | (_, inl e) => (w, inl e)
  | (_, inr h) =>
      match get_file_hashes md5_hexdigest paths w with
      | (w', inl e) => (w', inl e)
      | (w', inr hs) => (w', inr (h :: hs))
      end
  end.
Proof.
  unfold get_file_hashes. cbn [list_comp]. unfold bind at 1.
  pose proof (get_file_hash_world path w) as H.
  destruct (get_file_hash md5_hexdigest path w) as [w1 [e|h]];
    cbn [fst] in H; subst w1; [reflexivity|].
  unfold bind, ret.
  destruct (list_comp (get_file_hash md5_hexdigest) paths w) as [w2 [e|hs]];
    reflexivity.
Qed.

Lemma get_file_hashes_world paths w :
  (get_file_hashes md5_hexdigest paths w).1 = w.
Proof.
  induction paths as [|p paths IH]; [reflexivity|].
  rewrite get_file_hashes_cons.
  destruct (get_file_hash md5_hexdigest p w) as [w1 [e|h]]; [reflexivity|].
  destruct (get_file_hashes md5_hexdigest paths w) as [w2 [e|hs]]; exact IH.
Qed.

(** C9. [get_file_hashes(paths)] returns [hashes] exactly when [hashes]
    lists, in the order of [paths], what [get_file_hash] returns for each
    path: the result has the length of the input and its i-th element is
    the hash of the i-th path.  Nothing in the world changes. *)
Theorem get_file_hashes_order_length (paths : list string) w
  (hashes : list string) :
  (get_file_hashes md5_hexdigest paths w = (w, inr hashes) <->
   Forall2 (fun path h => get_file_hash md5_hexdigest path w = (w, inr h))
           paths hashes)
  /\ (get_file_hashes md5_hexdigest paths w = (w, inr hashes) ->
      length hashes = length paths
      /\ forall i path, paths !! i = Some path ->
           exists h, hashes !! i = Some h
                     /\ get_file_hash md5_hexdigest path w = (w, inr h)).
Proof.
  assert (Hiff : forall ps hs,
    get_file_hashes md5_hexdigest ps w = (w, inr hs) <->
    Forall2 (fun path h => get_file_hash md5_hexdigest path w = (w, inr h))
            ps hs).
  { induction ps as [|p ps IH]; intros hs.
    - split.
      + intros H. injection H as <-. constructor.
      + intros H. inversion H. reflexivity.
    - rewrite get_file_hashes_cons.
      pose proof (get_file_hash_world p w) as Hw.
      pose proof (get_file_hashes_world ps w) as Hws.
      destruct (get_file_hash md5_hexdigest p w) as [w1 [e|h]] eqn:Ep;
        cbn [fst] in Hw; subst w1.
      + split; [discriminate|].
        intros H. inversion H; subst. congruence.
      + destruct (get_file_hashes md5_hexdigest ps w) as [w2 [e|hs']] eqn:E;
          cbn [fst] in Hws; subst w2.
        * split; [discriminate|].
          intros H. inversion H as [|? ? ? ? _ Hr]; subst.
          apply IH in Hr. discriminate.
        * split.
          -- intros H. injection H as <-. constructor; [exact Ep|].
             apply IH. reflexivity.
          -- intros H. inversion H as [|? h0 ? hs0 Hh Hr]; subst.
             apply IH in Hr. congruence. }
  split; [apply Hiff|].
  intros H. apply Hiff in H. split.
  - symmetry. eapply Forall2_length. exact H.
  - intros i path Hi.
    destruct (Forall2_lookup_l _ _ _ _ _ H Hi) as (h & Hh & Hp).
    exists h. split; assumption.
Qed.

(** *** The single-file downloader *)

Lemma makedirs_empty w exist_ok :
  makedirs "" exist_ok w = (w, inl (FileNotFoundError "")).
Proof. destruct exist_ok; reflexivity. Qed.

Lemma download_file_no_path url w :
  download_file fetch url None w =
  (announced url w, inl (FileNotFoundError "")).
Proof.
  unfold download_file. exec. rewrite dirname_basename. reflexivity.
Qed.

(** C4. With [output_path] omitted, [download_file] fails at the step that
    is to create the parent directory, whatever the URL: the directory part
    of a bare file name is the empty string, and [os.makedirs('')] raises
    [FileNotFoundError].  Nothing is fetched and no file is written. *)
Theorem download_file_omitted_output_path_raises url w :
  (download_file fetch url None w).2 = inl (FileNotFoundError "")
  /\ Path.dirname (Path.basename url) = ""
  /\ files (download_file fetch url None w).1 = files w
  /\ log (download_file fetch url None w).1 =
     log w ++ [Print []; Print [PStr "downloading"; PStr url]].
Proof.
  rewrite download_file_no_path. cbn [fst snd announced add_log log files].
  split; [reflexivity|]. split; [apply dirname_basename|].
  split; [reflexivity|]. rewrite <- app_assoc. reflexivity.
Qed.

Lemma curl_run url path w :
  curl fetch url path w =
  (add_log (Call ["curl"; url; "--output"; path]
                 (curl_outcome fetch url path w).2)
           (curl_outcome fetch url path w).1,
   inr (curl_outcome fetch url path w).2).
Proof.
  unfold curl, curl_outcome. exec.
  destruct (fetch url) as [body|code]; [|reflexivity].
  destruct (write_file path body w) as [w' [e|[]]]; reflexivity.
Qed.

Lemma download_file_path url path w :
  download_file fetch url (Some path) w =
  match makedirs (Path.dirname path) true (announced url w) with
  | (w1, inl e) => (w1, inl e)
  | (w1, inr _) =>
      (add_log (Call ["curl"; url; "--output"; path]
                     (curl_outcome fetch url path w1).2)
               (curl_outcome fetch url path w1).1,
       inr tt)
  end.
Proof.
  unfold download_file. unfold bind at 1 2 3. unfold print, emit, modify.
  fold (announced url w).
  destruct (makedirs (Path.dirname path) true (announced url w))
    as [w1 [e|[]]]; [reflexivity|].
  unfold bind. rewrite curl_run. reflexivity.
Qed.


(** *** The batch downloader *)

Lemma append_log_nil w : append_log [] w = w.
Proof. destruct w. unfold append_log. cbn. rewrite app_nil_r. reflexivity. Qed.

Lemma append_log_app (t1 t2 : list event) w :
  append_log t2 (append_log t1 w) = append_log (t1 ++ t2) w.
Proof. unfold append_log. cbn. rewrite app_assoc. reflexivity. Qed.

Lemma add_log_append e w : add_log e w = append_log [e] w.
Proof. reflexivity. Qed.

Lemma announced_append url w :
  announced url w =
  append_log [Print []; Print [PStr "downloading"; PStr url]] w.
Proof.
  unfold announced. rewrite !add_log_append, append_log_app. reflexivity.
Qed.

Lemma listdir_run d w : listdir d w = (append_log [Listdir d] w, listing d w).
Proof.
  unfold listdir, listing. exec.
  change (abspath (add_log (Listdir d) w) d) with (abspath w d).
  change (is_file (add_log (Listdir d) w)) with (is_file w).
  change (is_dir (add_log (Listdir d) w)) with (is_dir w).
  destruct (Str.is_empty d); [reflexivity|].
  destruct (is_file w (abspath w d)); [reflexivity|].
  destruct (is_dir w (abspath w d)); reflexivity.
Qed.

Lemma listing_append_log t d w : listing d (append_log t w) = listing d w.
Proof. reflexivity. Qed.

(** A directory that does not exist cannot be listed. *)
Lemma listing_missing d w :
  path_exists w d = false -> listing d w = inl (FileNotFoundError d).
Proof.
  unfold path_exists, listing. intros H.
  destruct (Str.is_empty d); [reflexivity|]. cbn in H.
  apply orb_false_iff in H as [Hd Hf]. rewrite Hd, Hf. reflexivity.
Qed.

Lemma skip_existing_loop_listed d names pairs : forall (acc : gset string) w,
  listing d w = inr names ->
  skip_existing_loop d pairs acc w =
  (append_log (replicate (length pairs) (Listdir d)) w,
   inr (acc ∪ list_to_set (filter (fun p => p.2 ∈ names) pairs).*1)).
Proof.
  induction pairs as [|[url filename] rest IH]; intros acc w Hl.
  - cbn. rewrite append_log_nil, union_empty_r_L. reflexivity.
  - cbn [skip_existing_loop]. unfold bind at 1. rewrite listdir_run, Hl.
    rewrite IH by (rewrite listing_append_log; exact Hl).
    rewrite append_log_app. cbn [length replicate app].
    f_equal. f_equal.
    rewrite filter_cons. cbn [snd].
    destruct (decide (filename ∈ names)) as [Hin|Hin].
    + rewrite bool_decide_eq_true_2 by exact Hin. cbn.
      rewrite (comm_L (∪) {[ url ]} acc), <- (assoc_L (∪)). reflexivity.
    + rewrite bool_decide_eq_false_2 by exact Hin. reflexivity.
Qed.

Lemma skip_existing_loop_unlisted d e url filename rest (acc : gset string) w :
  listing d w = inl e ->
  skip_existing_loop d ((url, filename) :: rest) acc w =
  (append_log [Listdir d] w, inl e).
Proof.
  intros Hl. cbn [skip_existing_loop]. unfold bind.
  rewrite listdir_run, Hl. reflexivity.
Qed.

Lemma zip_basename_filter urls (names : list string) :
  (filter (fun p : string * string => p.2 ∈ names)
          (zip urls (Path.basename <$> urls))).*1 =
  filter (fun url => Path.basename url ∈ names) urls.
Proof.
  induction urls as [|u urls IH]; [reflexivity|].
  cbn [fmap list_fmap zip zip_with]. rewrite !filter_cons. cbn [snd].
  destruct (decide (Path.basename u ∈ names)); cbn; rewrite IH; reflexivity.
Qed.

(** the transfer loop of [download_files] stops at the first URL it lets
    through *)
Lemma download_loop_run urls (skip_urls : gset string) w :
  for_each urls
    (fun url => if bool_decide (url ∉ skip_urls)
                then download_file fetch url None else ret tt) w =
  match remaining urls skip_urls with
  | [] => (w, inr tt)
  | url :: _ => (announced url w, inl (FileNotFoundError ""))
  end.
Proof.
  unfold remaining.
  induction urls as [|u urls IH]; [reflexivity|].
  cbn [for_each]. rewrite filter_cons. unfold bind.
  destruct (decide (u ∉ skip_urls)) as [Hu|Hu].
  - rewrite bool_decide_eq_true_2 by exact Hu.
    rewrite download_file_no_path. reflexivity.
  - rewrite bool_decide_eq_false_2 by exact Hu. unfold ret at 1. exact IH.
Qed.

(** *** Running [M] one statement at a time *)

Lemma bind_get {A} (k : world S -> M S A) w : bind get k w = k w w.
Proof. reflexivity. Qed.

Lemma bind_ret {A B} (a : A) (k : A -> M S B) w : bind (ret a) k w = k a w.
Proof. reflexivity. Qed.

Lemma bind_raise {A B} (e : exn) (k : A -> M S B) w :
  bind (raise e) k w = (w, inl e).
Proof. reflexivity. Qed.

Lemma bind_print {A} args (k : unit -> M S A) w :
  bind (print args) k w = k tt (append_log [Print args] w).
Proof. reflexivity. Qed.

Lemma bind_emit {A} e (k : unit -> M S A) w :
  bind (emit e) k w = k tt (append_log [e] w).
Proof. reflexivity. Qed.

Lemma bind_assoc {A B C} (m : M S A) (k : A -> M S B) (k' : B -> M S C) w :
  bind (bind m k) k' w = bind m (fun a => bind (k a) k') w.
Proof. unfold bind. destruct (m w) as [w1 [e|a]]; reflexivity. Qed.

Lemma bind_run {A B} (m : M S A) (k : A -> M S B) w :
  bind m k w =
  match m w with
  | (w1, inr a) => k a w1
  | (w1, inl e) => (w1, inl e)
  end.
Proof. reflexivity. Qed.

Lemma print_skipping_run {A} (skip_urls : gset string) (k : unit -> M S A) w :
  bind (if bool_decide (0 < size skip_urls)%nat then
          bind (print []) (fun _ =>
            print [PStr "skipping"; PInt (size skip_urls);
                   PStr "files that already exist"])
        else ret tt) k w =
  k tt (append_log (skipping_lines skip_urls) w).
Proof.
  unfold skipping_lines.
  destruct (bool_decide (0 < size skip_urls)%nat).
  - rewrite bind_assoc, bind_print, bind_print, append_log_app. reflexivity.
  - rewrite bind_ret, append_log_nil. reflexivity.
Qed.

Lemma done_run w :
  bind (print []) (fun _ => print [PStr "done"]) w =
  (append_log done_lines w, inr tt).
Proof.
  rewrite bind_print. unfold print, emit, modify.
  rewrite add_log_append, append_log_app. reflexivity.
Qed.

(** *** What a call of [download_files] does *)

Lemma download_files_listed urls output_dir w names :
  listing (resolved_output_dir w output_dir) w = inr names ->
  download_files fetch urls output_dir true w =
  let d := resolved_output_dir w output_dir in
  let skip_urls := present_urls urls names in
  let w2 := append_log (download_files_header urls d
                        ++ replicate (length urls) (Listdir d)
                        ++ skipping_lines skip_urls) w in
  match remaining urls skip_urls with
  | [] => (append_log done_lines w2, inr tt)
  | url :: _ => (announced url w2, inl (FileNotFoundError ""))
  end.
Proof.
  intros Hl. unfold download_files. rewrite bind_get.
  change (abspath w (expanduser w _)) with (resolved_output_dir w output_dir).
  set (d := resolved_output_dir w output_dir) in *.
  rewrite !bind_print, !append_log_app. cbn [app].
  rewrite !bind_assoc. rewrite bind_run.
  rewrite (skip_existing_loop_listed d names)
    by (rewrite listing_append_log; exact Hl).
  rewrite zip_basename_filter. rewrite union_empty_l_L.
  fold (present_urls urls names).
  rewrite bind_assoc, print_skipping_run, bind_ret.
  rewrite !append_log_app. rewrite length_zip_with_l_eq
    by (rewrite length_fmap; reflexivity).
  rewrite bind_run, download_loop_run.
  cbv zeta. unfold download_files_header. cbn [app].
  destruct (remaining urls (present_urls urls names)); [|reflexivity].
  rewrite done_run, !append_log_app. cbn [app].
  rewrite <- !app_assoc. reflexivity.
Qed.

Lemma download_files_unlisted url rest output_dir w e :
  listing (resolved_output_dir w output_dir) w = inl e ->
  download_files fetch (url :: rest) output_dir true w =
  (append_log (download_files_header (url :: rest)
                 (resolved_output_dir w output_dir)
               ++ [Listdir (resolved_output_dir w output_dir)]) w,
   inl e).
Proof.
  intros Hl. unfold download_files. rewrite bind_get.
  change (abspath w (expanduser w _)) with (resolved_output_dir w output_dir).
  set (d := resolved_output_dir w output_dir) in *.
  rewrite !bind_print, !append_log_app. cbn [app].
  rewrite !bind_assoc, bind_run.
  cbn [fmap list_fmap zip zip_with].
  rewrite (skip_existing_loop_unlisted d e)
    by (rewrite listing_append_log; exact Hl).
  rewrite append_log_app. reflexivity.
Qed.

Lemma remaining_empty urls : remaining urls ∅ = urls.
Proof.
  unfold remaining. induction urls as [|u urls IH]; [reflexivity|].
  rewrite filter_cons_True by apply not_elem_of_empty.
  rewrite IH. reflexivity.
Qed.

Lemma download_files_unconditional urls output_dir w :
  download_files fetch urls output_dir false w =
  let w2 := append_log (download_files_header urls
                          (resolved_output_dir w output_dir)) w in
  match urls with
  | [] => (append_log done_lines w2, inr tt)
  | url :: _ => (announced url w2, inl (FileNotFoundError ""))
  end.
Proof.
  unfold download_files. rewrite bind_get.
  change (abspath w (expanduser w _)) with (resolved_output_dir w output_dir).
  rewrite !bind_print, !append_log_app. cbn [app].
  rewrite bind_ret, bind_run, download_loop_run, remaining_empty.
  cbv zeta. unfold download_files_header.
  destruct urls; [|reflexivity].
  rewrite done_run, ?append_log_app. reflexivity.
Qed.

Lemma skipping_lines_empty : skipping_lines ∅ = [].
Proof.
  unfold skipping_lines. rewrite size_empty.
  rewrite bool_decide_eq_false_2 by lia. reflexivity.
Qed.

Lemma download_files_no_urls output_dir w :
  download_files fetch [] output_dir true w =
  (append_log (download_files_header [] (resolved_output_dir w output_dir)
               ++ done_lines) w,
   inr tt).
Proof.
  unfold download_files. rewrite bind_get.
  change (abspath w (expanduser w _)) with (resolved_output_dir w output_dir).
  rewrite !bind_print, !append_log_app. cbn [app].
  rewrite !bind_assoc. cbn [fmap list_fmap zip zip_with skip_existing_loop].
  rewrite bind_ret, bind_assoc, print_skipping_run, bind_ret.
  rewrite skipping_lines_empty, append_log_nil.
  cbn [for_each]. rewrite bind_ret, done_run, !append_log_app.
  reflexivity.
Qed.

(** The skip set of [download_files]: the URLs of the input whose base
    name is in the listing. *)
Lemma present_urls_spec urls names url :
  url ∈ present_urls urls names <-> url ∈ urls /\ Path.basename url ∈ names.
Proof.
  unfold present_urls. rewrite elem_of_list_to_set, list_elem_of_filter.
  apply and_comm.
Qed.

Lemma remaining_spec urls (skip_urls : gset string) url :
  url ∈ remaining urls skip_urls <-> url ∈ urls /\ url ∉ skip_urls.
Proof. unfold remaining. rewrite list_elem_of_filter. apply and_comm. Qed.

(** [download_files] never runs [curl] and never writes a file. *)
Lemma download_files_fetches_nothing urls output_dir skip_existing w :
  exists t,
    (download_files fetch urls output_dir skip_existing w).1 = append_log t w
    /\ Forall (fun e => is_call e = false) t.
Proof.
  destruct skip_existing.
  - destruct (listing (resolved_output_dir w output_dir) w) as [e|names] eqn:Hl.
    + destruct urls as [|url rest].
      * rewrite download_files_no_urls. eexists. split; [reflexivity|].
        repeat constructor.
      * rewrite (download_files_unlisted _ _ _ _ e Hl).
        eexists. split; [reflexivity|]. repeat constructor.
    + rewrite (download_files_listed _ _ _ names Hl). cbv zeta.
      destruct (remaining urls (present_urls urls names)) as [|url rest].
      * rewrite append_log_app. eexists. split; [reflexivity|].
        rewrite !Forall_app. unfold skipping_lines.
        repeat split; try (repeat constructor).
        -- apply Forall_replicate. reflexivity.
        -- destruct (bool_decide _); repeat constructor.
      * rewrite announced_append, append_log_app.
        eexists. split; [reflexivity|].
        rewrite !Forall_app. unfold skipping_lines.
        repeat split; try (repeat constructor).
        -- apply Forall_replicate. reflexivity.
        -- destruct (bool_decide _); repeat constructor.
  - rewrite download_files_unconditional. cbv zeta.
    destruct urls as [|url rest].
    + rewrite append_log_app. eexists. split; [reflexivity|].
      repeat constructor.
    + rewrite announced_append, append_log_app.
      eexists. split; [reflexivity|]. repeat constructor.
Qed.


(** *** Temporary directories *)

Lemma mkdir_run path w :
  mkdir path w =
  if Str.is_empty path then (w, inl (FileNotFoundError path))
  else if is_dir w (abspath w path) || is_file w (abspath w path)
  then (w, inl (FileExistsError path))
  else if is_file w (Path.dirname (abspath w path))
  then (w, inl (NotADirectoryError path))
  else if negb (is_dir w (Path.dirname (abspath w path)))
  then (w, inl (FileNotFoundError path))
  else (set_fs ({[ abspath w path ]} ∪ dirs w) (files w) w, inr tt).
Proof.
  unfold mkdir. rewrite bind_get.
  repeat match goal with
         | |- context [if ?b then _ else _] => destruct b
         end; reflexivity.
Qed.

Lemma mkdir_ok path w w' :
  mkdir path w = (w', inr tt) ->
  w' = set_fs ({[ abspath w path ]} ∪ dirs w) (files w) w
  /\ is_dir w (abspath w path) = false
  /\ is_file w (abspath w path) = false.
Proof.
  rewrite mkdir_run.
  destruct (Str.is_empty path); [discriminate|].
  destruct (is_dir w (abspath w path)) eqn:Hd; [discriminate|].
  destruct (is_file w (abspath w path)) eqn:Hf; [discriminate|].
  cbn [orb].
  destruct (is_file w (Path.dirname (abspath w path))); [discriminate|].
  destruct (is_dir w (Path.dirname (abspath w path))); [|discriminate].
  cbn [negb]. intros [= <-]. auto.
Qed.

Lemma mkdir_raises path w w' e : mkdir path w = (w', inl e) -> w' = w.
Proof.
  rewrite mkdir_run.
  repeat match goal with
         | |- context [if ?b then _ else _] => destruct b
         end; congruence.
Qed.

Lemma mkdtemp_loop_ok names : forall w w1 tmp,
  mkdtemp_loop names w = (w1, inr tmp) ->
  dirs w1 = {[ tmp ]} ∪ dirs w /\ files w1 = files w
  /\ is_dir w tmp = false /\ is_file w tmp = false.
Proof.
  induction names as [|name rest IH]; intros w w1 tmp; [discriminate|].
  cbn [mkdtemp_loop]. unfold bind at 1. unfold modify at 1.
  rewrite bind_get. unfold try_except. rewrite bind_run.
  set (w0 := set_temp_names rest w).
  set (file := Path.join (tempdir w0) ("tmp" +:+ name)).
  destruct (mkdir file w0) as [w2 [e|[]]] eqn:Hm.
  - apply mkdir_raises in Hm as ->.
    destruct (is_FileExistsError e); [|discriminate].
    intros H. apply IH in H. exact H.
  - apply mkdir_ok in Hm as (-> & Hd & Hf).
    unfold ret. intros [= <- <-]. repeat split; assumption.
Qed.

Lemma mkdtemp_loop_raises names : forall w w1 e,
  mkdtemp_loop names w = (w1, inl e) ->
  dirs w1 = dirs w /\ files w1 = files w.
Proof.
  induction names as [|name rest IH]; intros w w1 e.
  - intros [= <- _]. split; reflexivity.
  - cbn [mkdtemp_loop]. unfold bind at 1. unfold modify at 1.
    rewrite bind_get. unfold try_except. rewrite bind_run.
    set (w0 := set_temp_names rest w).
    set (file := Path.join (tempdir w0) ("tmp" +:+ name)).
    destruct (mkdir file w0) as [w2 [e'|[]]] eqn:Hm.
    + apply mkdir_raises in Hm as ->.
      destruct (is_FileExistsError e').
      * intros H. apply IH in H. exact H.
      * intros [= <- _]. split; reflexivity.
    + discriminate.
Qed.

Lemma mkdtemp_ok w w1 tmp :
  mkdtemp w = (w1, inr tmp) ->
  dirs w1 = {[ tmp ]} ∪ dirs w /\ files w1 = files w
  /\ is_dir w tmp = false /\ is_file w tmp = false.
Proof. unfold mkdtemp. rewrite bind_get. apply mkdtemp_loop_ok. Qed.

Lemma mkdtemp_raises w w1 e :
  mkdtemp w = (w1, inl e) -> dirs w1 = dirs w /\ files w1 = files w.
Proof. unfold mkdtemp. rewrite bind_get. apply mkdtemp_loop_raises. Qed.

(** [rmtree] leaves nothing at or below the directory. *)
Lemma rmtree_gone d w q :
  under d q = true ->
  (q ∉ dirs (rmtree d w)) /\ files (rmtree d w) !! q = None.
Proof.
  intros Hu. unfold rmtree. cbn [dirs files set_fs]. split.
  - rewrite elem_of_filter. intros [Hn _]. congruence.
  - apply map_lookup_filter_None. right. intros v _. cbn. congruence.
Qed.

Lemma under_refl d : under d d = true.
Proof. unfold under. rewrite bool_decide_eq_true_2 by reflexivity. reflexivity. Qed.

(** A [with tempfile.TemporaryDirectory()] block releases the directory
    on every exit path of its body; when the directory cannot be created
    the body does not run and the file system is as before. *)
Lemma with_TemporaryDirectory_releases {A} (body : string -> M S A) w :
  match mkdtemp w with
  | (w1, inr tmp) =>
      with_TemporaryDirectory body w =
      (rmtree tmp (body tmp w1).1, (body tmp w1).2)
      /\ forall q, under tmp q = true ->
           (q ∉ dirs (with_TemporaryDirectory body w).1)
           /\ files (with_TemporaryDirectory body w).1 !! q = None
  | (w1, inl e) =>
      with_TemporaryDirectory body w = (w1, inl e)
      /\ dirs w1 = dirs w /\ files w1 = files w
  end.
Proof.
  unfold with_TemporaryDirectory. rewrite bind_run.
  destruct (mkdtemp w) as [w1 [e|tmp]] eqn:Hm.
  - split; [reflexivity|]. eapply mkdtemp_raises, Hm.
  - unfold try_finally. destruct (body tmp w1) as [w2 r]. cbn [fst snd].
    split; [reflexivity|]. intros q Hq. apply rmtree_gone, Hq.
Qed.

(** *** The directory uploader *)

Lemma write_file_run path content w :
  write_file path content w =
  if Str.is_empty path then (w, inl (FileNotFoundError path))
  else if is_dir w (abspath w path) then (w, inl (IsADirectoryError path))
  else if is_file w (Path.dirname (abspath w path))
  then (w, inl (NotADirectoryError path))
  else if negb (is_dir w (Path.dirname (abspath w path)))
  then (w, inl (FileNotFoundError path))
  else (set_fs (dirs w) (<[ abspath w path := content ]> (files w)) w, inr tt).
Proof.
  unfold write_file. rewrite bind_get.
  repeat match goal with
         | |- context [if ?b then _ else _] => destruct b
         end; reflexivity.
Qed.

Lemma write_file_ok path content w w' :
  write_file path content w = (w', inr tt) ->
  w' = set_fs (dirs w) (<[ abspath w path := content ]> (files w)) w.
Proof.
  rewrite write_file_run.
  repeat match goal with
         | |- context [if ?b then _ else _] => destruct b
         end; congruence.
Qed.

Lemma upload_directory_listed local_path bucket_path dir_files
  remove_deleted_files w :
  upload_directory rclone_status local_path bucket_path (Some dir_files)
    remove_deleted_files w =
  match mkdtemp (append_log (upload_directory_header local_path bucket_path) w)
  with
  | (w1, inl e) => (w1, inl e)
  | (w1, inr temp_dir) =>
      let temp_path := Path.join temp_dir "file_list.txt" in
      let command :=
        mirror_command local_path bucket_path remove_deleted_files
        ++ ["--files-from"; temp_path] in
      match write_file temp_path
              (Str.join (String Str.newline "") dir_files) w1 with
      | (w2, inl e) => (w2, inl e)
      | (w2, inr _) =>
          (append_log [Call command (rclone_status command)] w2, inr tt)
      end
  end.
Proof.
  unfold upload_directory. rewrite !bind_print, !append_log_app.
  cbn [app]. fold (upload_directory_header local_path bucket_path).
  rewrite bind_assoc, bind_run.
  destruct (mkdtemp _) as [w1 [e|temp_dir]]; [reflexivity|].
  rewrite bind_assoc, bind_run.
  destruct (write_file _ _ w1) as [w2 [e|[]]]; reflexivity.
Qed.

Lemma upload_directory_unlisted local_path bucket_path remove_deleted_files w :
  upload_directory rclone_status local_path bucket_path None
    remove_deleted_files w =
  let command :=
    mirror_command local_path bucket_path remove_deleted_files
    ++ ["--exclude"; exclude_pattern] in
  (append_log (upload_directory_header local_path bucket_path
               ++ [Call command (rclone_status command)]) w,
   inr tt).
Proof.
  unfold upload_directory. rewrite !bind_print, !append_log_app.
  rewrite bind_ret. unfold rclone. rewrite bind_assoc, bind_emit, !bind_ret.
  rewrite append_log_app. reflexivity.
Qed.

(** [upload_directory] never removes what [mkdtemp] and [open] created:
    after a call with a file list that returned normally, the temporary
    directory and the list file in it are still there. *)
Lemma upload_directory_leaves_file_list local_path bucket_path dir_files
  remove_deleted_files w w' :
  upload_directory rclone_status local_path bucket_path (Some dir_files)
    remove_deleted_files w = (w', inr tt) ->
  exists temp_dir,
    is_dir w temp_dir = false
    /\ temp_dir ∈ dirs w'
    /\ file_content w' (Path.join temp_dir "file_list.txt") =
       Some (Str.join (String Str.newline "") dir_files)
    /\ exists status,
         last (log w') =
         Some (Call (mirror_command local_path bucket_path remove_deleted_files
                     ++ ["--files-from"; Path.join temp_dir "file_list.txt"])
                    status).
Proof.
  rewrite upload_directory_listed.
  destruct (mkdtemp _) as [w1 [e|temp_dir]] eqn:Hm; [discriminate|].
  cbv zeta.
  destruct (write_file _ _ w1) as [w2 [e|[]]] eqn:Hw; [discriminate|].
  intros [= <-]. apply write_file_ok in Hw as ->.
  apply mkdtemp_ok in Hm as (Hd & Hf & Hnd & Hnf).
  exists temp_dir. split; [exact Hnd|]. split.
  - cbn [dirs append_log set_fs]. rewrite Hd.
    apply elem_of_union_l, elem_of_singleton_2. reflexivity.
  - split.
    + unfold file_content. cbn [files append_log set_fs].
      apply lookup_insert_eq.
    + eexists. cbn [log append_log set_fs]. apply last_snoc.
Qed.

(** *** The filter options of [rclone] *)

Lemma split_lines_line (s : string) (rest : string) :
  Str.has_newline s = false ->
  Str.split_lines (s +:+ String Str.newline rest) = s :: Str.split_lines rest.
Proof.
  induction s as [|c s IH]; intros H.
  - reflexivity.
  - cbn [Str.has_newline] in H. apply orb_false_iff in H as [Hc Hs].
    change (String c s +:+ String Str.newline rest)
      with (String c (s +:+ String Str.newline rest)).
    cbn [Str.split_lines]. rewrite Hc, (IH Hs). reflexivity.
Qed.

Lemma split_lines_single (s : string) :
  Str.has_newline s = false -> Str.split_lines s = [s].
Proof.
  induction s as [|c s IH]; intros H; [reflexivity|].
  cbn [Str.has_newline] in H. apply orb_false_iff in H as [Hc Hs].
  cbn [Str.split_lines]. rewrite Hc, (IH Hs). reflexivity.
Qed.

(** One path per line: a list of paths without line breaks is read back
    from the text written to the list file. *)
Lemma split_lines_join (paths : list string) :
  paths <> [] ->
  Forall (fun p => Str.has_newline p = false) paths ->
  Str.split_lines (Str.join (String Str.newline "") paths) = paths.
Proof.
  induction paths as [|p paths IH]; [congruence|].
  intros _ H. inversion H as [|? ? Hp Hps]; subst.
  destruct paths as [|p' paths].
  - cbn [Str.join]. apply split_lines_single, Hp.
  - change (Str.join (String Str.newline "") (p :: p' :: paths))
      with (p +:+ String Str.newline
              (Str.join (String Str.newline "") (p' :: paths))).
    rewrite split_lines_line by exact Hp.
    rewrite IH by (congruence || exact Hps). reflexivity.
Qed.

Lemma listed_join (paths : list string) :
  Forall (fun p => Str.has_newline p = false /\ Str.is_empty p = false) paths ->
  Rclone.listed (Str.join (String Str.newline "") paths) = paths.
Proof.
  intros H. unfold Rclone.listed.
  destruct paths as [|p paths]; [reflexivity|].
  rewrite split_lines_join.
  - induction H as [|q qs [_ Hq] _ IH]; [reflexivity|].
    rewrite filter_cons_True by exact Hq. rewrite IH. reflexivity.
  - congruence.
  - eapply Forall_impl; [exact H|]. intros q [Hq _]. exact Hq.
Qed.

(** With a file list, the filter option that [upload_directory] adds lets
    through exactly the listed paths. *)
Lemma upload_directory_allow_list local_path bucket_path dir_files
  remove_deleted_files w w' :
  Forall (fun p => Str.has_newline p = false /\ Str.is_empty p = false)
         dir_files ->
  upload_directory rclone_status local_path bucket_path (Some dir_files)
    remove_deleted_files w = (w', inr tt) ->
  exists temp_path status,
    last (log w') =
    Some (Call (mirror_command local_path bucket_path remove_deleted_files
                ++ ["--files-from"; temp_path]) status)
    /\ forall path,
         Rclone.selected (file_content w') ["--files-from"; temp_path] path
         = true <-> path ∈ dir_files.
Proof.
  intros Hfs Hrun.
  destruct (upload_directory_leaves_file_list _ _ _ _ _ _ Hrun)
    as (temp_dir & _ & _ & Hc & status & Hlast).
  exists (Path.join temp_dir "file_list.txt"), status.
  split; [exact Hlast|]. intros path.
  cbn [Rclone.selected].
  rewrite bool_decide_eq_false_2 by discriminate.
  rewrite bool_decide_eq_true_2 by reflexivity.
  rewrite Hc, (listed_join _ Hfs), andb_true_r.
  apply bool_decide_eq_true.
Qed.

(** The pattern handed to [--exclude] begins with a double quote, so it
    matches no file name that begins with a dot. *)
Lemma exclude_pattern_misses_dotfiles (name : string) :
  Str.has_sep name = false ->
  Str.startswith "." name = true ->
  Rclone.matches exclude_pattern name = false.
Proof.
  intros Hsep Hdot.
  destruct name as [|c name]; [discriminate|].
  cbn [Str.startswith] in Hdot. apply andb_true_iff in Hdot as [Hc _].
  apply bool_decide_eq_true in Hc. subst c.
  unfold Rclone.matches, exclude_pattern. cbn [Str.is_sep].
  assert (Ha : Rclone.after_seps (String "." name) = []).
  { clear -Hsep. cbn [Str.has_sep] in Hsep.
    apply orb_false_iff in Hsep as [_ Hsep].
    cbn. induction name as [|c name IH]; [reflexivity|].
    cbn [Str.has_sep] in Hsep. apply orb_false_iff in Hsep as [Hc Hn].
    cbn. rewrite Hc. exact (IH Hn). }
  rewrite Ha. reflexivity.
Qed.

(** *** The download-then-upload pipeline *)

Lemma read_file_run path w :
  read_file path w =
  if Str.is_empty path then (w, inl (FileNotFoundError path))
  else if is_dir w (abspath w path) then (w, inl (IsADirectoryError path))
  else match files w !! abspath w path with
       | Some content => (w, inr content)
       | None => (w, inl (FileNotFoundError path))
       end.
Proof.
  unfold read_file. rewrite bind_get.
  destruct (Str.is_empty path); [reflexivity|].
  destruct (is_dir w (abspath w path)); [reflexivity|].
  destruct (files w !! abspath w path); reflexivity.
Qed.

Lemma remove_run path w :
  remove path w =
  let w' := append_log [Remove path] w in
  if Str.is_empty path then (w', inl (FileNotFoundError path))
  else if is_dir w (abspath w path) then (w', inl (IsADirectoryError path))
  else if negb (is_file w (abspath w path))
  then (w', inl (FileNotFoundError path))
  else (set_fs (dirs w) (delete (abspath w path) (files w)) w', inr tt).
Proof.
  unfold remove. rewrite bind_emit, bind_get. cbv zeta.
  change (abspath (append_log [Remove path] w) path) with (abspath w path).
  change (is_dir (append_log [Remove path] w)) with (is_dir w).
  change (is_file (append_log [Remove path] w)) with (is_file w).
  destruct (Str.is_empty path); [reflexivity|].
  destruct (is_dir w (abspath w path)); [reflexivity|].
  destruct (is_file w (abspath w path)); reflexivity.
Qed.

Lemma s3_upload_file_run local_path bucket key w :
  s3_upload_file local_path bucket key w =
  let w' := append_log [S3Upload local_path bucket key] w in
  match read_file local_path w with
  | (_, inl e) => (w', inl e)
  | (_, inr body) =>
      match put_object (s3 w) body bucket key with
      | inl e => (w', inl e)
      | inr s' => (set_s3 s' w', inr tt)
      end
  end.
Proof.
  unfold s3_upload_file. rewrite bind_emit, bind_run. cbv zeta.
  rewrite !read_file_run.
  change (abspath (append_log _ w) local_path) with (abspath w local_path).
  change (is_dir (append_log [S3Upload local_path bucket key] w))
    with (is_dir w).
  change (files (append_log [S3Upload local_path bucket key] w))
    with (files w).
  destruct (Str.is_empty local_path); [reflexivity|].
  destruct (is_dir w (abspath w local_path)); [reflexivity|].
  destruct (files w !! abspath w local_path) as [body|]; [|reflexivity].
  rewrite bind_get.
  change (s3 (append_log [S3Upload local_path bucket key] w)) with (s3 w).
  destruct (put_object (s3 w) body bucket key); reflexivity.
Qed.

Lemma curl_outcome_quiet url path w :
  quiet w (curl_outcome fetch url path w).1.
Proof.
  unfold curl_outcome. destruct (fetch url) as [body|code].
  - pose proof (Quiet_write_file path body w) as H.
    destruct (write_file path body w) as [w' [e|[]]]; exact H.
  - apply quiet_refl.
Qed.

Lemma read_file_ok path w w' body :
  read_file path w = (w', inr body) ->
  Str.is_empty path = false
  /\ is_dir w (abspath w path) = false
  /\ files w !! abspath w path = Some body.
Proof.
  rewrite read_file_run.
  destruct (Str.is_empty path); [discriminate|].
  destruct (is_dir w (abspath w path)); [discriminate|].
  destruct (files w !! abspath w path); [|discriminate].
  intros [= _ <-]. auto.
Qed.

(** A file that could just be read can be removed. *)
Lemma remove_after_read path w w0 w' body :
  read_file path w = (w0, inr body) ->
  cwd w' = cwd w -> dirs w' = dirs w -> files w' = files w ->
  remove path w' =
  (set_fs (dirs w') (delete (abspath w' path) (files w'))
          (append_log [Remove path] w'),
   inr tt).
Proof.
  intros Hr Hc Hd Hf. apply read_file_ok in Hr as (He & Hnd & Hb).
  rewrite remove_run. cbv zeta. rewrite He.
  assert (Ha : abspath w' path = abspath w path)
    by (unfold abspath; rewrite Hc; reflexivity).
  rewrite Ha.
  assert (Hd' : is_dir w' (abspath w path) = false)
    by (unfold is_dir in *; rewrite Hd; exact Hnd).
  assert (Hf' : is_file w' (abspath w path) = true).
  { unfold is_file. rewrite Hf, Hb. apply bool_decide_eq_true_2. eauto. }
  rewrite Hd', Hf'. reflexivity.
Qed.

Lemma log_announced url w :
  log (announced url w) =
  log w ++ [Print []; Print [PStr "downloading"; PStr url]].
Proof. unfold announced. cbn. rewrite <- app_assoc. reflexivity. Qed.

(** One turn of the transfer loop: the fetch into the scratch directory,
    then the upload of the scratch file, then, once the upload has
    succeeded, the removal of the scratch file.  A turn that raises does
    so before the fetch or at the upload; the removal never raises. *)
Lemma transfer_run tmp_dir s3_bucket prefix url w :
  let r := transfer fetch tmp_dir s3_bucket prefix url w in
  (exists status,
     r.2 = inr tt
     /\ log r.1 =
        log w ++ transfer_block tmp_dir s3_bucket prefix url status
     /\ file_content r.1 (scratch_path tmp_dir url) = None
     /\ exists body,
          put_object (s3 w) body s3_bucket (object_key prefix url)
          = inr (s3 r.1))
  \/ (returned r.2 = false
      /\ log r.1 = log w ++ [Print []; Print [PStr "downloading"; PStr url]])
  \/ (exists status,
        returned r.2 = false
        /\ log r.1 =
           log w
           ++ take 4 (transfer_block tmp_dir s3_bucket prefix url status)).
Proof.
  cbv zeta. unfold transfer. rewrite bind_run, download_file_path.
  set (lp := scratch_path tmp_dir url).
  set (key := object_key prefix url).
  pose proof (Quiet_makedirs (Path.dirname lp) true (announced url w)) as Hq.
  destruct (makedirs (Path.dirname lp) true (announced url w))
    as [w1 [e|[]]].
  { right. left. cbn [fst snd returned]. split; [reflexivity|].
    destruct Hq as (Hl & _). cbn [fst] in Hl.
    rewrite Hl. apply log_announced. }
  cbn [fst] in Hq.
  pose proof (curl_outcome_quiet url lp w1) as Hc.
  set (status := (curl_outcome fetch url lp w1).2).
  set (wc := add_log (Call ["curl"; url; "--output"; lp] status)
                     (curl_outcome fetch url lp w1).1).
  assert (Hlog : log wc = log w ++ [Print [];
                                    Print [PStr "downloading"; PStr url];
                                    Call ["curl"; url; "--output"; lp] status]).
  { subst wc. cbn [log add_log].
    destruct Hc as (-> & _). destruct Hq as (-> & _).
    rewrite log_announced, <- app_assoc. reflexivity. }
  assert (Hs3 : s3 wc = s3 w).
  { subst wc. cbn [s3 add_log].
    destruct Hc as (_ & -> & _). destruct Hq as (_ & -> & _). reflexivity. }
  clearbody wc. clear Hc Hq.
  rewrite bind_run, s3_upload_file_run. cbv zeta.
  destruct (read_file lp wc) as [w2 [e|body]] eqn:Hr.
  { right. right. exists status. cbn [fst snd returned log append_log].
    split; [reflexivity|]. rewrite Hlog, <- app_assoc. reflexivity. }
  destruct (put_object (s3 wc) body s3_bucket key) as [e|s'] eqn:Hp.
  { right. right. exists status. cbn [fst snd returned log append_log].
    split; [reflexivity|]. rewrite Hlog, <- app_assoc. reflexivity. }
  left. exists status.
  rewrite (remove_after_read lp wc w2 _ body Hr)
    by reflexivity.
  cbn [fst snd]. split; [reflexivity|]. split; [|split].
  - cbn [log set_fs set_s3 append_log]. rewrite Hlog, <- !app_assoc.
    reflexivity.
  - unfold file_content. cbn [files set_fs]. apply lookup_delete_eq.
  - exists body. cbn [s3 set_fs set_s3 append_log]. rewrite <- Hs3. exact Hp.
Qed.

Lemma s3_loop_trace tmp_dir s3_bucket prefix (skip_urls : gset string) urls :
  forall w,
  let r := for_each urls
             (fun url => if bool_decide (url ∉ skip_urls)
                         then transfer fetch tmp_dir s3_bucket prefix url
                         else ret tt) w in
  exists t,
    log r.1 = log w ++ t
    /\ loop_trace tmp_dir s3_bucket prefix (remaining urls skip_urls)
         (returned r.2) t.
Proof.
  unfold remaining.
  induction urls as [|u urls IH]; intros w; cbv zeta.
  - exists []. cbn. rewrite app_nil_r. split; [reflexivity|constructor].
  - cbn [for_each]. rewrite bind_run, filter_cons.
    destruct (decide (u ∉ skip_urls)) as [Hu|Hu].
    + rewrite bool_decide_eq_true_2 by exact Hu.
      destruct (transfer_run tmp_dir s3_bucket prefix u w)
        as [(status & Hr & Hl & _) | [(Hr & Hl) | (status & Hr & Hl)]].
      * destruct (transfer fetch tmp_dir s3_bucket prefix u w)
          as [w1 [e|[]]]; cbn [fst snd] in *; [discriminate|].
        destruct (IH w1) as (t & Ht & Htr).
        exists (transfer_block tmp_dir s3_bucket prefix u status ++ t).
        split.
        -- rewrite Ht, Hl, <- app_assoc. reflexivity.
        -- constructor. exact Htr.
      * destruct (transfer fetch tmp_dir s3_bucket prefix u w)
          as [w1 [e|[]]]; cbn [fst snd returned] in *; [|discriminate].
        eexists. split; [exact Hl|]. constructor.
      * destruct (transfer fetch tmp_dir s3_bucket prefix u w)
          as [w1 [e|[]]]; cbn [fst snd returned] in *; [|discriminate].
        eexists. split; [exact Hl|]. constructor.
    + rewrite bool_decide_eq_false_2 by exact Hu.
      unfold ret at 1. apply IH.
Qed.

Lemma loop_then_done tmp_dir s3_bucket prefix (skip_urls : gset string)
  urls w :
  let r := bind (for_each urls
                   (fun url => if bool_decide (url ∉ skip_urls)
                               then transfer fetch tmp_dir s3_bucket prefix url
                               else ret tt))
                (fun _ => bind (print []) (fun _ => print [PStr "done"])) w in
  exists t,
    loop_trace tmp_dir s3_bucket prefix (remaining urls skip_urls)
      (returned r.2) t
    /\ log r.1 = log w ++ t ++ (if returned r.2 then done_lines else []).
Proof.
  cbv zeta. rewrite bind_run.
  destruct (s3_loop_trace tmp_dir s3_bucket prefix skip_urls urls w)
    as (t & Hl & Htr).
  cbv zeta in Hl, Htr.
  destruct (for_each urls _ w) as [w1 [e|[]]]; cbn [fst snd returned] in *.
  - exists t. split; [exact Htr|]. rewrite app_nil_r. exact Hl.
  - rewrite done_run. cbn [fst snd returned log append_log].
    exists t. split; [exact Htr|]. rewrite Hl, <- app_assoc. reflexivity.
Qed.

Lemma download_files_to_s3_trace urls s3_bucket prefix skip_existing
  w w1 tmp_dir :
  mkdtemp w = (w1, inr tmp_dir) ->
  let r := download_files_to_s3 fetch urls s3_bucket prefix skip_existing w in
  if skip_existing then
    match list_objects_v2 (s3 w) s3_bucket prefix with
    | inl e =>
        r.2 = inl e
        /\ log r.1 = log w ++ s3_header urls tmp_dir
                     ++ [S3List s3_bucket prefix]
    | inr response =>
        let skip_urls := s3_skip_urls urls prefix response in
        exists t,
          loop_trace tmp_dir s3_bucket prefix (remaining urls skip_urls)
            (returned r.2) t
          /\ log r.1 = log w ++ s3_header urls tmp_dir
                       ++ [S3List s3_bucket prefix]
                       ++ skipping_lines skip_urls ++ t
                       ++ (if returned r.2 then done_lines else [])
    end
  else
    exists t,
      loop_trace tmp_dir s3_bucket prefix urls (returned r.2) t
      /\ log r.1 = log w ++ s3_header urls tmp_dir ++ t
                   ++ (if returned r.2 then done_lines else []).
Proof.
  intros Hm. cbv zeta. unfold download_files_to_s3.
  match goal with
  | |- context [with_TemporaryDirectory ?b w] =>
      pose proof (with_TemporaryDirectory_releases b w) as Hrel;
      set (body := b) in *
  end.
  rewrite Hm in Hrel. destruct Hrel as [-> _]. cbn [fst snd].
  change (log (rmtree tmp_dir (body tmp_dir w1).1))
    with (log (body tmp_dir w1).1).
  destruct (Quiet_mkdtemp w) as (Hlog & Hs3 & _).
  rewrite Hm in Hlog, Hs3. cbn [fst] in Hlog, Hs3.
  rewrite <- Hlog, <- Hs3. clear Hm Hlog Hs3.
  subst body. cbv beta.
  rewrite !bind_print, !append_log_app. cbn [app].
  fold (s3_header urls tmp_dir).
  destruct skip_existing.
  - unfold s3_list_objects_v2.
    destruct (list_objects_v2 (s3 w1) s3_bucket prefix) as [e|response]
      eqn:Hlist;
      rewrite !bind_assoc, bind_emit; cbv beta;
      rewrite !bind_assoc, bind_get;
      change (s3 (append_log _ (append_log _ w1))) with (s3 w1);
      rewrite Hlist.
    + rewrite bind_raise. cbn [fst snd log append_log]. split; [reflexivity|].
      rewrite <- app_assoc. reflexivity.
    + rewrite bind_ret, bind_assoc, print_skipping_run, bind_ret.
      rewrite !append_log_app.
      destruct (loop_then_done tmp_dir s3_bucket prefix
                  (s3_skip_urls urls prefix response) urls
                  (append_log (s3_header urls tmp_dir
                               ++ [S3List s3_bucket prefix]
                               ++ skipping_lines
                                    (s3_skip_urls urls prefix response)) w1))
        as (t & Htr & Hl).
      exists t. split; [exact Htr|].
      etransitivity; [exact Hl|].
      cbn [log append_log]. rewrite <- !app_assoc. reflexivity.
  - rewrite bind_ret.
    destruct (loop_then_done tmp_dir s3_bucket prefix ∅ urls
                (append_log (s3_header urls tmp_dir) w1))
      as (t & Htr & Hl).
    rewrite remaining_empty in Htr.
    exists t. split; [exact Htr|].
    etransitivity; [exact Hl|].
    cbn [log append_log]. rewrite <- !app_assoc. reflexivity.
Qed.

(** *** Reading the log of the transfer loop *)

Lemma loop_trace_announces tmp_dir s3_bucket prefix l ok t url :
  loop_trace tmp_dir s3_bucket prefix l ok t ->
  Print [PStr "downloading"; PStr url] ∈ t -> url ∈ l.
Proof.
  induction 1 as [|u rest status ok t _ IH|u rest|u rest status]; intros Hin.
  - inversion Hin.
  - apply elem_of_app in Hin as [Hin|Hin].
    + unfold transfer_block in Hin.
      repeat (apply elem_of_cons in Hin as [Hin|Hin]; [try discriminate|]).
      * injection Hin as ->. apply elem_of_cons. left. reflexivity.
      * inversion Hin.
    + apply elem_of_cons. right. apply IH, Hin.
  - repeat (apply elem_of_cons in Hin as [Hin|Hin]; [try discriminate|]).
    + injection Hin as ->. apply elem_of_cons. left. reflexivity.
    + inversion Hin.
  - cbn in Hin.
    repeat (apply elem_of_cons in Hin as [Hin|Hin]; [try discriminate|]).
    + injection Hin as ->. apply elem_of_cons. left. reflexivity.
    + inversion Hin.
Qed.

Lemma loop_trace_blocks tmp_dir s3_bucket prefix l t :
  loop_trace tmp_dir s3_bucket prefix l true t ->
  exists statuses,
    length statuses = length l
    /\ t = concat (zip_with (transfer_block tmp_dir s3_bucket prefix)
                            l statuses).
Proof.
  remember true as ok eqn:Hok.
  induction 1 as [|u rest status ok t _ IH| |]; try discriminate.
  - exists []. split; reflexivity.
  - destruct (IH Hok) as (statuses & Hlen & ->).
    exists (status :: statuses). split; [cbn; congruence|reflexivity].
Qed.

Lemma loop_trace_complete tmp_dir s3_bucket prefix l t url :
  loop_trace tmp_dir s3_bucket prefix l true t ->
  url ∈ l -> Print [PStr "downloading"; PStr url] ∈ t.
Proof.
  assert (Hgen : forall ok,
    loop_trace tmp_dir s3_bucket prefix l ok t -> ok = true ->
    url ∈ l -> Print [PStr "downloading"; PStr url] ∈ t).
  { induction 1 as [|u rest status ok t _ IH| |];
      intros Hok Hin; try discriminate.
    - inversion Hin.
    - apply elem_of_app. apply elem_of_cons in Hin as [->|Hin].
      + left. unfold transfer_block.
        apply elem_of_cons. right. apply elem_of_cons. left. reflexivity.
      + right. apply (IH Hok Hin). }
  intros H. apply (Hgen true H). reflexivity.
Qed.

Lemma loop_trace_no_listing tmp_dir s3_bucket prefix l ok t :
  loop_trace tmp_dir s3_bucket prefix l ok t ->
  Forall (fun e => is_s3list e = false) t.
Proof.
  induction 1 as [|u rest status ok t _ IH| |].
  - constructor.
  - apply Forall_app. split; [repeat constructor | exact IH].
  - repeat constructor.
  - repeat constructor.
Qed.

(** *** The skip set of the pipeline *)

Lemma s3_skip_urls_spec urls prefix response url :
  url ∈ s3_skip_urls urls prefix response <->
  url ∈ urls /\ object_key prefix url ∈ listed_keys response.
Proof.
  unfold s3_skip_urls, listed_keys, object_key.
  destruct (Contents response) as [contents|].
  - rewrite elem_of_list_to_set, list_elem_of_filter, elem_of_list_to_set.
    apply and_comm.
  - split; [intros H; inversion H|].
    intros [_ H]. inversion H.
Qed.

Lemma s3_skip_urls_no_contents urls prefix response :
  Contents response = None -> s3_skip_urls urls prefix response = ∅.
Proof. unfold s3_skip_urls. intros ->. reflexivity. Qed.

(** C6.  In [download_files_to_s3] with [skip_existing] set, once the
    listing of the bucket under the prefix has answered, a URL is in the
    skip set exactly when it is a URL of the input and the key
    [os.path.join(prefix, basename(url))] is among the keys of the answer;
    an answer without ['Contents'] gives the empty skip set.  The transfer
    loop works through the remaining URLs only: no skipped URL is
    downloaded, and a call that returns normally has downloaded every
    other URL.  With [skip_existing] unset the bucket is not listed and
    the loop works through all the URLs. *)
Theorem download_files_to_s3_skips urls s3_bucket prefix w w1 tmp_dir :
  mkdtemp w = (w1, inr tmp_dir) ->
  (forall response,
     list_objects_v2 (s3 w) s3_bucket prefix = inr response ->
     let skip_urls := s3_skip_urls urls prefix response in
     let r := download_files_to_s3 fetch urls s3_bucket prefix true w in
     (forall url,
        url ∈ skip_urls <->
        url ∈ urls /\ object_key prefix url ∈ listed_keys response)
     /\ (Contents response = None -> skip_urls = ∅)
     /\ exists t,
          log r.1 =
          log w ++ s3_preamble urls tmp_dir s3_bucket prefix true skip_urls
          ++ t ++ (if returned r.2 then done_lines else [])
          /\ loop_trace tmp_dir s3_bucket prefix (remaining urls skip_urls)
               (returned r.2) t
          /\ (forall url, url ∈ skip_urls ->
                Print [PStr "downloading"; PStr url] ∉ t)
          /\ (returned r.2 = true ->
              forall url, url ∈ urls -> url ∉ skip_urls ->
                Print [PStr "downloading"; PStr url] ∈ t))
  /\ (let r := download_files_to_s3 fetch urls s3_bucket prefix false w in
      exists t,
        log r.1 =
        log w ++ s3_header urls tmp_dir ++ t
        ++ (if returned r.2 then done_lines else [])
        /\ loop_trace tmp_dir s3_bucket prefix urls (returned r.2) t
        /\ Forall (fun e => is_s3list e = false)
                  (s3_header urls tmp_dir ++ t ++ done_lines)).
Proof.
  intros Hm. split.
  - intros response Hlist. cbv zeta.
    split; [intros url; apply s3_skip_urls_spec|].
    split; [apply s3_skip_urls_no_contents|].
    pose proof (download_files_to_s3_trace urls s3_bucket prefix true
                  w w1 tmp_dir Hm) as H.
    cbv zeta in H. rewrite Hlist in H. destruct H as (t & Htr & Hlog).
    exists t. split; [|split; [exact Htr|split]].
    + rewrite Hlog. unfold s3_preamble. rewrite <- !app_assoc. reflexivity.
    + intros url Hskip Hin.
      apply (loop_trace_announces _ _ _ _ _ _ _ Htr) in Hin.
      apply remaining_spec in Hin as [_ Hn]. contradiction.
    + intros Hret url Hin Hn. rewrite Hret in Htr.
      apply (loop_trace_complete _ _ _ _ _ _ Htr).
      apply remaining_spec. split; assumption.
  - cbv zeta.
    pose proof (download_files_to_s3_trace urls s3_bucket prefix false
                  w w1 tmp_dir Hm) as H.
    cbv zeta in H. destruct H as (t & Htr & Hlog).
    exists t. split; [exact Hlog|]. split; [exact Htr|].
    rewrite !Forall_app. split; [repeat constructor|].
    split; [|repeat constructor].
    eapply loop_trace_no_listing, Htr.
Qed.


(** The scratch directory of [download_files_to_s3] is gone after the
    call, however the call ends. *)
Lemma download_files_to_s3_releases_scratch urls s3_bucket prefix
  skip_existing w w1 tmp_dir :
  mkdtemp w = (w1, inr tmp_dir) ->
  forall q, under tmp_dir q = true ->
    (q ∉ dirs (download_files_to_s3 fetch urls s3_bucket prefix
                 skip_existing w).1)
    /\ files (download_files_to_s3 fetch urls s3_bucket prefix
                skip_existing w).1 !! q = None.
Proof.
  intros Hm. unfold download_files_to_s3.
  match goal with
  | |- context [with_TemporaryDirectory ?b w] =>
      pose proof (with_TemporaryDirectory_releases b w) as Hrel
  end.
  rewrite Hm in Hrel. destruct Hrel as [_ Hrel]. exact Hrel.
Qed.

(** *** [os.makedirs] terminates

    The recursion of [makedirs] is on the head of the path, which is
    shorter than the path; the fuel [makedirs] starts with is never used
    up. *)

Lemma mkdir_no_overflow path w : (mkdir path w).2 <> inl RecursionError.
Proof.
  rewrite mkdir_run.
  repeat match goal with
         | |- context [if ?b then _ else _] => destruct b
         end; discriminate.
Qed.

Lemma makedirs_rec_no_overflow fuel : forall name exist_ok w,
  String.length name < fuel ->
  (makedirs_rec fuel name exist_ok w).2 <> inl RecursionError.
Proof.
  induction fuel as [|fuel IH]; intros name exist_ok w Hlen; [lia|].
  cbn [makedirs_rec].
  pose proof (split_length name) as Hn.
  destruct (Path.split name) as [head tail]. cbn [fst snd] in Hn.
  assert (Hh : forall head' tail',
    (if Str.is_empty tail then Path.split head else (head, tail))
    = (head', tail') ->
    Str.is_empty tail' = false -> String.length head' < fuel).
  { intros head' tail' Heq Hne. apply is_empty_length in Hne.
    destruct (Str.is_empty tail).
    - pose proof (split_length head) as Hs. rewrite Heq in Hs.
      cbn [fst snd] in Hs. lia.
    - injection Heq as <- <-. lia. }
  destruct (if Str.is_empty tail then Path.split head else (head, tail))
    as [head' tail'].
  specialize (Hh head' tail' eq_refl).
  rewrite bind_get, bind_run.
  assert (Hlast : forall w',
    (try_except (mkdir name)
       (fun e => bind get (fun w0 =>
          if negb exist_ok || negb (path_isdir w0 name) then raise e
          else ret tt)) w').2 <> inl RecursionError).
  { intros w'. unfold try_except.
    pose proof (mkdir_no_overflow name w') as Hm.
    destruct (mkdir name w') as [w2 [e|[]]]; cbn [snd] in *; [|discriminate].
    rewrite bind_get.
    destruct (negb exist_ok || negb (path_isdir w2 name));
      [exact Hm | discriminate]. }
  destruct (negb (Str.is_empty head') && negb (Str.is_empty tail')
            && negb (path_exists w head')) eqn:Hc.
  - apply andb_true_iff in Hc as [Hc _].
    apply andb_true_iff in Hc as [_ Hc]. apply negb_true_iff in Hc.
    rewrite bind_run. unfold try_except.
    pose proof (IH head' exist_ok w (Hh Hc)) as Hrec.
    destruct (makedirs_rec fuel head' exist_ok w) as [w1 [e|[]]];
      cbn [snd] in Hrec.
    + destruct e; cbn [is_FileExistsError fst snd raise ret];
        try discriminate; try congruence.
      destruct (bool_decide (tail' = ".")); [discriminate|]. apply Hlast.
    + cbn [ret]. destruct (bool_decide (tail' = ".")); [discriminate|].
      apply Hlast.
  - cbn [ret]. apply Hlast.
Qed.

Lemma makedirs_no_overflow name exist_ok w :
  (makedirs name exist_ok w).2 <> inl RecursionError.
Proof. apply makedirs_rec_no_overflow. lia. Qed.

(** ** Further properties of the module *)

(** *** Computations that only add directories *)

Lemma grows_refl w : grows w w.
Proof. split; [reflexivity|]. split; [reflexivity|apply quiet_refl]. Qed.

Lemma grows_trans w1 w2 w3 : grows w1 w2 -> grows w2 w3 -> grows w1 w3.
Proof.
  intros (F1 & D1 & Q1) (F2 & D2 & Q2). split; [congruence|].
  split; [etransitivity; eassumption | eapply quiet_trans; eassumption].
Qed.

Lemma Grows_ret {A} (a : A) : Grows (S := S) (ret a).
Proof. intros w. apply grows_refl. Qed.

Lemma Grows_raise {A} (e : exn) : Grows (S := S) (raise (A := A) e).
Proof. intros w. apply grows_refl. Qed.

Lemma Grows_get : Grows (S := S) get.
Proof. intros w. apply grows_refl. Qed.

Lemma Grows_bind {A B} (m : M S A) (k : A -> M S B) :
  Grows m -> (forall a, Grows (k a)) -> Grows (bind m k).
Proof.
  intros Hm Hk w. unfold bind.
  specialize (Hm w). destruct (m w) as [w1 [e|a]]; cbn [fst] in *.
  - exact Hm.
  - eapply grows_trans; [exact Hm | apply Hk].
Qed.

Lemma Grows_try_except {A} (m : M S A) (h : exn -> M S A) :
  Grows m -> (forall e, Grows (h e)) -> Grows (try_except m h).
Proof.
  intros Hm Hh w. unfold try_except.
  specialize (Hm w). destruct (m w) as [w1 [e|a]]; cbn [fst] in *.
  - eapply grows_trans; [exact Hm | apply Hh].
  - exact Hm.
Qed.

Lemma Grows_if {A} (b : bool) (m1 m2 : M S A) :
  Grows m1 -> Grows m2 -> Grows (if b then m1 else m2).
Proof. destruct b; intros; assumption. Qed.

Lemma Grows_mkdir path : Grows (S := S) (mkdir path).
Proof.
  intros w. rewrite mkdir_run.
  repeat match goal with
         | |- context [if ?b then _ else _] => destruct b
         end; try apply grows_refl.
  cbn [fst]. split; [reflexivity|]. split; [|repeat split].
  cbn [dirs set_fs]. apply union_subseteq_r.
Qed.

Lemma Grows_makedirs_rec fuel : forall name exist_ok,
  Grows (S := S) (makedirs_rec fuel name exist_ok).
Proof.
  induction fuel as [|fuel IH]; intros name exist_ok.
  - apply Grows_raise.
  - cbn [makedirs_rec].
    destruct (Path.split name) as [head tail].
    destruct (if Str.is_empty tail then Path.split head else (head, tail))
      as [head' tail'].
    apply Grows_bind; [apply Grows_get|]. intros w.
    apply Grows_bind.
    + apply Grows_if; [|apply Grows_ret].
      apply Grows_bind; [|intros; apply Grows_ret].
      apply Grows_try_except; [apply IH|].
      intros e. apply Grows_if; [apply Grows_ret | apply Grows_raise].
    + intros stop. apply Grows_if; [apply Grows_ret|].
      apply Grows_try_except; [apply Grows_mkdir|].
      intros e. apply Grows_bind; [apply Grows_get|]. intros w'.
      apply Grows_if; [apply Grows_raise | apply Grows_ret].
Qed.

Lemma Grows_makedirs name exist_ok : Grows (S := S) (makedirs name exist_ok).
Proof. apply Grows_makedirs_rec. Qed.

(** *** The single-file downloader *)

Lemma dirname_no_sep path : Str.has_sep path = false -> Path.dirname path = "".
Proof. intros H. unfold Path.dirname. rewrite (split_no_sep _ H). reflexivity. Qed.

(** X1.  A destination without a directory part is refused like an omitted
    one: for any bare file name handed as [output_path], [download_file]
    raises [FileNotFoundError] at [os.makedirs('')], having printed its two
    lines and nothing else; [curl] is not run. *)
Theorem download_file_bare_name_raises url path w :
  Str.has_sep path = false ->
  download_file fetch url (Some path) w =
  (announced url w, inl (FileNotFoundError "")).
Proof.
  intros H. rewrite download_file_path, (dirname_no_sep _ H), makedirs_empty.
  reflexivity.
Qed.

Lemma curl_outcome_cases url path w :
  ((curl_outcome fetch url path w).1 = w
   /\ (curl_outcome fetch url path w).2 <> 0%Z)
  \/ (exists body,
        fetch url = Fetched body
        /\ (curl_outcome fetch url path w).2 = 0%Z
        /\ (curl_outcome fetch url path w).1 =
           set_fs (dirs w) (<[ abspath w path := body ]> (files w)) w).
Proof.
  unfold curl_outcome. destruct (fetch url) as [body|code].
  - rewrite write_file_run.
    repeat match goal with
           | |- context [if ?b then _ else _] => destruct b
           end; cbn [fst snd];
      try (left; split; [reflexivity|discriminate]).
    right. exists body. repeat split.
  - left. cbn [fst snd]. split; [reflexivity|discriminate].
Qed.



(** *** The batch downloader *)

(** X3.  [download_files] never runs [curl]: whatever the URLs, the
    output directory and [skip_existing], the call leaves the files, the
    directories and the bucket as they were and logs no run of an
    external program. *)
Theorem download_files_changes_nothing urls output_dir skip_existing w :
  let r := download_files fetch urls output_dir skip_existing w in
  files r.1 = files w /\ dirs r.1 = dirs w /\ s3 r.1 = s3 w
  /\ exists t, log r.1 = log w ++ t /\ Forall (fun e => is_call e = false) t.
Proof.
  cbv zeta.
  destruct (download_files_fetches_nothing urls output_dir skip_existing w)
    as (t & -> & Ht).
  repeat split. exists t. split; [reflexivity|exact Ht].
Qed.

Lemma remaining_nil urls (skip_urls : gset string) :
  remaining urls skip_urls = [] <-> forall url, url ∈ urls -> url ∈ skip_urls.
Proof.
  split.
  - intros Hnil url Hin. destruct (decide (url ∈ skip_urls)) as [|Hn];
      [assumption|].
    assert (Hr : url ∈ remaining urls skip_urls)
      by (apply remaining_spec; split; assumption).
    rewrite Hnil in Hr. inversion Hr.
  - intros Hall. apply elem_of_nil_inv. intros url Hr.
    apply remaining_spec in Hr as [Hin Hn]. apply Hn, Hall, Hin.
Qed.

(** X4.  [download_files] returns normally only when it has nothing to
    download: with [skip_existing] unset, exactly for the empty list of
    URLs; with [skip_existing] set and a directory that can be listed,
    exactly when the base name of every URL is in the listing.  Otherwise
    it raises, and what it raises is the [FileNotFoundError] of
    [download_file] or the exception of the listing. *)
Theorem download_files_returns_iff urls output_dir w :
  let d := resolved_output_dir w output_dir in
  (returned (download_files fetch urls output_dir false w).2 = true
   <-> urls = [])
  /\ (forall names, listing d w = inr names ->
        (returned (download_files fetch urls output_dir true w).2 = true
         <-> forall url, url ∈ urls -> Path.basename url ∈ names))
  /\ (forall skip_existing e,
        (download_files fetch urls output_dir skip_existing w).2 = inl e ->
        e = FileNotFoundError ""
        \/ (skip_existing = true /\ listing d w = inl e)).
Proof.
  cbv zeta. split; [|split].
  - rewrite download_files_unconditional. cbv zeta.
    destruct urls as [|url rest]; cbn [snd returned].
    + split; reflexivity.
    + split; discriminate.
  - intros names Hl. rewrite (download_files_listed _ _ _ names Hl).
    cbv zeta.
    pose proof (remaining_nil urls (present_urls urls names)) as Hnil.
    destruct (remaining urls (present_urls urls names)) as [|url rest];
      cbn [snd returned].
    + split; [intros _|reflexivity]. intros url Hin.
      apply (proj1 Hnil eq_refl), present_urls_spec in Hin. apply Hin.
    + split; [discriminate|]. intros Hall.
      assert (Hn : url :: rest = []); [|discriminate].
      apply Hnil. intros u Hu. apply present_urls_spec.
      split; [exact Hu|apply Hall, Hu].
  - intros [|] e.
    + destruct (listing (resolved_output_dir w output_dir) w)
        as [e'|names] eqn:Hl.
      * destruct urls as [|url rest].
        -- rewrite download_files_no_urls. discriminate.
        -- rewrite (download_files_unlisted _ _ _ _ e' Hl). cbn [snd].
           intros [= <-]. right. split; reflexivity.
      * rewrite (download_files_listed _ _ _ names Hl). cbv zeta.
        destruct (remaining urls (present_urls urls names));
          cbn [snd]; [discriminate|].
        intros [= <-]. left. reflexivity.
    + rewrite download_files_unconditional. cbv zeta.
      destruct urls; cbn [snd]; [discriminate|].
      intros [= <-]. left. reflexivity.
Qed.

Lemma size_list_to_set_le (l : list string) :
  size (list_to_set l : gset string) <= length l.
Proof.
  induction l as [|a l IH]; [cbn; rewrite size_empty; lia|].
  cbn [list_to_set length]. rewrite size_union_alt, size_singleton.
  assert (size (list_to_set l ∖ {[ a ]} : gset string)
          <= size (list_to_set l : gset string)).
  { apply subseteq_size, subseteq_difference_l. reflexivity. }
  lia.
Qed.

Lemma present_urls_size urls names :
  size (present_urls urls names) <= length urls.
Proof.
  unfold present_urls. etransitivity; [apply size_list_to_set_le|].
  apply length_filter.
Qed.

(** X5.  With [skip_existing] set and a directory that can be listed,
    [download_files] lists the directory once for every URL of the input,
    skips exactly the URLs of the input whose base name is in the listing,
    reports their number (distinct URLs, and only when there is one), and
    then hands the first URL that is left to [download_file]; when none is
    left it prints [done]. *)
Theorem download_files_skip_report urls output_dir w names :
  let d := resolved_output_dir w output_dir in
  let r := download_files fetch urls output_dir true w in
  let skip_urls := present_urls urls names in
  listing d w = inr names ->
  log r.1 =
  log w ++ download_files_header urls d
  ++ replicate (length urls) (Listdir d)
  ++ skipping_lines skip_urls
  ++ match remaining urls skip_urls with
     | [] => done_lines
     | url :: _ => [Print []; Print [PStr "downloading"; PStr url]]
     end
  /\ (forall url, url ∈ skip_urls <->
                  url ∈ urls /\ Path.basename url ∈ names)
  /\ (forall url, url ∈ remaining urls skip_urls <->
                  url ∈ urls /\ Path.basename url ∉ names)
  /\ size skip_urls <= length urls.
Proof.
  cbv zeta. intros Hl. rewrite (download_files_listed _ _ _ names Hl).
  cbv zeta. split; [|split; [|split]].
  - destruct (remaining urls (present_urls urls names)); cbn [fst].
    + rewrite append_log_app. cbn [log append_log].
      rewrite <- !app_assoc. reflexivity.
    + rewrite announced_append, append_log_app. cbn [log append_log].
      rewrite <- !app_assoc. reflexivity.
  - intros url. apply present_urls_spec.
  - intros url. rewrite remaining_spec, present_urls_spec.
    split.
    + intros [Hin Hn]. split; [exact Hin|]. intros Hb. apply Hn.
      split; assumption.
    + intros [Hin Hn]. split; [exact Hin|]. intros [_ Hb]. contradiction.
  - apply present_urls_size.
Qed.

(** *** The download-then-upload pipeline *)

(** the call, cut into its stages *)
Lemma download_files_to_s3_run urls s3_bucket prefix skip_existing
  w w1 tmp_dir :
  mkdtemp w = (w1, inr tmp_dir) ->
  download_files_to_s3 fetch urls s3_bucket prefix skip_existing w =
  match s3_skip_decision urls s3_bucket prefix skip_existing w with
  | inl e =>
      (rmtree tmp_dir
         (append_log (s3_header urls tmp_dir ++ [S3List s3_bucket prefix]) w1),
       inl e)
  | inr skip_urls =>
      match for_each urls
              (fun url => if bool_decide (url ∉ skip_urls)
                          then transfer fetch tmp_dir s3_bucket prefix url
                          else ret tt)
              (append_log (s3_preamble urls tmp_dir s3_bucket prefix
                             skip_existing skip_urls) w1) with
      | (w3, inl e) => (rmtree tmp_dir w3, inl e)
      | (w3, inr _) => (rmtree tmp_dir (append_log done_lines w3), inr tt)
      end
  end.
Proof.
  intros Hm. unfold download_files_to_s3, s3_skip_decision, s3_preamble.
  unfold transfer, scratch_path, object_key.
  match goal with
  | |- context [with_TemporaryDirectory ?b w] =>
      pose proof (with_TemporaryDirectory_releases b w) as Hrel;
      set (body := b) in *
  end.
  rewrite Hm in Hrel. destruct Hrel as [-> _].
  destruct (Quiet_mkdtemp w) as (_ & Hs3 & _).
  rewrite Hm in Hs3. cbn [fst] in Hs3. rewrite <- Hs3. clear Hm Hs3.
  subst body. cbv beta.
  rewrite !bind_print, !append_log_app. cbn [app].
  fold (s3_header urls tmp_dir).
  destruct skip_existing.
  - unfold s3_list_objects_v2.
    destruct (list_objects_v2 (s3 w1) s3_bucket prefix) as [e|response]
      eqn:Hlist;
      rewrite !bind_assoc, bind_emit; cbv beta;
      rewrite !bind_assoc, bind_get;
      change (s3 (append_log _ (append_log _ w1))) with (s3 w1);
      rewrite Hlist.
    + rewrite bind_raise, append_log_app. reflexivity.
    + rewrite bind_ret, bind_assoc, print_skipping_run, bind_ret.
      rewrite !append_log_app, bind_run.
      change ([S3List s3_bucket prefix]
              ++ skipping_lines (s3_skip_urls urls prefix response))
        with (S3List s3_bucket prefix
              :: skipping_lines (s3_skip_urls urls prefix response)).
      match goal with
      | |- context [for_each urls ?b ?x] =>
          destruct (for_each urls b x) as [w3 [e|[]]]
      end; cbn [fst snd]; [reflexivity|].
      rewrite done_run. reflexivity.
  - rewrite bind_ret, app_nil_r, bind_run.
    match goal with
    | |- context [for_each urls ?b ?x] =>
        destruct (for_each urls b x) as [w3 [e|[]]]
    end; cbn [fst snd]; [reflexivity|].
    rewrite done_run. reflexivity.
Qed.

(** One turn of the transfer loop, by what it leaves behind: only the
    scratch file can differ afterwards; a turn that returns has stored one
    object, the body fetched from the URL or, when [curl] wrote nothing,
    what was already at the scratch path, and has removed the scratch
    file; a turn that raises has left the bucket alone. *)
Lemma transfer_effect tmp_dir s3_bucket prefix url w :
  let q := abspath w (scratch_path tmp_dir url) in
  let r := transfer fetch tmp_dir s3_bucket prefix url w in
  cwd r.1 = cwd w
  /\ dirs w ⊆ dirs r.1
  /\ (forall q', q' <> q -> files r.1 !! q' = files w !! q')
  /\ ((r.2 = inr tt
       /\ files r.1 !! q = None
       /\ exists body,
            put_object (s3 w) body s3_bucket (object_key prefix url)
            = inr (s3 r.1)
            /\ (fetch url = Fetched body \/ files w !! q = Some body))
      \/ (returned r.2 = false /\ s3 r.1 = s3 w)).
Proof.
  cbv zeta. unfold transfer. rewrite bind_run, download_file_path.
  set (lp := scratch_path tmp_dir url).
  set (key := object_key prefix url).
  pose proof (Grows_makedirs (Path.dirname lp) true (announced url w))
    as (Hf & Hd & _ & Hs & Hc & _).
  change (files (announced url w)) with (files w) in Hf.
  change (dirs (announced url w)) with (dirs w) in Hd.
  change (s3 (announced url w)) with (s3 w) in Hs.
  change (cwd (announced url w)) with (cwd w) in Hc.
  destruct (makedirs (Path.dirname lp) true (announced url w))
    as [w1 [e|[]]]; cbn [fst snd] in *.
  { rewrite Hf. repeat split; try assumption.
    right. split; [reflexivity|exact Hs]. }
  assert (Ha : abspath w1 lp = abspath w lp)
    by (unfold abspath; rewrite Hc; reflexivity).
  set (status := (curl_outcome fetch url lp w1).2).
  assert (Hcurl : exists wc0,
    (curl_outcome fetch url lp w1).1 = wc0
    /\ cwd wc0 = cwd w /\ dirs wc0 = dirs w1 /\ s3 wc0 = s3 w
    /\ (forall q', q' <> abspath w lp -> files wc0 !! q' = files w !! q')
    /\ (files wc0 !! abspath w lp = files w !! abspath w lp
        \/ exists body, fetch url = Fetched body
                        /\ files wc0 !! abspath w lp = Some body)).
  { destruct (curl_outcome_cases url lp w1)
      as [[-> _] | (body & Hb & _ & ->)]; eexists; (split; [reflexivity|]).
    - rewrite Hf. repeat split; try assumption. left. reflexivity.
    - cbn [cwd dirs s3 files set_fs]. rewrite Ha, Hf.
      repeat split; try assumption.
      + intros q' Hq'. apply lookup_insert_ne. congruence.
      + right. exists body. split; [exact Hb|apply lookup_insert_eq]. }
  destruct Hcurl as (wc0 & -> & Hc0 & Hd0 & Hs0 & Hother & Hat).
  clearbody status. clear Hf Ha.
  rewrite bind_run, s3_upload_file_run. cbv zeta.
  set (wc := add_log (Call ["curl"; url; "--output"; lp] status) wc0).
  assert (Hac : abspath wc lp = abspath w lp)
    by (unfold abspath; cbn [cwd add_log wc]; rewrite Hc0; reflexivity).
  destruct (read_file lp wc) as [w2 [e|body]] eqn:Hr.
  { cbn [fst snd cwd dirs files s3 append_log add_log wc returned].
    rewrite Hd0. repeat split; try assumption.
    right. split; [reflexivity|exact Hs0]. }
  change (s3 wc) with (s3 wc0). rewrite Hs0.
  destruct (put_object (s3 w) body s3_bucket key) as [e|s'] eqn:Hp.
  { cbn [fst snd cwd dirs files s3 append_log add_log wc returned].
    rewrite Hd0. repeat split; try assumption.
    right. split; [reflexivity|exact Hs0]. }
  rewrite (remove_after_read lp wc w2 _ body Hr) by reflexivity.
  apply read_file_ok in Hr as (_ & _ & Hb).
  rewrite Hac in Hb. change (files wc) with (files wc0) in Hb.
  cbn [fst snd cwd dirs files s3 set_fs set_s3 append_log add_log wc].
  change (abspath (set_s3 s' (append_log [S3Upload lp s3_bucket key] wc)) lp)
    with (abspath wc lp).
  rewrite Hac, Hd0.
  split; [exact Hc0|]. split; [exact Hd|]. split.
  - intros q' Hq'. rewrite lookup_delete_ne by congruence. apply Hother, Hq'.
  - left. split; [reflexivity|]. split; [apply lookup_delete_eq|].
    exists body. split; [exact Hp|].
    destruct Hat as [Hsame | (body' & Hfetch & Hbody')].
    + right. rewrite <- Hsame. exact Hb.
    + left. rewrite Hb in Hbody'. injection Hbody' as ->. exact Hfetch.
Qed.

Lemma s3_loop_stores tmp_dir s3_bucket prefix (skip_urls : gset string) urls :
  forall w,
  (forall url, url ∈ urls ->
     files w !! abspath w (scratch_path tmp_dir url) = None) ->
  let r := for_each urls
             (fun url => if bool_decide (url ∉ skip_urls)
                         then transfer fetch tmp_dir s3_bucket prefix url
                         else ret tt) w in
  exists done,
    done `prefix_of` remaining urls skip_urls
    /\ (returned r.2 = true -> done = remaining urls skip_urls)
    /\ stores fetch s3_bucket prefix (s3 w) done (s3 r.1).
Proof.
  unfold remaining.
  induction urls as [|u urls IH]; intros w Hfresh; cbv zeta.
  - exists []. split; [reflexivity|]. split; [reflexivity|constructor].
  - cbn [for_each]. rewrite bind_run, filter_cons.
    destruct (decide (u ∉ skip_urls)) as [Hu|Hu].
    + rewrite bool_decide_eq_true_2 by exact Hu.
      destruct (transfer_effect tmp_dir s3_bucket prefix u w)
        as (Hc & _ & Hother & Hcase).
      destruct Hcase as [(Hr & Hgone & body & Hput & Hbody) | (Hr & Hs)].
      * destruct (transfer fetch tmp_dir s3_bucket prefix u w)
          as [w1 [e|[]]]; cbn [fst snd] in *; [discriminate|].
        destruct Hbody as [Hfetch|Hstale];
          [|rewrite Hfresh in Hstale by (apply elem_of_cons; left; reflexivity);
            discriminate].
        destruct (IH w1) as (done & Hpre & Hall & Hst).
        { intros url Hin.
          assert (Ha : abspath w1 (scratch_path tmp_dir url)
                       = abspath w (scratch_path tmp_dir url))
            by (unfold abspath; rewrite Hc; reflexivity).
          rewrite Ha.
          destruct (decide (abspath w (scratch_path tmp_dir url)
                            = abspath w (scratch_path tmp_dir u))) as [Heq|Hne].
          - rewrite Heq. exact Hgone.
          - rewrite (Hother _ Hne). apply Hfresh, elem_of_cons. right.
            exact Hin. }
        exists (u :: done). split; [apply prefix_cons, Hpre|].
        split; [intros Hret; rewrite (Hall Hret); reflexivity|].
        econstructor; eassumption.
      * destruct (transfer fetch tmp_dir s3_bucket prefix u w)
          as [w1 [e|[]]]; cbn [fst snd returned] in *; [|discriminate].
        exists []. split; [apply prefix_nil|].
        split; [discriminate|]. rewrite Hs. constructor.
    + rewrite bool_decide_eq_false_2 by exact Hu. unfold ret at 1.
      apply IH. intros url Hin. apply Hfresh, elem_of_cons. right. exact Hin.
Qed.


(** X7.  When the bucket cannot be listed, [download_files_to_s3] with
    [skip_existing] set raises the exception of the listing: it has
    printed its header and asked for the listing, and has fetched, stored
    and removed nothing; the bucket and the local files are as before. *)
Theorem download_files_to_s3_listing_fails urls s3_bucket prefix
  w w1 tmp_dir e :
  mkdtemp w = (w1, inr tmp_dir) ->
  list_objects_v2 (s3 w) s3_bucket prefix = inl e ->
  let r := download_files_to_s3 fetch urls s3_bucket prefix true w in
  r.2 = inl e
  /\ log r.1 = log w ++ s3_header urls tmp_dir ++ [S3List s3_bucket prefix]
  /\ s3 r.1 = s3 w
  /\ forall q, under tmp_dir q = false -> files r.1 !! q = files w !! q.
Proof.
  intros Hm Hl. cbv zeta.
  rewrite (download_files_to_s3_run _ _ _ _ _ _ _ Hm).
  unfold s3_skip_decision. rewrite Hl. cbn [fst snd].
  destruct (Quiet_mkdtemp w) as (Hlog & Hs3 & _).
  destruct (mkdtemp_ok _ _ _ Hm) as (_ & Hf & _).
  rewrite Hm in Hlog, Hs3. cbn [fst] in Hlog, Hs3.
  split; [reflexivity|].
  unfold rmtree. cbn [log s3 files set_fs append_log].
  rewrite Hlog, Hs3, Hf. split; [reflexivity|]. split; [reflexivity|].
  intros q Hq. destruct (files w !! q) as [v|] eqn:Hv.
  - apply map_lookup_filter_Some. split; [exact Hv|exact Hq].
  - apply map_lookup_filter_None. left. exact Hv.
Qed.

(** X8.  With no URL, [download_files_to_s3] still creates and removes its
    scratch directory and, with [skip_existing] set, still lists the
    bucket; it then returns normally, with nothing fetched or stored. *)
Theorem download_files_to_s3_no_urls s3_bucket prefix skip_existing
  w w1 tmp_dir skip_urls :
  mkdtemp w = (w1, inr tmp_dir) ->
  s3_skip_decision [] s3_bucket prefix skip_existing w = inr skip_urls ->
  let r := download_files_to_s3 fetch [] s3_bucket prefix skip_existing w in
  r.2 = inr tt
  /\ skip_urls = ∅
  /\ log r.1 =
     log w ++ s3_header [] tmp_dir
     ++ (if skip_existing then [S3List s3_bucket prefix] else [])
     ++ done_lines
  /\ s3 r.1 = s3 w
  /\ tmp_dir ∉ dirs r.1.
Proof.
  intros Hm Hskip. cbv zeta.
  assert (Hempty : skip_urls = ∅).
  { unfold s3_skip_decision in Hskip. destruct skip_existing.
    - destruct (list_objects_v2 (s3 w) s3_bucket prefix) as [e|response];
        [discriminate|].
      injection Hskip as <-. unfold s3_skip_urls.
      destruct (Contents response); reflexivity.
    - injection Hskip as <-. reflexivity. }
  rewrite (download_files_to_s3_run _ _ _ _ _ _ _ Hm), Hskip.
  cbn [for_each ret fst snd].
  destruct (Quiet_mkdtemp w) as (Hlog & Hs3 & _).
  rewrite Hm in Hlog, Hs3. cbn [fst] in Hlog, Hs3.
  split; [reflexivity|]. split; [exact Hempty|].
  split; [|split].
  - unfold rmtree, s3_preamble. cbn [log set_fs append_log].
    rewrite Hlog, Hempty, skipping_lines_empty.
    destruct skip_existing; rewrite <- !app_assoc; reflexivity.
  - unfold rmtree. cbn [s3 set_fs append_log]. exact Hs3.
  - apply rmtree_gone, under_refl.
Qed.

Lemma loop_trace_blocks_only tmp_dir s3_bucket prefix l ok t e :
  loop_trace tmp_dir s3_bucket prefix l ok t ->
  e ∈ t ->
  exists url status,
    url ∈ l /\ e ∈ transfer_block tmp_dir s3_bucket prefix url status.
Proof.
  induction 1 as [|u rest status ok t _ IH|u rest|u rest status]; intros Hin.
  - inversion Hin.
  - apply elem_of_app in Hin as [Hin|Hin].
    + exists u, status. split; [apply elem_of_cons; left; reflexivity|exact Hin].
    + destruct (IH Hin) as (url & st & Hu & He).
      exists url, st. split; [apply elem_of_cons; right; exact Hu|exact He].
  - exists u, 0%Z. split; [apply elem_of_cons; left; reflexivity|].
    unfold transfer_block.
    apply elem_of_cons in Hin as [->|Hin]; [apply elem_of_cons; left; reflexivity|].
    apply elem_of_cons in Hin as [->|Hin]; [|inversion Hin].
    apply elem_of_cons. right. apply elem_of_cons. left. reflexivity.
  - exists u, status. split; [apply elem_of_cons; left; reflexivity|].
    apply elem_of_take in Hin as (i & Hi & _).
    eapply list_elem_of_lookup_2, Hi.
Qed.

(** X9.  What [download_files_to_s3] operates on.  Every run of [curl],
    every upload and every removal the call logs is for a URL of the input
    that is not skipped: the fetch goes to the scratch path of that URL,
    the upload takes that scratch path to the bucket handed to the call,
    under the key of that URL, and the removal is of that scratch path.
    Nothing is fetched for a skipped URL, nothing is stored in another
    bucket or under another key, and no other file is removed. *)
Theorem download_files_to_s3_scope urls s3_bucket prefix skip_existing
  w w1 tmp_dir skip_urls :
  mkdtemp w = (w1, inr tmp_dir) ->
  s3_skip_decision urls s3_bucket prefix skip_existing w = inr skip_urls ->
  let r := download_files_to_s3 fetch urls s3_bucket prefix skip_existing w in
  exists t,
    log r.1 = log w ++ t
    /\ (forall argv status, Call argv status ∈ t ->
          exists url, url ∈ urls /\ (url ∉ skip_urls)
            /\ argv = ["curl"; url; "--output"; scratch_path tmp_dir url])
    /\ (forall local_path bucket key, S3Upload local_path bucket key ∈ t ->
          bucket = s3_bucket
          /\ exists url, url ∈ urls /\ (url ∉ skip_urls)
               /\ local_path = scratch_path tmp_dir url
               /\ key = object_key prefix url)
    /\ (forall path, Remove path ∈ t ->
          exists url, url ∈ urls /\ (url ∉ skip_urls)
            /\ path = scratch_path tmp_dir url).
Proof.
  intros Hm Hskip. cbv zeta.
  pose proof (download_files_to_s3_trace urls s3_bucket prefix skip_existing
                w w1 tmp_dir Hm) as H.
  cbv zeta in H. unfold s3_skip_decision in Hskip.
  assert (Hgen : exists pre post t,
    log (download_files_to_s3 fetch urls s3_bucket prefix skip_existing w).1
    = log w ++ pre ++ t ++ post
    /\ loop_trace tmp_dir s3_bucket prefix (remaining urls skip_urls)
         (returned (download_files_to_s3 fetch urls s3_bucket prefix
                      skip_existing w).2) t
    /\ Forall (fun e => match e with
                        | Print _ | S3List _ _ => True
                        | _ => False
                        end) (pre ++ post)).
  { destruct skip_existing.
    - destruct (list_objects_v2 (s3 w) s3_bucket prefix) as [e|response];
        [discriminate|].
      injection Hskip as <-. destruct H as (t & Htr & Hlog).
      exists (s3_header urls tmp_dir ++ [S3List s3_bucket prefix]
              ++ skipping_lines (s3_skip_urls urls prefix response)).
      eexists. exists t. split; [|split; [exact Htr|]].
      + rewrite Hlog, <- !app_assoc. reflexivity.
      + rewrite !Forall_app. unfold skipping_lines, done_lines.
        repeat split; try (repeat constructor);
          repeat match goal with
                 | |- context [if ?b then _ else _] => destruct b
                 end; repeat constructor.
    - injection Hskip as <-. destruct H as (t & Htr & Hlog).
      rewrite remaining_empty.
      exists (s3_header urls tmp_dir). eexists. exists t.
      split; [|split; [exact Htr|]].
      + rewrite Hlog. reflexivity.
      + rewrite !Forall_app. unfold done_lines.
        repeat split; try (repeat constructor);
          repeat match goal with
                 | |- context [if ?b then _ else _] => destruct b
                 end; repeat constructor. }
  destruct Hgen as (pre & post & t & Hlog & Htr & Hpp).
  apply Forall_app in Hpp as [Hpre Hpost].
  rewrite Forall_forall in Hpre, Hpost.
  assert (Hin : forall e, e ∈ pre ++ t ++ post ->
                          (match e with
                           | Print _ | S3List _ _ => True
                           | _ => False
                           end)
                          \/ exists url status,
                               url ∈ remaining urls skip_urls
                               /\ e ∈ transfer_block tmp_dir s3_bucket prefix
                                        url status).
  { intros e He. apply elem_of_app in He as [He|He];
      [left; apply Hpre, He|].
    apply elem_of_app in He as [He|He]; [|left; apply Hpost, He].
    right. eapply loop_trace_blocks_only; eassumption. }
  exists (pre ++ t ++ post). split; [exact Hlog|].
  split; [|split].
  - intros argv status He. destruct (Hin _ He) as [[]|(url & st & Hu & Hb)].
    apply remaining_spec in Hu as [Hu Hn]. exists url.
    split; [exact Hu|]. split; [exact Hn|].
    unfold transfer_block in Hb.
    repeat (apply elem_of_cons in Hb as [Hb|Hb]; [try discriminate|]);
      [|inversion Hb].
    injection Hb as -> _. reflexivity.
  - intros lp b k He. destruct (Hin _ He) as [[]|(url & st & Hu & Hb)].
    apply remaining_spec in Hu as [Hu Hn].
    unfold transfer_block in Hb.
    repeat (apply elem_of_cons in Hb as [Hb|Hb]; [try discriminate|]);
      [|inversion Hb].
    injection Hb as -> -> ->. split; [reflexivity|].
    exists url. repeat split; assumption.
  - intros p He. destruct (Hin _ He) as [[]|(url & st & Hu & Hb)].
    apply remaining_spec in Hu as [Hu Hn].
    unfold transfer_block in Hb.
    repeat (apply elem_of_cons in Hb as [Hb|Hb]; [try discriminate|]);
      [|inversion Hb].
    injection Hb as ->. exists url. repeat split; assumption.
Qed.

(** X10.  The scratch directory of [download_files_to_s3] never outlives
    the call: when it could be created, nothing is left at or below it,
    whether the call returns or raises; when it could not, the call raises
    that exception at once, with nothing printed and the directories and
    files as before. *)
Theorem download_files_to_s3_releases urls s3_bucket prefix skip_existing w :
  let r := download_files_to_s3 fetch urls s3_bucket prefix skip_existing w in
  match mkdtemp w with
  | (w1, inr tmp_dir) =>
      is_dir w tmp_dir = false
      /\ forall q, under tmp_dir q = true ->
           (q ∉ dirs r.1) /\ files r.1 !! q = None
  | (w1, inl e) =>
      r.2 = inl e /\ log r.1 = log w
      /\ dirs r.1 = dirs w /\ files r.1 = files w
  end.
Proof.
  cbv zeta. unfold download_files_to_s3.
  match goal with
  | |- context [with_TemporaryDirectory ?b w] =>
      pose proof (with_TemporaryDirectory_releases b w) as Hrel
  end.
  pose proof (Quiet_mkdtemp w) as (Hlog & _).
  destruct (mkdtemp w) as [w1 [e|tmp_dir]] eqn:Hm.
  - destruct Hrel as (-> & Hd & Hf). cbn [fst snd] in *.
    repeat split; assumption.
  - destruct Hrel as [_ Hrel].
    split; [|exact Hrel]. apply (mkdtemp_ok _ _ _ Hm).
Qed.

(** *** Hashing *)

Lemma get_file_hashes_nil w :
  get_file_hashes md5_hexdigest [] w = (w, inr []).
Proof. reflexivity. Qed.

(** X11.  [get_file_hashes] over two lists of paths one after the other:
    it raises what the first list raises, else what the second list
    raises, and else returns the hashes of the first list followed by
    those of the second.  In particular the first path that cannot be
    hashed decides the outcome, and no partial list is returned. *)
Theorem get_file_hashes_app (paths1 paths2 : list string) w :
  (get_file_hashes md5_hexdigest (paths1 ++ paths2) w).2 =
  match (get_file_hashes md5_hexdigest paths1 w).2 with
  | inl e => inl e
  | inr hashes1 =>
      match (get_file_hashes md5_hexdigest paths2 w).2 with
      | inl e => inl e
      | inr hashes2 => inr (hashes1 ++ hashes2)
      end
  end.
Proof.
  induction paths1 as [|p paths1 IH].
  - cbn [app]. rewrite get_file_hashes_nil.
    cbn [snd]. destruct (get_file_hashes md5_hexdigest paths2 w).2; reflexivity.
  - cbn [app]. rewrite !get_file_hashes_cons.
    destruct (get_file_hash md5_hexdigest p w) as [w1 [e|h]]; [reflexivity|].
    destruct (get_file_hashes md5_hexdigest (paths1 ++ paths2) w)
      as [w2 [e|hs]]; cbn [snd] in *;
      destruct (get_file_hashes md5_hexdigest paths1 w) as [w3 [e1|hs1]];
      cbn [snd] in *.
    + exact IH.
    + destruct (get_file_hashes md5_hexdigest paths2 w).2; congruence.
    + discriminate.
    + destruct (get_file_hashes md5_hexdigest paths2 w).2 as [e2|hs2];
        [discriminate|].
      injection IH as ->. reflexivity.
Qed.


(** *** The uploaders *)

Lemma upload_directory_quiet_until_call local_path bucket_path dir_files
  remove_deleted_files w e :
  (upload_directory rclone_status local_path bucket_path dir_files
     remove_deleted_files w).2 = inl e ->
  dir_files <> None
  /\ log (upload_directory rclone_status local_path bucket_path dir_files
            remove_deleted_files w).1
     = log w ++ upload_directory_header local_path bucket_path.
Proof.
  destruct dir_files as [dir_files|].
  - rewrite upload_directory_listed.
    pose proof (Quiet_mkdtemp
                  (append_log (upload_directory_header local_path bucket_path)
                     w)) as (Hlog & _).
    destruct (mkdtemp _) as [w1 [e1|temp_dir]]; cbn [fst snd] in *.
    + intros _. split; [discriminate|exact Hlog].
    + cbv zeta.
      pose proof (Quiet_write_file (Path.join temp_dir "file_list.txt")
                    (Str.join (String Str.newline "") dir_files) w1)
        as (Hlog2 & _).
      destruct (write_file _ _ w1) as [w2 [e2|[]]]; cbn [fst snd] in *;
        [|discriminate].
      intros _. split; [discriminate|]. rewrite Hlog2. exact Hlog.
  - rewrite upload_directory_unlisted. discriminate.
Qed.


(** X14.  The mode that reaches [rclone].  A call of [upload_directory]
    that returns normally has run exactly one command, last of all:
    [rclone sync] when [remove_deleted_files] is set and [rclone copy]
    when it is not, from [local_path] to
    [paradigm-data-portal:bucket_path], with [-v] and one filter option:
    [--files-from] and a list file when a file list was given,
    [--exclude] otherwise.  The exit status of [rclone] plays no part. *)
Theorem upload_directory_mode local_path bucket_path dir_files
  remove_deleted_files w w' :
  upload_directory rclone_status local_path bucket_path dir_files
    remove_deleted_files w = (w', inr tt) ->
  exists options,
    let command :=
      ["rclone"; if remove_deleted_files then "sync" else "copy";
       local_path; "paradigm-data-portal:" +:+ bucket_path; "-v"]
      ++ options in
    log w' = log w ++ upload_directory_header local_path bucket_path
             ++ [Call command (rclone_status command)]
    /\ match dir_files with
       | None => options = ["--exclude"; exclude_pattern]
       | Some _ => exists temp_path, options = ["--files-from"; temp_path]
       end.
Proof.
  destruct dir_files as [dir_files|].
  - rewrite upload_directory_listed.
    pose proof (Quiet_mkdtemp
                  (append_log (upload_directory_header local_path bucket_path)
                     w)) as (Hlog & _).
    destruct (mkdtemp _) as [w1 [e1|temp_dir]]; cbn [fst snd] in *;
      [discriminate|].
    cbv zeta.
    pose proof (Quiet_write_file (Path.join temp_dir "file_list.txt")
                  (Str.join (String Str.newline "") dir_files) w1)
      as (Hlog2 & _).
    destruct (write_file _ _ w1) as [w2 [e2|[]]]; cbn [fst snd] in *;
      [discriminate|].
    intros [= <-]. eexists. cbv zeta.
    split; [|eexists; reflexivity].
    cbn [log append_log]. rewrite Hlog2, Hlog. cbn [log append_log].
    rewrite <- app_assoc. reflexivity.
  - rewrite upload_directory_unlisted. cbv zeta. intros [= <-].
    eexists. cbv zeta. split; [|reflexivity].
    cbn [log append_log]. reflexivity.
Qed.


Lemma write_file_raises path content w w' e :
  write_file path content w = (w', inl e) -> w' = w.
Proof.
  rewrite write_file_run.
  repeat match goal with
         | |- context [if ?b then _ else _] => destruct b
         end; congruence.
Qed.

Lemma upload_directory_dirs_grow local_path bucket_path dir_files
  remove_deleted_files w :
  dirs w ⊆ dirs (upload_directory rclone_status local_path bucket_path
                   dir_files remove_deleted_files w).1.
Proof.
  destruct dir_files as [dir_files|].
  - rewrite upload_directory_listed.
    destruct (mkdtemp _) as [w1 [e1|temp_dir]] eqn:Hm; cbn [fst].
    + apply mkdtemp_raises in Hm as [-> _]. reflexivity.
    + apply mkdtemp_ok in Hm as (Hd & _). cbv zeta.
      change (dirs (append_log (upload_directory_header local_path
                                  bucket_path) w))
        with (dirs w) in Hd.
      destruct (write_file _ _ w1) as [w2 [e2|[]]] eqn:Hw; cbn [fst].
      * apply write_file_raises in Hw as ->. rewrite Hd.
        apply union_subseteq_r.
      * apply write_file_ok in Hw as ->. cbn [dirs append_log set_fs].
        rewrite Hd. apply union_subseteq_r.
  - rewrite upload_directory_unlisted. reflexivity.
Qed.

(** X16.  The temporary directories of [upload_directory] pile up.  Two
    calls with a file list, one after the other, both returning normally,
    leave two different directories that did not exist before the first
    call, and the second call still holds its list file. *)
Theorem upload_directory_twice local_path1 bucket_path1 dir_files1 remove1
  local_path2 bucket_path2 dir_files2 remove2 w w1 w2 :
  upload_directory rclone_status local_path1 bucket_path1 (Some dir_files1)
    remove1 w = (w1, inr tt) ->
  upload_directory rclone_status local_path2 bucket_path2 (Some dir_files2)
    remove2 w1 = (w2, inr tt) ->
  exists temp_dir1 temp_dir2,
    temp_dir1 <> temp_dir2
    /\ is_dir w temp_dir1 = false /\ is_dir w temp_dir2 = false
    /\ temp_dir1 ∈ dirs w2 /\ temp_dir2 ∈ dirs w2
    /\ file_content w2 (Path.join temp_dir2 "file_list.txt") =
       Some (Str.join (String Str.newline "") dir_files2).
Proof.
  intros H1 H2.
  destruct (upload_directory_leaves_file_list _ _ _ _ _ _ H1)
    as (d1 & Hn1 & Hin1 & _ & _).
  destruct (upload_directory_leaves_file_list _ _ _ _ _ _ H2)
    as (d2 & Hn2 & Hin2 & Hc2 & _).
  pose proof (upload_directory_dirs_grow local_path1 bucket_path1
                (Some dir_files1) remove1 w) as Hg1.
  pose proof (upload_directory_dirs_grow local_path2 bucket_path2
                (Some dir_files2) remove2 w1) as Hg2.
  rewrite H1 in Hg1. rewrite H2 in Hg2. cbn [fst] in Hg1, Hg2.
  assert (Hd1 : is_dir w1 d1 = true).
  { unfold is_dir. rewrite (bool_decide_eq_true_2 (d1 ∈ dirs w1) Hin1).
    apply orb_true_r. }
  exists d1, d2. split; [intros ->; congruence|].
  split; [exact Hn1|]. split.
  - unfold is_dir in *. apply orb_false_iff in Hn2 as [Hr Hn2].
    rewrite Hr. cbn [orb]. apply bool_decide_eq_false.
    apply bool_decide_eq_false in Hn2. intros Hin. apply Hn2, Hg1, Hin.
  - split; [apply Hg2, Hin1|]. split; [exact Hin2|exact Hc2].
Qed.

(** ** Normalised paths *)

Lemma append_cons (c : ascii) (s r : string) :
  String c s +:+ r = String c (s +:+ r).
Proof. reflexivity. Qed.

Lemma append_nil_left (s : string) : "" +:+ s = s.
Proof. reflexivity. Qed.

Lemma append_assoc' (a b c : string) : (a +:+ b) +:+ c = a +:+ (b +:+ c).
Proof.
  induction a as [|x a IH]; [reflexivity|].
  rewrite !append_cons, IH. reflexivity.
Qed.

Lemma append_nil_right (s : string) : s +:+ "" = s.
Proof.
  induction s as [|x s IH]; [reflexivity|].
  rewrite append_cons, IH. reflexivity.
Qed.

Lemma split_sep_not_nil (s : string) : Str.split_sep s <> [].
Proof.
  induction s as [|x s IH]; [discriminate|].
  cbn [Str.split_sep]. destruct (Str.is_sep x); [discriminate|].
  destruct (Str.split_sep s); discriminate.
Qed.

(** [split('/')] cuts at every separator *)
Lemma split_sep_app_sep (a b : string) :
  Str.split_sep (a +:+ String Str.sep b) = Str.split_sep a ++ Str.split_sep b.
Proof.
  induction a as [|x a IH].
  - rewrite append_nil_left. cbn [Str.split_sep].
    unfold Str.is_sep. rewrite bool_decide_eq_true_2 by reflexivity.
    reflexivity.
  - rewrite append_cons. cbn [Str.split_sep]. rewrite IH.
    destruct (Str.is_sep x); [reflexivity|].
    pose proof (split_sep_not_nil a) as Hn.
    destruct (Str.split_sep a) as [|w ws]; [congruence|reflexivity].
Qed.

Lemma split_sep_no_sep (c : string) :
  Str.has_sep c = false -> Str.split_sep c = [c].
Proof.
  induction c as [|x c IH]; intros H; [reflexivity|].
  cbn [Str.has_sep] in H. apply orb_false_iff in H as [Hx Hc].
  cbn [Str.split_sep]. rewrite Hx, (IH Hc). reflexivity.
Qed.

Lemma join_cons2 (d x y : string) (l : list string) :
  Str.join d (x :: y :: l) = x +:+ d +:+ Str.join d (y :: l).
Proof. reflexivity. Qed.

Lemma split_sep_join (comps : list string) :
  comps <> [] ->
  Forall (fun c => Str.has_sep c = false) comps ->
  Str.split_sep (Str.join "/" comps) = comps.
Proof.
  induction comps as [|c comps IH]; [congruence|].
  intros _ H. inversion H as [|? ? Hc Hcs]; subst.
  destruct comps as [|c' comps].
  - cbn [Str.join]. apply split_sep_no_sep, Hc.
  - rewrite join_cons2.
    change ("/" +:+ Str.join "/" (c' :: comps))
      with (String Str.sep (Str.join "/" (c' :: comps))).
    rewrite split_sep_app_sep, (split_sep_no_sep _ Hc).
    rewrite IH by (congruence || exact Hcs). reflexivity.
Qed.

Lemma join_cons_not_nil (d x : string) (l : list string) :
  l <> [] -> Str.join d (x :: l) = x +:+ d +:+ Str.join d l.
Proof. destruct l; [congruence|reflexivity]. Qed.

Lemma join_snoc (comps : list string) (c : string) :
  comps <> [] ->
  Str.join "/" (comps ++ [c]) = Str.join "/" comps +:+ "/" +:+ c.
Proof.
  induction comps as [|x comps IH]; [congruence|]. intros _.
  destruct comps as [|y comps].
  - reflexivity.
  - change ((x :: y :: comps) ++ [c]) with (x :: ((y :: comps) ++ [c])).
    rewrite join_cons_not_nil by discriminate.
    rewrite IH by discriminate.
    rewrite (join_cons2 "/" x y comps), !append_assoc'. reflexivity.
Qed.

Lemma good_inv (c : string) :
  Normal.good c ->
  Str.is_empty c = false /\ Str.has_sep c = false /\ c <> "." /\ c <> "..".
Proof.
  unfold Normal.good, Normal.goodb. intros H.
  apply andb_true_iff in H as [H H4]. apply andb_true_iff in H as [H H3].
  apply andb_true_iff in H as [H1 H2].
  apply negb_true_iff in H1, H2, H3, H4.
  apply bool_decide_eq_false in H3, H4. auto.
Qed.

Lemma good_no_sep (comps : list string) :
  Forall Normal.good comps -> Forall (fun c => Str.has_sep c = false) comps.
Proof.
  intros H. eapply Forall_impl; [exact H|].
  intros c Hc. apply good_inv in Hc. apply Hc.
Qed.

(** a good component begins with a character that is no separator *)
Lemma good_head (c : string) :
  Normal.good c -> exists x c', c = String x c' /\ Str.is_sep x = false.
Proof.
  intros H. apply good_inv in H as (He & Hs & _).
  destruct c as [|x c']; [discriminate|].
  cbn [Str.has_sep] in Hs. apply orb_false_iff in Hs as [Hx _].
  exists x, c'. split; [reflexivity|exact Hx].
Qed.

Lemma join_cons_head (c : string) (l : list string) :
  exists r, Str.join "/" (c :: l) = c +:+ r.
Proof.
  destruct l as [|y l].
  - exists "". cbn [Str.join]. rewrite append_nil_right. reflexivity.
  - eexists. apply join_cons2.
Qed.

Lemma norm_comps_good (n : nat) (comps : list string) :
  Forall Normal.good comps ->
  forall acc, Path.norm_comps n comps acc = rev acc ++ comps.
Proof.
  induction 1 as [|c comps Hc _ IH]; intros acc.
  - cbn. rewrite app_nil_r. reflexivity.
  - apply good_inv in Hc as (He & _ & Hd & Hdd).
    cbn [Path.norm_comps].
    assert (Hne : c <> "") by (intros ->; discriminate).
    rewrite (bool_decide_eq_false_2 _ Hne), (bool_decide_eq_false_2 _ Hd),
      (bool_decide_eq_false_2 _ Hdd).
    cbn [orb negb]. rewrite IH. cbn [rev]. rewrite <- app_assoc. reflexivity.
Qed.

Lemma normpath_absolute (j : string) :
  Str.startswith "/" j = false ->
  Path.normpath (String Str.sep j) =
  let path' :=
    "/" +:+ Str.join "/" (Path.norm_comps 1 (Str.split_sep (String Str.sep j)) [])
  in if Str.is_empty path' then "." else path'.
Proof.
  intros Hs. unfold Path.normpath.
  change (Str.is_empty (String Str.sep j)) with false.
  change (Str.startswith "/" (String Str.sep j)) with true.
  change (Str.startswith "//" (String Str.sep j))
    with (Str.startswith "/" j).
  rewrite Hs. reflexivity.
Qed.

(** [normpath] leaves a normalised absolute path as it is *)
Lemma normpath_rooted (comps : list string) :
  Forall Normal.good comps ->
  Path.normpath (Normal.rooted comps) = Normal.rooted comps.
Proof.
  intros Hg. destruct comps as [|c comps]; [reflexivity|].
  unfold Normal.rooted.
  change ("/" +:+ Str.join "/" (c :: comps))
    with (String Str.sep (Str.join "/" (c :: comps))).
  assert (Hs : Str.startswith "/" (Str.join "/" (c :: comps)) = false).
  { destruct (join_cons_head c comps) as (r & ->).
    inversion Hg as [|? ? Hc _]; subst.
    destruct (good_head c Hc) as (x & c' & -> & Hx).
    rewrite append_cons. cbn [Str.startswith].
    unfold Str.is_sep in Hx. apply bool_decide_eq_false in Hx.
    rewrite bool_decide_eq_false_2
      by (intros E; apply Hx; symmetry; exact E).
    reflexivity. }
  rewrite (normpath_absolute _ Hs). cbv zeta.
  change (Str.split_sep (String Str.sep (Str.join "/" (c :: comps))))
    with ("" :: Str.split_sep (Str.join "/" (c :: comps))).
  rewrite split_sep_join by (discriminate || apply good_no_sep, Hg).
  change (Path.norm_comps 1 ("" :: c :: comps) [])
    with (Path.norm_comps 1 (c :: comps) []).
  rewrite (norm_comps_good 1 _ Hg). cbn [rev app].
  reflexivity.
Qed.

Lemma endswith_sep_app (a c : string) :
  Str.is_empty c = false ->
  Str.endswith_sep (a +:+ c) = Str.endswith_sep c.
Proof.
  intros Hc. induction a as [|x a IH]; [reflexivity|].
  rewrite append_cons. cbn [Str.endswith_sep].
  destruct (a +:+ c) as [|y r] eqn:E.
  - destruct a; [|discriminate]. rewrite append_nil_left in E.
    subst c. discriminate.
  - exact IH.
Qed.

Lemma endswith_sep_no_sep (c : string) :
  Str.has_sep c = false -> Str.endswith_sep c = false.
Proof.
  induction c as [|x c IH]; intros H; [reflexivity|].
  cbn [Str.has_sep] in H. apply orb_false_iff in H as [Hx Hc].
  cbn [Str.endswith_sep]. destruct c; [exact Hx|apply IH, Hc].
Qed.

(** the path with one more component *)
Lemma rooted_snoc (comps : list string) (c : string) :
  Normal.rooted (comps ++ [c]) =
  (match comps with
   | [] => ""
   | _ => Normal.rooted comps
   end) +:+ String Str.sep c.
Proof.
  unfold Normal.rooted. destruct comps as [|x comps]; [reflexivity|].
  rewrite join_snoc by discriminate.
  rewrite !append_assoc'. reflexivity.
Qed.

Lemma endswith_sep_rooted (comps : list string) :
  comps <> [] -> Forall Normal.good comps ->
  Str.endswith_sep (Normal.rooted comps) = false.
Proof.
  intros Hne Hg.
  destruct (exists_last Hne) as (l & c & ->).
  apply Forall_app in Hg as [_ Hc]. inversion Hc as [|? ? Hc' _]; subst.
  apply good_inv in Hc' as (He & Hs & _).
  rewrite rooted_snoc.
  change (String Str.sep c) with ("/" +:+ c).
  rewrite <- append_assoc', endswith_sep_app by exact He.
  apply endswith_sep_no_sep, Hs.
Qed.

(** *** [posixpath.split] and [posixpath.join] on normalised paths *)

Lemma cut_last_sep_app_sep (a c : string) :
  Str.has_sep c = false ->
  Str.cut_last_sep (a +:+ String Str.sep c) = (a +:+ "/", c).
Proof.
  intros Hc. induction a as [|x a IH].
  - rewrite !append_nil_left. cbn [Str.cut_last_sep].
    rewrite (cut_last_sep_no_sep c Hc). reflexivity.
  - rewrite !append_cons. cbn [Str.cut_last_sep]. rewrite IH.
    destruct a; reflexivity.
Qed.

Lemma rstrip_sep_app_sep (a : string) :
  Str.is_empty a = false -> Str.endswith_sep a = false ->
  Str.rstrip_sep (a +:+ "/") = a.
Proof.
  induction a as [|x a IH]; [discriminate|]. intros _ He.
  rewrite append_cons. cbn [Str.rstrip_sep].
  destruct a as [|y a].
  - cbn [Str.endswith_sep] in He. rewrite append_nil_left.
    cbn. rewrite He. reflexivity.
  - rewrite IH by (reflexivity || exact He).
    rewrite andb_false_r. reflexivity.
Qed.

Lemma all_sep_endswith_sep (a : string) :
  Str.is_empty a = false -> Str.endswith_sep a = false ->
  Str.all_sep a = false.
Proof.
  induction a as [|x a IH]; [discriminate|]. intros _ He.
  cbn [Str.all_sep]. destruct a as [|y a].
  - cbn [Str.endswith_sep] in He. rewrite He. reflexivity.
  - rewrite IH by (reflexivity || exact He). apply andb_false_r.
Qed.

Lemma all_sep_app (a b : string) :
  Str.all_sep (a +:+ b) = Str.all_sep a && Str.all_sep b.
Proof.
  induction a as [|x a IH]; [reflexivity|].
  rewrite append_cons. cbn [Str.all_sep]. rewrite IH, andb_assoc.
  reflexivity.
Qed.

Lemma is_empty_app_sep (a b : string) :
  Str.is_empty (a +:+ String Str.sep b) = false.
Proof. destruct a; reflexivity. Qed.

(** the head and the tail of [a/c] *)
Lemma split_app_sep (a c : string) :
  Str.is_empty a = false -> Str.endswith_sep a = false ->
  Str.has_sep c = false ->
  Path.split (a +:+ String Str.sep c) = (a, c).
Proof.
  intros Ha He Hc. unfold Path.split.
  rewrite (cut_last_sep_app_sep a c Hc).
  change (a +:+ "/") with (a +:+ String Str.sep "").
  rewrite is_empty_app_sep, all_sep_app, (all_sep_endswith_sep a Ha He).
  cbn [negb andb].
  change (a +:+ String Str.sep "") with (a +:+ "/").
  rewrite (rstrip_sep_app_sep a Ha He). reflexivity.
Qed.

Lemma split_root (c : string) :
  Str.has_sep c = false -> Path.split (String Str.sep c) = ("/", c).
Proof.
  intros Hc. unfold Path.split.
  rewrite <- (append_nil_left (String Str.sep c)).
  rewrite (cut_last_sep_app_sep "" c Hc). reflexivity.
Qed.

Lemma rooted_nil : Normal.rooted [] = "/".
Proof. reflexivity. Qed.

Lemma rooted_cons (c : string) (comps : list string) :
  Normal.rooted (c :: comps) = String Str.sep (Str.join "/" (c :: comps)).
Proof. reflexivity. Qed.

Lemma rooted_not_empty (comps : list string) :
  Str.is_empty (Normal.rooted comps) = false.
Proof. reflexivity. Qed.

(** the parent and the last component of a normalised path *)
Lemma split_rooted_snoc (comps : list string) (c : string) :
  Forall Normal.good comps -> Str.has_sep c = false ->
  Path.split (Normal.rooted (comps ++ [c])) = (Normal.rooted comps, c).
Proof.
  intros Hg Hc. rewrite rooted_snoc. destruct comps as [|x comps].
  - rewrite append_nil_left. apply (split_root c Hc).
  - apply split_app_sep; [reflexivity| |exact Hc].
    apply endswith_sep_rooted; [discriminate|exact Hg].
Qed.

Lemma dirname_rooted_snoc (comps : list string) (c : string) :
  Forall Normal.good comps -> Str.has_sep c = false ->
  Path.dirname (Normal.rooted (comps ++ [c])) = Normal.rooted comps.
Proof.
  intros Hg Hc. unfold Path.dirname.
  rewrite (split_rooted_snoc comps c Hg Hc). reflexivity.
Qed.

Lemma startswith_sep_no_sep (c : string) :
  Str.has_sep c = false -> Str.startswith "/" c = false.
Proof.
  destruct c as [|x c]; [reflexivity|]. cbn [Str.has_sep Str.startswith].
  intros H. apply orb_false_iff in H as [Hx _].
  unfold Str.is_sep in Hx. apply bool_decide_eq_false in Hx.
  rewrite bool_decide_eq_false_2
    by (intros E; apply Hx; symmetry; exact E).
  reflexivity.
Qed.

(** [posixpath.join] adds one component *)
Lemma join_rooted (comps : list string) (c : string) :
  Forall Normal.good comps -> Str.has_sep c = false ->
  Path.join (Normal.rooted comps) c = Normal.rooted (comps ++ [c]).
Proof.
  intros Hg Hc. unfold Path.join.
  rewrite (startswith_sep_no_sep c Hc), rooted_not_empty.
  cbn [orb]. rewrite rooted_snoc. destruct comps as [|x comps].
  - reflexivity.
  - rewrite endswith_sep_rooted by (discriminate || exact Hg).
    reflexivity.
Qed.

(** *** [normpath] and [abspath] on a normalised path with one more
    component *)

Lemma norm_comps_good_app (n : nat) (comps rest : list string) :
  Forall Normal.good comps ->
  forall acc,
    Path.norm_comps n (comps ++ rest) acc
    = Path.norm_comps n rest (rev comps ++ acc).
Proof.
  induction 1 as [|c comps Hc _ IH]; intros acc; [reflexivity|].
  apply good_inv in Hc as (He & _ & Hd & Hdd).
  change ((c :: comps) ++ rest) with (c :: (comps ++ rest)).
  cbn [Path.norm_comps].
  assert (Hne : c <> "") by (intros ->; discriminate).
  rewrite (bool_decide_eq_false_2 _ Hne), (bool_decide_eq_false_2 _ Hd),
    (bool_decide_eq_false_2 _ Hdd).
  cbn [orb negb]. rewrite IH. cbn [rev]. rewrite <- app_assoc. reflexivity.
Qed.

(** a component without separator is good, or one of the three that
    [normpath] resolves *)
Lemma no_sep_cases (c : string) :
  Str.has_sep c = false ->
  Normal.good c \/ c = "" \/ c = "." \/ c = "..".
Proof.
  intros Hs. unfold Normal.good, Normal.goodb. rewrite Hs.
  destruct c as [|x c]; [right; left; reflexivity|].
  cbn [Str.is_empty negb andb].
  destruct (bool_decide (String x c = ".")) eqn:E1.
  { apply bool_decide_eq_true in E1. auto. }
  destruct (bool_decide (String x c = "..")) eqn:E2.
  { apply bool_decide_eq_true in E2. auto. }
  left. reflexivity.
Qed.

Lemma snoc_cases {A} (l : list A) : l = [] \/ exists l' x, l = l' ++ [x].
Proof.
  induction l as [|x l' _] using rev_ind; [left; reflexivity|].
  right. exists l', x. reflexivity.
Qed.

Lemma normpath_rooted_snoc (comps : list string) (c : string) :
  Forall Normal.good comps -> Str.has_sep c = false ->
  Path.normpath (Normal.rooted (comps ++ [c])) =
  if Normal.goodb c then Normal.rooted (comps ++ [c])
  else if bool_decide (c = "..") then Normal.rooted (removelast comps)
  else Normal.rooted comps.
Proof.
  intros Hg Hc.
  destruct (no_sep_cases c Hc) as [Hgood | Hbad].
  { rewrite Hgood. apply normpath_rooted.
    apply Forall_app. split; [exact Hg|]. constructor; [exact Hgood|constructor]. }
  assert (Hb : Normal.goodb c = false)
    by (destruct Hbad as [-> | [-> | ->]]; reflexivity).
  rewrite Hb.
  assert (Hne : comps ++ [c] <> []) by (destruct comps; discriminate).
  assert (Hns : Forall (fun c => Str.has_sep c = false) (comps ++ [c])).
  { apply Forall_app. split; [apply good_no_sep, Hg|].
    constructor; [exact Hc|constructor]. }
  assert (Hs : Str.startswith "/" (Str.join "/" (comps ++ [c])) = false).
  { destruct comps as [|x comps].
    - cbn [app Str.join]. apply startswith_sep_no_sep, Hc.
    - change ((x :: comps) ++ [c]) with (x :: (comps ++ [c])).
      destruct (join_cons_head x (comps ++ [c])) as (r & ->).
      inversion Hg as [|? ? Hx _]; subst.
      destruct (good_head x Hx) as (y & x' & -> & Hy).
      rewrite append_cons. cbn [Str.startswith].
      unfold Str.is_sep in Hy. apply bool_decide_eq_false in Hy.
      rewrite bool_decide_eq_false_2
        by (intros E; apply Hy; symmetry; exact E).
      reflexivity. }
  assert (Hr : Normal.rooted (comps ++ [c])
               = String Str.sep (Str.join "/" (comps ++ [c])))
    by reflexivity.
  rewrite Hr, (normpath_absolute _ Hs). cbv zeta.
  change (Str.split_sep (String Str.sep (Str.join "/" (comps ++ [c]))))
    with ("" :: Str.split_sep (Str.join "/" (comps ++ [c]))).
  rewrite (split_sep_join _ Hne Hns).
  change (Path.norm_comps 1 ("" :: comps ++ [c]) [])
    with (Path.norm_comps 1 (comps ++ [c]) []).
  rewrite (norm_comps_good_app 1 comps [c] Hg), app_nil_r.
  destruct Hbad as [-> | [-> | ->]].
  - cbn [Path.norm_comps]. rewrite bool_decide_eq_true_2 by reflexivity.
    cbn [orb]. rewrite rev_involutive. reflexivity.
  - cbn [Path.norm_comps].
    rewrite (bool_decide_eq_true_2 ("." = ".")) by reflexivity.
    rewrite orb_true_r, rev_involutive. reflexivity.
  - rewrite (bool_decide_eq_true_2 (".." = "..")) by reflexivity.
    cbn [Path.norm_comps].
    rewrite (bool_decide_eq_false_2 (".." = "")) by discriminate.
    rewrite (bool_decide_eq_false_2 (".." = ".")) by discriminate.
    rewrite (bool_decide_eq_true_2 (".." = "..")) by reflexivity.
    rewrite (bool_decide_eq_false_2 (1%nat = 0%nat)) by discriminate.
    cbn [orb negb andb].
    destruct (snoc_cases comps) as [-> | (l & t & ->)].
    + reflexivity.
    + rewrite rev_app_distr. cbn [rev app].
      apply Forall_app in Hg as [_ Ht]. inversion Ht as [|? ? Ht' _]; subst.
      apply good_inv in Ht' as (_ & _ & _ & Hdd).
      rewrite (bool_decide_eq_false_2 _ Hdd). cbn [tail].
      rewrite rev_involutive, removelast_last. reflexivity.
Qed.

Lemma abspath_rooted w (comps : list string) :
  Forall Normal.good comps ->
  abspath w (Normal.rooted comps) = Normal.rooted comps.
Proof.
  intros Hg. unfold abspath.
  change (Path.isabs (Normal.rooted comps)) with true.
  apply normpath_rooted, Hg.
Qed.

Lemma abspath_rooted_snoc w (comps : list string) (c : string) :
  Forall Normal.good comps -> Str.has_sep c = false ->
  abspath w (Normal.rooted (comps ++ [c])) =
  if Normal.goodb c then Normal.rooted (comps ++ [c])
  else if bool_decide (c = "..") then Normal.rooted (removelast comps)
  else Normal.rooted comps.
Proof.
  intros Hg Hc. unfold abspath.
  change (Path.isabs (Normal.rooted (comps ++ [c]))) with true.
  apply normpath_rooted_snoc; assumption.
Qed.

(** *** What lies below a normalised path *)

Lemma startswith_app (p r : string) : Str.startswith p (p +:+ r) = true.
Proof.
  induction p as [|x p IH]; [reflexivity|].
  rewrite append_cons. cbn [Str.startswith].
  rewrite bool_decide_eq_true_2 by reflexivity. exact IH.
Qed.

Lemma startswith_inv (p s : string) :
  Str.startswith p s = true -> exists r, s = p +:+ r.
Proof.
  revert s. induction p as [|x p IH]; intros s H.
  - exists s. reflexivity.
  - destruct s as [|y s]; [discriminate|]. cbn [Str.startswith] in H.
    apply andb_true_iff in H as [Hx Hp].
    apply bool_decide_eq_true in Hx. subst y.
    destruct (IH s Hp) as (r & ->). exists r. reflexivity.
Qed.

Lemma join_app (l e : list string) :
  l <> [] -> e <> [] ->
  Str.join "/" (l ++ e) = Str.join "/" l +:+ "/" +:+ Str.join "/" e.
Proof.
  intros Hl He. induction l as [|x l IH]; [congruence|].
  destruct l as [|y l].
  - cbn [app]. apply join_cons_not_nil, He.
  - change ((x :: y :: l) ++ e) with (x :: ((y :: l) ++ e)).
    rewrite join_cons_not_nil by discriminate.
    rewrite IH by discriminate.
    rewrite (join_cons2 "/" x y l), !append_assoc'. reflexivity.
Qed.

Lemma rooted_app (l e : list string) :
  l <> [] -> e <> [] ->
  Normal.rooted (l ++ e)
  = (Normal.rooted l +:+ "/") +:+ Str.join "/" e.
Proof.
  intros Hl He. unfold Normal.rooted.
  rewrite (join_app l e Hl He), !append_assoc'. reflexivity.
Qed.

Lemma under_rooted_app (l e : list string) :
  l <> [] -> under (Normal.rooted l) (Normal.rooted (l ++ e)) = true.
Proof.
  intros Hl. unfold under. destruct e as [|c e].
  - rewrite app_nil_r, bool_decide_eq_true_2 by reflexivity. reflexivity.
  - rewrite (rooted_app l (c :: e)) by (exact Hl || discriminate).
    rewrite startswith_app. apply orb_true_r.
Qed.

Lemma split_sep_rooted (comps : list string) :
  comps <> [] -> Forall Normal.good comps ->
  Str.split_sep (Normal.rooted comps) = "" :: comps.
Proof.
  intros Hne Hg. destruct comps as [|c comps]; [congruence|].
  rewrite rooted_cons.
  change (Str.split_sep (String Str.sep (Str.join "/" (c :: comps))))
    with ("" :: Str.split_sep (Str.join "/" (c :: comps))).
  rewrite split_sep_join by (discriminate || apply good_no_sep, Hg).
  reflexivity.
Qed.

Lemma rooted_cons_not_root (c : string) (comps : list string) :
  Normal.good c -> Normal.rooted (c :: comps) <> "/".
Proof.
  intros Hc E. destruct (good_head c Hc) as (x & c' & -> & _).
  destruct (join_cons_head (String x c') comps) as (r & Hr).
  rewrite rooted_cons, Hr, append_cons in E. discriminate.
Qed.

Lemma comps_of_rooted (comps : list string) :
  Forall Normal.good comps -> Normal.comps_of (Normal.rooted comps) = comps.
Proof.
  intros Hg. unfold Normal.comps_of. destruct comps as [|c comps].
  - reflexivity.
  - inversion Hg as [|? ? Hc _]; subst.
    rewrite bool_decide_eq_false_2 by (apply rooted_cons_not_root, Hc).
    rewrite split_sep_rooted by (discriminate || exact Hg). reflexivity.
Qed.

Lemma rooted_inj (l1 l2 : list string) :
  Forall Normal.good l1 -> Forall Normal.good l2 ->
  Normal.rooted l1 = Normal.rooted l2 -> l1 = l2.
Proof.
  intros H1 H2 E.
  rewrite <- (comps_of_rooted l1 H1), <- (comps_of_rooted l2 H2), E.
  reflexivity.
Qed.

(** below a normalised path lie the paths that extend its components *)
Lemma under_rooted_inv (l cq : list string) :
  l <> [] -> Forall Normal.good l -> Forall Normal.good cq ->
  under (Normal.rooted l) (Normal.rooted cq) = true ->
  exists e, cq = l ++ e.
Proof.
  intros Hl Hgl Hgq Hu. unfold under in Hu.
  apply orb_true_iff in Hu as [Hu|Hu].
  - apply bool_decide_eq_true in Hu.
    exists []. rewrite app_nil_r. apply rooted_inj; assumption.
  - apply startswith_inv in Hu as (r & Hr).
    assert (Hq : cq <> []).
    { intros ->. rewrite rooted_nil in Hr.
      destruct l as [|x l]; [congruence|].
      rewrite rooted_cons, !append_cons in Hr.
      injection Hr as Hr. symmetry in Hr.
      rewrite append_assoc' in Hr.
      apply (f_equal Str.is_empty) in Hr.
      change ("/" +:+ r) with (String Str.sep r) in Hr.
      rewrite is_empty_app_sep in Hr. discriminate. }
    exists (Str.split_sep r).
    assert (E : Str.split_sep (Normal.rooted cq)
                = Str.split_sep (Normal.rooted l) ++ Str.split_sep r).
    { rewrite Hr, append_assoc'.
      change ("/" +:+ r) with (String Str.sep r).
      apply split_sep_app_sep. }
    rewrite !split_sep_rooted in E by assumption.
    injection E as E. exact E.
Qed.

(** *** Well-formed worlds *)

Lemma rooted_not_root (comps : list string) :
  comps <> [] -> Forall Normal.good comps -> Normal.rooted comps <> "/".
Proof.
  intros Hne Hg. destruct comps as [|c comps]; [congruence|].
  inversion Hg; subst. apply rooted_cons_not_root. assumption.
Qed.

Lemma is_dir_rooted w (comps : list string) :
  comps <> [] -> Forall Normal.good comps ->
  is_dir w (Normal.rooted comps) = true -> Normal.rooted comps ∈ dirs w.
Proof.
  intros Hne Hg H. unfold is_dir in H.
  rewrite bool_decide_eq_false_2 in H by (apply rooted_not_root; assumption).
  apply bool_decide_eq_true in H. exact H.
Qed.

Lemma is_dir_ext w w' (q : string) :
  dirs w' = dirs w -> is_dir w' q = is_dir w q.
Proof. unfold is_dir. intros ->. reflexivity. Qed.

Lemma is_file_ext w w' (q : string) :
  files w' = files w -> is_file w' q = is_file w q.
Proof. unfold is_file. intros ->. reflexivity. Qed.

Lemma is_file_false w (q : string) :
  is_file w q = false <-> files w !! q = None.
Proof.
  unfold is_file. rewrite bool_decide_eq_false, eq_None_not_Some.
  reflexivity.
Qed.

(** in a well-formed world every ancestor of a directory or file is a
    directory *)
Lemma ancestors_present w :
  well_formed w ->
  forall (e l : list string),
    Forall Normal.good (l ++ e) -> e <> [] ->
    Normal.rooted (l ++ e) ∈ dirs w
    \/ is_Some (files w !! Normal.rooted (l ++ e)) ->
    is_dir w (Normal.rooted l) = true.
Proof.
  intros (Hwf & _). induction e as [|c e IH] using rev_ind; [congruence|].
  intros l Hg _ Hin. rewrite app_assoc in Hin, Hg.
  destruct (Hwf _ Hin) as [_ Hd].
  apply Forall_app in Hg as [Hg Hc]. inversion Hc as [|? ? Hc' _]; subst.
  apply good_inv in Hc' as (_ & Hs & _).
  rewrite (dirname_rooted_snoc _ _ Hg Hs) in Hd.
  destruct e as [|x e].
  - rewrite app_nil_r in Hd. exact Hd.
  - apply IH; [exact Hg|discriminate|]. left.
    apply is_dir_rooted; [destruct l; discriminate|exact Hg|exact Hd].
Qed.

(** in a well-formed world nothing lies below a name that is not a
    directory *)
Lemma nothing_below w (l : list string) (q : string) :
  well_formed w -> l <> [] -> Forall Normal.good l ->
  is_dir w (Normal.rooted l) = false ->
  under (Normal.rooted l) q = true -> q <> Normal.rooted l ->
  (q ∉ dirs w) /\ files w !! q = None.
Proof.
  intros Hwf Hl Hg Hd Hu Hne.
  assert (Hno : ~ (q ∈ dirs w \/ is_Some (files w !! q))).
  { intros Hin. pose proof Hwf as (Hn & _).
    destruct (Hn _ Hin) as [(cq & Hgq & ->) _].
    destruct (under_rooted_inv l cq Hl Hg Hgq Hu) as (e & ->).
    destruct e as [|x e]; [rewrite app_nil_r in Hne; congruence|].
    rewrite (ancestors_present w Hwf (x :: e) l Hgq) in Hd
      by (discriminate || exact Hin).
    discriminate. }
  split.
  - intros Hin. apply Hno. left. exact Hin.
  - apply eq_None_not_Some. intros Hin. apply Hno. right. exact Hin.
Qed.

Lemma normalb_normal (p : string) :
  Normal.normalb p = true -> Normal.normal p.
Proof.
  unfold Normal.normalb. intros H. apply andb_true_iff in H as [Hg Hp].
  apply bool_decide_eq_true in Hp.
  exists (Normal.comps_of p). split; [|exact Hp].
  apply Forall_forall. intros c Hc. rewrite forallb_forall in Hg.
  apply Hg. apply list_elem_of_In. exact Hc.
Qed.

(** the decision procedure for well-formed worlds is sound *)
Lemma well_formedb_sound w : well_formedb w = true -> well_formed w.
Proof.
  unfold well_formedb. intros H.
  apply andb_true_iff in H as [H Hn]. apply andb_true_iff in H as [H Ht].
  apply andb_true_iff in H as [Ha Hb].
  rewrite forallb_forall in Ha, Hb, Hn.
  repeat split.
  - apply normalb_normal.
    assert (Hq : q ∈ elements (dirs w ∪ dom (files w))).
    { apply elem_of_elements, elem_of_union.
      destruct H as [H|H]; [left; exact H|right; apply elem_of_dom, H]. }
    apply list_elem_of_In, Ha in Hq. apply andb_true_iff in Hq. apply Hq.
  - assert (Hq : q ∈ elements (dirs w ∪ dom (files w))).
    { apply elem_of_elements, elem_of_union.
      destruct H as [H|H]; [left; exact H|right; apply elem_of_dom, H]. }
    apply list_elem_of_In, Ha in Hq. apply andb_true_iff in Hq. apply Hq.
  - intros q Hq. apply is_file_false.
    assert (Hin : q ∈ "/" :: elements (dirs w)).
    { unfold is_dir in Hq. apply orb_true_iff in Hq as [Hq|Hq];
        apply bool_decide_eq_true in Hq.
      - subst q. apply elem_of_cons. left. reflexivity.
      - apply elem_of_cons. right. apply elem_of_elements, Hq. }
    apply list_elem_of_In, Hb in Hin. apply negb_true_iff in Hin. exact Hin.
  - apply normalb_normal, Ht.
  - apply Forall_forall. intros name Hname.
    apply list_elem_of_In, Hn in Hname. apply negb_true_iff in Hname.
    exact Hname.
Qed.

(** *** [tempfile.mkdtemp] and [os.makedirs] in a well-formed world *)

Lemma tmp_name_good (name : string) :
  Str.has_sep name = false -> Normal.good ("tmp" +:+ name).
Proof.
  intros H. unfold Normal.good, Normal.goodb.
  change (Str.has_sep ("tmp" +:+ name)) with (Str.has_sep name).
  rewrite H.
  rewrite !bool_decide_eq_false_2 by discriminate. reflexivity.
Qed.

Lemma mkdir_ok_parent path w w' :
  mkdir path w = (w', inr tt) ->
  is_dir w (Path.dirname (abspath w path)) = true.
Proof.
  rewrite mkdir_run.
  destruct (Str.is_empty path); [discriminate|].
  destruct (is_dir w (abspath w path) || is_file w (abspath w path));
    [discriminate|].
  destruct (is_file w (Path.dirname (abspath w path))); [discriminate|].
  destruct (is_dir w (Path.dirname (abspath w path))); [reflexivity|].
  discriminate.
Qed.

(** the directory [mkdtemp] makes is a new entry of the directory
    [tempfile] works in *)
Lemma mkdtemp_loop_rooted (ct : list string) (names : list string) :
  Forall Normal.good ct ->
  Forall (fun name => Str.has_sep name = false) names ->
  forall w w1 tmp,
    tempdir w = Normal.rooted ct ->
    mkdtemp_loop names w = (w1, inr tmp) ->
    exists name,
      name ∈ names /\ tmp = Normal.rooted (ct ++ ["tmp" +:+ name])
      /\ is_dir w (Normal.rooted ct) = true.
Proof.
  intros Hg Hn. induction Hn as [|name rest Hname _ IH];
    intros w w1 tmp Ht; [discriminate|].
  cbn [mkdtemp_loop]. unfold bind at 1. unfold modify at 1.
  rewrite bind_get. unfold try_except. rewrite bind_run.
  set (w0 := set_temp_names rest w).
  change (tempdir w0) with (tempdir w). rewrite Ht.
  rewrite (join_rooted ct _ Hg) by exact Hname.
  pose proof (tmp_name_good name Hname) as Hgood.
  assert (Ha : abspath w0 (Normal.rooted (ct ++ ["tmp" +:+ name]))
               = Normal.rooted (ct ++ ["tmp" +:+ name])).
  { apply abspath_rooted, Forall_app. split; [exact Hg|].
    constructor; [exact Hgood|constructor]. }
  destruct (mkdir _ w0) as [w2 [e|[]]] eqn:Hm.
  - apply mkdir_raises in Hm as ->.
    destruct (is_FileExistsError e); [|discriminate].
    intros H. apply IH in H; [|exact Ht].
    destruct H as (name' & Hin & Htmp & Hd). exists name'.
    split; [apply elem_of_cons; right; exact Hin|]. split; assumption.
  - apply mkdir_ok_parent in Hm. rewrite Ha in Hm.
    apply good_inv in Hgood as (_ & Hs & _).
    rewrite (dirname_rooted_snoc ct _ Hg Hs) in Hm.
    unfold ret. rewrite Ha. intros [= _ <-]. exists name.
    split; [apply elem_of_cons; left; reflexivity|].
    split; [reflexivity|exact Hm].
Qed.

Lemma mkdtemp_rooted w w1 tmp :
  well_formed w -> mkdtemp w = (w1, inr tmp) ->
  exists ct name,
    Forall Normal.good ct /\ Str.has_sep name = false
    /\ tempdir w = Normal.rooted ct
    /\ tmp = Normal.rooted (ct ++ ["tmp" +:+ name])
    /\ is_dir w (Normal.rooted ct) = true.
Proof.
  intros (_ & _ & (ct & Hg & Ht) & Hn). unfold mkdtemp. rewrite bind_get.
  intros Hm.
  destruct (mkdtemp_loop_rooted ct _ Hg Hn w w1 tmp Ht Hm)
    as (name & Hin & Htmp & Hd).
  exists ct, name. repeat split; try assumption.
  rewrite Forall_forall in Hn. apply Hn, Hin.
Qed.

(** [os.makedirs(name, exist_ok=True)] on a directory that exists, below
    a parent that exists, does nothing *)
Lemma makedirs_existing name (head tail : string) w :
  Path.split name = (head, tail) -> Str.is_empty tail = false ->
  path_exists w head = true -> path_isdir w name = true ->
  makedirs name true w = (w, inr tt).
Proof.
  intros Hsplit Htail Hhead Hname. unfold makedirs.
  cbn [makedirs_rec]. rewrite Hsplit, Htail.
  rewrite bind_get, Hhead, andb_false_r, bind_ret.
  unfold try_except. rewrite mkdir_run.
  unfold path_isdir in Hname. apply andb_true_iff in Hname as [He Hd].
  apply negb_true_iff in He. rewrite He, Hd. cbn [orb].
  rewrite bind_get. unfold path_isdir. rewrite He, Hd. reflexivity.
Qed.

Lemma makedirs_scratch (ct : list string) (tn : string) w :
  Forall Normal.good ct -> Normal.good tn ->
  is_dir w (Normal.rooted ct) = true ->
  is_dir w (Normal.rooted (ct ++ [tn])) = true ->
  makedirs (Normal.rooted (ct ++ [tn])) true w = (w, inr tt).
Proof.
  intros Hg Ht Hd Hd'. pose proof (good_inv tn Ht) as (He & Hs & _).
  assert (Hg' : Forall Normal.good (ct ++ [tn])).
  { apply Forall_app. split; [exact Hg|]. constructor; [exact Ht|constructor]. }
  apply (makedirs_existing _ (Normal.rooted ct) tn).
  - apply split_rooted_snoc; assumption.
  - exact He.
  - unfold path_exists. rewrite rooted_not_empty, (abspath_rooted w ct Hg), Hd.
    reflexivity.
  - unfold path_isdir.
    rewrite rooted_not_empty, (abspath_rooted w _ Hg'), Hd'. reflexivity.
Qed.

(** *** The pipeline in a well-formed world *)

(** One turn of the transfer loop in an empty scratch directory: no
    directory is made, the files outside the scratch directory are left
    alone, a turn that returns leaves the scratch directory empty again,
    and the turn returns when the URL names a file, the fetch succeeds and
    the service accepts the object. *)
Lemma transfer_scratch (ct : list string) (tn s3_bucket prefix : string)
  url w :
  empty_scratch w ct tn ->
  let tmp := Normal.rooted (ct ++ [tn]) in
  let r := transfer fetch tmp s3_bucket prefix url w in
  dirs r.1 = dirs w /\ cwd r.1 = cwd w
  /\ tempdir r.1 = tempdir w /\ temp_names r.1 = temp_names w
  /\ (forall q, under tmp q = false -> files r.1 !! q = files w !! q)
  /\ (r.2 = inr tt -> files r.1 = files w)
  /\ (forall body s',
        fetch url = Fetched body -> Normal.good (Path.basename url) ->
        put_object (s3 w) body s3_bucket (object_key prefix url) = inr s' ->
        r.2 = inr tt /\ s3 r.1 = s').
Proof.
  intros (Hg & Ht & Hd & Hd' & Hclean). cbv zeta.
  assert (Hg' : Forall Normal.good (ct ++ [tn])).
  { apply Forall_app. split; [exact Hg|]. constructor; [exact Ht|constructor]. }
  pose proof (basename_no_sep url) as Hb.
  match goal with
  | |- context [transfer fetch ?t s3_bucket prefix url w] =>
      set (r := transfer fetch t s3_bucket prefix url w);
      assert (Hr : r = transfer fetch t s3_bucket prefix url w)
        by reflexivity;
      clearbody r
  end.
  unfold transfer, scratch_path in Hr.
  rewrite (join_rooted _ _ Hg' Hb) in Hr.
  set (lp := Normal.rooted ((ct ++ [tn]) ++ [Path.basename url])) in *.
  set (key := object_key prefix url) in *.
  rewrite bind_run, download_file_path in Hr.
  unfold lp at 1 in Hr. rewrite (dirname_rooted_snoc _ _ Hg' Hb) in Hr.
  rewrite (makedirs_scratch ct tn (announced url w) Hg Ht Hd Hd') in Hr.
  rewrite bind_run, s3_upload_file_run in Hr. cbv zeta in Hr.
  pose proof (Hclean _ (under_refl _)) as [Htf _].
  assert (Hcases :
    (Normal.good (Path.basename url)
     /\ (forall w', abspath w' lp = lp) /\ is_dir w lp = false
     /\ files w !! lp = None
     /\ under (Normal.rooted (ct ++ [tn])) lp = true)
    \/ (Normal.goodb (Path.basename url) = false
        /\ forall w', dirs w' = dirs w -> is_dir w' (abspath w' lp) = true)).
  { destruct (Normal.goodb (Path.basename url)) eqn:Hgb.
    - left. split; [exact Hgb|].
      assert (Hu : under (Normal.rooted (ct ++ [tn])) lp = true)
        by (apply under_rooted_app; destruct ct; discriminate).
      assert (Hne : lp <> Normal.rooted (ct ++ [tn])).
      { intros E. apply rooted_inj in E; [| |exact Hg'].
        - apply (f_equal length) in E. rewrite !length_app in E.
          cbn in E. lia.
        - apply Forall_app. split; [exact Hg'|].
          constructor; [exact Hgb|constructor]. }
      destruct (Hclean lp Hu) as [Hf Hdd].
      split; [|split; [|split; [exact Hf|exact Hu]]].
      + intros w'. unfold lp.
        rewrite (abspath_rooted_snoc w' _ _ Hg' Hb), Hgb. reflexivity.
      + unfold is_dir. apply orb_false_iff. split.
        * apply bool_decide_eq_false. apply rooted_not_root.
          -- destruct (ct ++ [tn]); discriminate.
          -- apply Forall_app. split; [exact Hg'|].
             constructor; [exact Hgb|constructor].
        * apply bool_decide_eq_false. intros Hin. apply Hne, Hdd, Hin.
    - right. split; [reflexivity|]. intros w' Hw'. unfold lp.
      rewrite (abspath_rooted_snoc w' _ _ Hg' Hb), Hgb.
      rewrite removelast_last, (is_dir_ext w w' _ Hw').
      destruct (bool_decide (Path.basename url = "..")); assumption. }
  assert (Hdn : Path.dirname lp = Normal.rooted (ct ++ [tn]))
    by apply (dirname_rooted_snoc _ _ Hg' Hb).
  assert (He : Str.is_empty lp = false) by reflexivity.
  clearbody lp key.
  destruct Hcases as [(Hgb & Habs & Hnd & Hnf & Hu) | (Hgb & Hdir)].
  - unfold curl_outcome in Hr. destruct (fetch url) as [body|code] eqn:Hf.
    + rewrite write_file_run, He, Habs, Hdn in Hr.
      change (is_dir (announced url w) lp) with (is_dir w lp) in Hr.
      change (is_dir (announced url w) (Normal.rooted (ct ++ [tn])))
        with (is_dir w (Normal.rooted (ct ++ [tn]))) in Hr.
      change (is_file (announced url w) (Normal.rooted (ct ++ [tn])))
        with (is_file w (Normal.rooted (ct ++ [tn]))) in Hr.
      rewrite Hnd, Hd', (proj2 (is_file_false w _) Htf) in Hr.
      cbn [negb fst snd] in Hr.
      rewrite read_file_run, He, Habs in Hr.
      match type of Hr with
      | context [is_dir ?x lp] => change (is_dir x lp) with (is_dir w lp) in Hr
      end.
      rewrite Hnd in Hr. cbn [files add_log set_fs] in Hr.
      rewrite lookup_insert_eq in Hr.
      cbn [s3 add_log set_fs announced] in Hr.
      destruct (put_object (s3 w) body s3_bucket key) as [e|s1] eqn:Hput.
      * subst r. cbn [fst snd dirs cwd files append_log add_log set_fs
                      announced].
        split; [reflexivity|]. split; [reflexivity|].
        split; [reflexivity|]. split; [reflexivity|]. split; [|split].
        -- intros q Hq. apply lookup_insert_ne. congruence.
        -- discriminate.
        -- intros body0 s' [= <-] _ Hp. congruence.
      * rewrite remove_run in Hr. cbv zeta in Hr.
        rewrite He, Habs in Hr.
        match type of Hr with
        | context [is_dir ?x lp] =>
            change (is_dir x lp) with (is_dir w lp) in Hr
        end.
        rewrite Hnd in Hr. unfold is_file in Hr.
        cbn [files set_s3 append_log add_log set_fs] in Hr.
        rewrite lookup_insert_eq in Hr.
        rewrite bool_decide_eq_true_2 in Hr by (eexists; reflexivity).
        cbn [negb] in Hr.
        rewrite delete_insert_eq, (delete_id _ _ Hnf) in Hr.
        subst r. cbn [fst snd dirs cwd files s3 append_log add_log set_fs
                      set_s3 announced].
        split; [reflexivity|]. split; [reflexivity|].
        split; [reflexivity|]. split; [reflexivity|].
        split; [reflexivity|]. split; [reflexivity|].
        intros body0 s' [= <-] _ Hp. split; [reflexivity|congruence].
    + cbn [fst snd] in Hr. rewrite read_file_run, He, Habs in Hr.
      match type of Hr with
      | context [is_dir ?x lp] => change (is_dir x lp) with (is_dir w lp) in Hr
      end.
      rewrite Hnd in Hr. cbn [files add_log announced] in Hr.
      rewrite Hnf in Hr. subst r.
      cbn [fst snd dirs cwd files append_log add_log announced].
      split; [reflexivity|]. split; [reflexivity|].
      split; [reflexivity|]. split; [reflexivity|].
      split; [reflexivity|]. split; [discriminate|].
      intros body s' [=].
  - assert (Hread : forall w', dirs w' = dirs w ->
              read_file lp w' = (w', inl (IsADirectoryError lp))).
    { intros w' Hw'. rewrite read_file_run, He, (Hdir w' Hw'). reflexivity. }
    unfold curl_outcome in Hr. destruct (fetch url) as [body|code] eqn:Hf.
    + rewrite write_file_run, He, (Hdir (announced url w) eq_refl) in Hr.
      cbn [fst snd] in Hr. 
      match type of Hr with
      | context [read_file lp ?x] => rewrite (Hread x eq_refl) in Hr
      end. subst r.
      cbn [fst snd dirs cwd files append_log add_log announced].
      split; [reflexivity|]. split; [reflexivity|].
      split; [reflexivity|]. split; [reflexivity|].
      split; [reflexivity|]. split; [discriminate|].
      intros body0 s' _ Hgood. unfold Normal.good in Hgood. congruence.
    + cbn [fst snd] in Hr. 
      match type of Hr with
      | context [read_file lp ?x] => rewrite (Hread x eq_refl) in Hr
      end. subst r.
      cbn [fst snd dirs cwd files append_log add_log announced].
      split; [reflexivity|]. split; [reflexivity|].
      split; [reflexivity|]. split; [reflexivity|].
      split; [reflexivity|]. split; [discriminate|].
      intros body s' [=].
Qed.
Lemma empty_scratch_ext w w' (ct : list string) (tn : string) :
  dirs w' = dirs w -> files w' = files w ->
  empty_scratch w ct tn -> empty_scratch w' ct tn.
Proof.
  intros Hd Hf (Hg & Ht & H1 & H2 & H3).
  split; [exact Hg|]. split; [exact Ht|].
  rewrite !(is_dir_ext w w' _ Hd), Hd, Hf. auto.
Qed.

(** the transfer loop in an empty scratch directory *)
Lemma s3_loop_scratch (ct : list string) (tn s3_bucket prefix : string)
  (skip_urls : gset string) urls :
  forall w,
    empty_scratch w ct tn ->
    let tmp := Normal.rooted (ct ++ [tn]) in
    let r := for_each urls
               (fun url => if bool_decide (url ∉ skip_urls)
                           then transfer fetch tmp s3_bucket prefix url
                           else ret tt) w in
    dirs r.1 = dirs w
    /\ (forall q, under tmp q = false -> files r.1 !! q = files w !! q)
    /\ tempdir r.1 = tempdir w /\ temp_names r.1 = temp_names w.
Proof.
  induction urls as [|url urls IH]; intros w Hw; cbv zeta.
  { split; [reflexivity|]. split; [|split; reflexivity].
    intros q _. reflexivity. }
  cbn [for_each]. rewrite bind_run.
  destruct (bool_decide (url ∉ skip_urls)).
  - pose proof (transfer_scratch ct tn s3_bucket prefix url w Hw)
      as (Hd & _ & Ht & Hn & Hout & Hret & _).
    cbv zeta in Hd, Ht, Hn, Hout, Hret.
    destruct (transfer fetch _ s3_bucket prefix url w) as [w1 [e|[]]];
      cbn [fst snd] in *.
    + split; [exact Hd|]. split; [exact Hout|]. split; assumption.
    + specialize (Hret eq_refl).
      destruct (IH w1 (empty_scratch_ext w w1 ct tn Hd Hret Hw))
        as (Hd1 & Hf1 & Ht1 & Hn1).
      cbv zeta in Hd1, Hf1, Ht1, Hn1. rewrite Hd1, Hd, Ht1, Ht, Hn1, Hn.
      split; [reflexivity|]. split; [|split; reflexivity].
      intros q Hq. rewrite (Hf1 q Hq), Hret. reflexivity.
  - unfold ret at 1. apply (IH w Hw).
Qed.

(** the transfer loop gets through every URL when each names a file,
    each fetch succeeds and the service accepts each object *)
Lemma s3_loop_returns (ct : list string) (tn s3_bucket prefix : string)
  (skip_urls : gset string) (accepts : S -> Prop) urls :
  (forall s body url,
     accepts s ->
     exists s', put_object s body s3_bucket (object_key prefix url) = inr s'
                /\ accepts s') ->
  (forall url, url ∈ urls -> url ∉ skip_urls ->
     Normal.good (Path.basename url) /\ exists body, fetch url = Fetched body) ->
  forall w,
    empty_scratch w ct tn -> accepts (s3 w) ->
    let r := for_each urls
               (fun url => if bool_decide (url ∉ skip_urls)
                           then transfer fetch (Normal.rooted (ct ++ [tn]))
                                  s3_bucket prefix url
                           else ret tt) w in
    r.2 = inr tt
    /\ stores fetch s3_bucket prefix (s3 w) (remaining urls skip_urls)
         (s3 r.1).
Proof.
  intros Hput. unfold remaining.
  induction urls as [|url urls IH]; intros Hurls w Hw Hacc; cbv zeta.
  { split; [reflexivity|constructor]. }
  assert (Hrest : forall url', url' ∈ urls -> url' ∉ skip_urls ->
            Normal.good (Path.basename url')
            /\ exists body, fetch url' = Fetched body).
  { intros url' Hin. apply Hurls, elem_of_cons. right. exact Hin. }
  cbn [for_each]. rewrite bind_run, filter_cons.
  destruct (decide (url ∉ skip_urls)) as [Hskip|Hskip].
  - rewrite bool_decide_eq_true_2 by exact Hskip.
    destruct (Hurls url (proj2 (elem_of_cons _ _ _) (or_introl eq_refl)) Hskip)
      as (Hgood & body & Hf).
    destruct (Hput (s3 w) body url Hacc) as (s' & Hp & Hacc').
    pose proof (transfer_scratch ct tn s3_bucket prefix url w Hw)
      as (Hd & _ & _ & _ & _ & Hret & Hgo).
    cbv zeta in Hd, Hret, Hgo.
    destruct (Hgo body s' Hf Hgood Hp) as [Hr Hs].
    destruct (transfer fetch _ s3_bucket prefix url w) as [w1 [e|[]]];
      cbn [fst snd] in *; [discriminate|].
    destruct (IH Hrest w1) as [Hr1 Hst1].
    + apply (empty_scratch_ext w w1 ct tn Hd (Hret eq_refl) Hw).
    + rewrite Hs. exact Hacc'.
    + cbv zeta in Hr1, Hst1. split; [exact Hr1|].
      rewrite Hs in Hst1. econstructor; eassumption.
  - rewrite bool_decide_eq_false_2 by exact Hskip.
    unfold ret at 1. apply (IH Hrest w Hw Hacc).
Qed.

(** removing the scratch directory gives back the file system in which
    it was made *)
Lemma rmtree_restores (tmp : string) w w2 :
  dirs w2 = {[ tmp ]} ∪ dirs w ->
  (forall q, under tmp q = false -> files w2 !! q = files w !! q) ->
  (forall q, under tmp q = true -> (q ∉ dirs w) /\ files w !! q = None) ->
  dirs (rmtree tmp w2) = dirs w /\ files (rmtree tmp w2) = files w.
Proof.
  intros Hd Hf Hfresh. unfold rmtree. cbn [dirs files set_fs]. split.
  - apply set_eq. intros q. rewrite elem_of_filter, Hd, elem_of_union,
      elem_of_singleton.
    split.
    + intros [Hu [-> | Hin]]; [|exact Hin].
      rewrite under_refl in Hu. discriminate.
    + intros Hin. split; [|right; exact Hin].
      destruct (under tmp q) eqn:Hu; [|reflexivity].
      destruct (Hfresh q Hu) as [Hn _]. contradiction.
  - apply map_eq. intros q. apply option_eq. intros v.
    rewrite map_lookup_filter_Some. cbn [fst].
    destruct (under tmp q) eqn:Hu.
    + destruct (Hfresh q Hu) as [_ Hn]. rewrite Hn.
      split; [intros [_ ?]; discriminate|discriminate].
    + rewrite (Hf q Hu). split; [intros [? _]; assumption|].
      intros ?. split; [assumption|reflexivity].
Qed.

(** the world in which the body of [download_files_to_s3] starts *)
Lemma mkdtemp_empty_scratch w w1 (tmp : string) :
  well_formed w -> mkdtemp w = (w1, inr tmp) ->
  (exists ct tn, tmp = Normal.rooted (ct ++ [tn]) /\ empty_scratch w1 ct tn)
  /\ dirs w1 = {[ tmp ]} ∪ dirs w /\ files w1 = files w
  /\ forall q, under tmp q = true -> (q ∉ dirs w) /\ files w !! q = None.
Proof.
  intros Hwf Hm.
  destruct (mkdtemp_rooted w w1 tmp Hwf Hm)
    as (ct & name & Hg & Hname & _ & -> & Hdt).
  destruct (mkdtemp_ok _ _ _ Hm) as (Hd & Hf & Hnd & Hnf).
  pose proof (tmp_name_good name Hname) as Hgood.
  set (tn := "tmp" +:+ name) in *.
  assert (Hg' : Forall Normal.good (ct ++ [tn])).
  { apply Forall_app. split; [exact Hg|].
    constructor; [exact Hgood|constructor]. }
  assert (Hfresh : forall q, under (Normal.rooted (ct ++ [tn])) q = true ->
            (q ∉ dirs w) /\ files w !! q = None).
  { intros q Hu.
    destruct (decide (q = Normal.rooted (ct ++ [tn]))) as [->|Hne].
    - split; [|apply is_file_false, Hnf].
      intros Hin. unfold is_dir in Hnd. apply orb_false_iff in Hnd as [_ Hnd].
      apply bool_decide_eq_false in Hnd. contradiction.
    - apply (nothing_below w (ct ++ [tn]) q Hwf); try assumption.
      destruct ct; discriminate. }
  split; [|split; [exact Hd|split; [exact Hf|exact Hfresh]]].
  exists ct, tn. split; [reflexivity|].
  split; [exact Hg|]. split; [exact Hgood|]. split; [|split].
  - unfold is_dir in *. apply orb_true_iff in Hdt as [Hdt|Hdt].
    + rewrite Hdt. reflexivity.
    + apply bool_decide_eq_true in Hdt. apply orb_true_iff. right.
      apply bool_decide_eq_true. rewrite Hd. apply elem_of_union. right.
      exact Hdt.
  - unfold is_dir. apply orb_true_iff. right. apply bool_decide_eq_true.
    rewrite Hd. apply elem_of_union. left. apply elem_of_singleton.
    reflexivity.
  - intros q Hu. destruct (Hfresh q Hu) as [Hnin Hnone].
    rewrite Hf. split; [exact Hnone|].
    rewrite Hd, elem_of_union, elem_of_singleton.
    intros [E|Hin]; [exact E|contradiction].
Qed.

Lemma mkdtemp_loop_cons (name : string) (rest : list string) w :
  mkdtemp_loop (name :: rest) w =
  let w0 := set_temp_names rest w in
  let file := Path.join (tempdir w) ("tmp" +:+ name) in
  match mkdir file w0 with
  | (w2, inr _) => (w2, inr (abspath w file))
  | (w2, inl e) =>
      if is_FileExistsError e then mkdtemp_loop rest w2 else (w2, inl e)
  end.
Proof.
  cbn [mkdtemp_loop]. unfold bind at 1. unfold modify at 1.
  rewrite bind_get. unfold try_except. rewrite bind_run. cbv zeta.
  change (tempdir (set_temp_names rest w)) with (tempdir w).
  change (abspath (set_temp_names rest w)) with (abspath w).
  destruct (mkdir _ _) as [w2 [e|[]]]; [|reflexivity].
  destruct (is_FileExistsError e); reflexivity.
Qed.

Lemma mkdtemp_loop_names (names all : list string) :
  forall w,
    temp_names w `suffix_of` all -> names `suffix_of` all ->
    temp_names (mkdtemp_loop names w).1 `suffix_of` all.
Proof.
  induction names as [|name rest IH]; intros w Hw Hn; [exact Hw|].
  assert (Hrest : rest `suffix_of` all) by (eapply suffix_cons_l; exact Hn).
  rewrite mkdtemp_loop_cons. cbv zeta.
  destruct (mkdir _ (set_temp_names rest w)) as [w2 [e|[]]] eqn:Hm.
  - apply mkdir_raises in Hm as ->.
    destruct (is_FileExistsError e); [|exact Hrest].
    apply IH; [exact Hrest|exact Hrest].
  - apply mkdir_ok in Hm as (-> & _). exact Hrest.
Qed.

(** [mkdtemp] uses up names of the supply, from the front *)
Lemma mkdtemp_names w : temp_names (mkdtemp w).1 `suffix_of` temp_names w.
Proof.
  unfold mkdtemp. rewrite bind_get. apply mkdtemp_loop_names; reflexivity.
Qed.

Lemma well_formed_ext w w' :
  dirs w' = dirs w -> files w' = files w -> tempdir w' = tempdir w ->
  temp_names w' `suffix_of` temp_names w ->
  well_formed w -> well_formed w'.
Proof.
  intros Hd Hf Ht [k Hn] (H1 & H2 & H3 & H4).
  unfold well_formed. rewrite Hd, Hf, Ht.
  split; [|split; [|split; [exact H3|]]].
  - intros q Hq. rewrite (is_dir_ext w w' _ Hd). apply H1, Hq.
  - intros q Hq. rewrite (is_dir_ext w w' _ Hd) in Hq. apply H2, Hq.
  - rewrite Hn in H4. apply Forall_app in H4 as [_ H4]. exact H4.
Qed.

(** what a call of [download_files_to_s3] leaves of the machine it
    started on *)
Lemma download_files_to_s3_frame urls s3_bucket prefix skip_existing w :
  well_formed w ->
  let r := download_files_to_s3 fetch urls s3_bucket prefix skip_existing w in
  dirs r.1 = dirs w /\ files r.1 = files w
  /\ tempdir r.1 = tempdir w
  /\ temp_names r.1 `suffix_of` temp_names w.
Proof.
  intros Hwf. cbv zeta.
  pose proof (mkdtemp_names w) as Hnames.
  destruct (Quiet_mkdtemp w) as (_ & _ & _ & Htd).
  destruct (mkdtemp w) as [w1 [e|tmp]] eqn:Hm; cbn [fst] in Hnames, Htd.
  - unfold download_files_to_s3.
    match goal with
    | |- context [with_TemporaryDirectory ?b w] =>
        pose proof (with_TemporaryDirectory_releases b w) as Hrel
    end.
    rewrite Hm in Hrel. destruct Hrel as (-> & Hd & Hf).
    repeat split; assumption.
  - rewrite (download_files_to_s3_run _ _ _ _ _ _ _ Hm).
    destruct (mkdtemp_empty_scratch w w1 tmp Hwf Hm)
      as ((ct & tn & -> & Hes) & Hd & Hf & Hfresh).
    destruct (s3_skip_decision urls s3_bucket prefix skip_existing w)
      as [e|skip_urls].
    + cbn [fst].
      split; [|split; [|split; [exact Htd|exact Hnames]]];
        apply (rmtree_restores (Normal.rooted (ct ++ [tn])) w);
        try exact Hd; try exact Hfresh;
        intros q _; cbn [files append_log]; rewrite Hf; reflexivity.
    + set (w2 := append_log (s3_preamble urls (Normal.rooted (ct ++ [tn]))
                               s3_bucket prefix skip_existing skip_urls) w1).
      pose proof (s3_loop_scratch ct tn s3_bucket prefix skip_urls urls w2
                    (empty_scratch_ext w1 w2 ct tn eq_refl eq_refl Hes))
        as (Hd2 & Hf2 & Ht2 & Hn2).
      cbv zeta in Hd2, Hf2, Ht2, Hn2.
      assert (Hfs : forall (t : list event) (w3 : world S),
                dirs w3 = dirs w2 ->
                (forall q, under (Normal.rooted (ct ++ [tn])) q = false ->
                           files w3 !! q = files w2 !! q) ->
                dirs (rmtree (Normal.rooted (ct ++ [tn])) (append_log t w3))
                = dirs w
                /\ files (rmtree (Normal.rooted (ct ++ [tn]))
                            (append_log t w3))
                   = files w).
      { intros t w3 Hd3 Hf3. apply rmtree_restores; [| |exact Hfresh].
        - cbn [dirs append_log]. rewrite Hd3. exact Hd.
        - intros q Hq. cbn [files append_log]. rewrite (Hf3 q Hq).
          cbn [files append_log w2]. rewrite Hf. reflexivity. }
      destruct (for_each urls _ w2) as [w3 [e|[]]]; cbn [fst snd] in *.
      * destruct (Hfs [] w3 Hd2 Hf2) as [Hd3 Hf3].
        rewrite append_log_nil in Hd3, Hf3.
        split; [exact Hd3|]. split; [exact Hf3|].
        cbn [tempdir temp_names rmtree set_fs]. rewrite Ht2, Hn2.
        split; [exact Htd|exact Hnames].
      * destruct (Hfs done_lines w3 Hd2 Hf2) as [Hd3 Hf3].
        split; [exact Hd3|]. split; [exact Hf3|].
        cbn [tempdir temp_names rmtree set_fs append_log]. rewrite Ht2, Hn2.
        split; [exact Htd|exact Hnames].
Qed.


(** *** The directory uploader in a well-formed world *)

Lemma mkdir_append_log (t : list event) path w :
  mkdir path (append_log t w)
  = (append_log t (mkdir path w).1, (mkdir path w).2).
Proof.
  rewrite !mkdir_run.
  change (abspath (append_log t w) path) with (abspath w path).
  change (is_dir (append_log t w)) with (is_dir w).
  change (is_file (append_log t w)) with (is_file w).
  repeat match goal with
         | |- context [if ?b then _ else _] => destruct b
         end; reflexivity.
Qed.

Lemma mkdtemp_loop_append_log (t : list event) (names : list string) :
  forall w,
    mkdtemp_loop names (append_log t w)
    = (append_log t (mkdtemp_loop names w).1, (mkdtemp_loop names w).2).
Proof.
  induction names as [|name rest IH]; intros w; [reflexivity|].
  rewrite !mkdtemp_loop_cons. cbv zeta.
  change (set_temp_names rest (append_log t w))
    with (append_log t (set_temp_names rest w)).
  change (tempdir (append_log t w)) with (tempdir w).
  change (abspath (append_log t w)) with (abspath w).
  rewrite mkdir_append_log.
  pose proof (mkdir_raises (Path.join (tempdir w) ("tmp" +:+ name))
                (set_temp_names rest w)) as Hr.
  destruct (mkdir _ (set_temp_names rest w)) as [w2 [e|[]]]; cbn [fst snd].
  - destruct (is_FileExistsError e); [apply IH|reflexivity].
  - reflexivity.
Qed.

(** what is in the log plays no part in [mkdtemp] *)
Lemma mkdtemp_append_log (t : list event) w :
  mkdtemp (append_log t w) = (append_log t (mkdtemp w).1, (mkdtemp w).2).
Proof.
  unfold mkdtemp. rewrite !bind_get. apply mkdtemp_loop_append_log.
Qed.

(** a new entry of an empty scratch directory can be written *)
Lemma write_file_scratch (ct : list string) (tn c content : string) w :
  empty_scratch w ct tn -> Normal.good c ->
  let tmp := Normal.rooted (ct ++ [tn]) in
  Path.join tmp c = Normal.rooted ((ct ++ [tn]) ++ [c])
  /\ files w !! Path.join tmp c = None
  /\ write_file (Path.join tmp c) content w
     = (set_fs (dirs w) (<[ Path.join tmp c := content ]> (files w)) w,
        inr tt).
Proof.
  intros (Hg & Ht & Hd & Hd' & Hclean) Hc. cbv zeta.
  assert (Hg' : Forall Normal.good (ct ++ [tn])).
  { apply Forall_app. split; [exact Hg|]. constructor; [exact Ht|constructor]. }
  assert (Hg'' : Forall Normal.good ((ct ++ [tn]) ++ [c])).
  { apply Forall_app. split; [exact Hg'|]. constructor; [exact Hc|constructor]. }
  pose proof (good_inv c Hc) as (_ & Hs & _).
  rewrite (join_rooted _ _ Hg' Hs).
  set (lp := Normal.rooted ((ct ++ [tn]) ++ [c])).
  assert (Hu : under (Normal.rooted (ct ++ [tn])) lp = true)
    by (apply under_rooted_app; destruct ct; discriminate).
  assert (Hne : lp <> Normal.rooted (ct ++ [tn])).
  { intros E. apply rooted_inj in E; [|exact Hg''|exact Hg'].
    apply (f_equal length) in E. rewrite !length_app in E. cbn in E. lia. }
  destruct (Hclean lp Hu) as [Hf Hdd].
  pose proof (Hclean _ (under_refl _)) as [Htf _].
  split; [reflexivity|]. split; [exact Hf|].
  assert (Ha : abspath w lp = lp) by apply (abspath_rooted w _ Hg'').
  assert (Hdn : Path.dirname lp = Normal.rooted (ct ++ [tn]))
    by apply (dirname_rooted_snoc _ _ Hg' Hs).
  assert (Hnd : is_dir w lp = false).
  { unfold is_dir. apply orb_false_iff. split.
    - apply bool_decide_eq_false. apply rooted_not_root; [|exact Hg''].
      destruct (ct ++ [tn]); discriminate.
    - apply bool_decide_eq_false. intros Hin. apply Hne, Hdd, Hin. }
  assert (He : Str.is_empty lp = false) by reflexivity.
  rewrite write_file_run, He, Ha, Hdn, Hnd, Hd',
    (proj2 (is_file_false w _) Htf).
  reflexivity.
Qed.

(** *** [download_file] and the parent directories of its destination *)

Lemma chain_snoc (b : list string) :
  forall (a : list string) (c : string),
    Normal.chain a (b ++ [c])
    = Normal.chain a b ++ [Normal.rooted (a ++ b ++ [c])].
Proof.
  induction b as [|x b IH]; intros a c; [reflexivity|].
  cbn [app Normal.chain]. rewrite IH, <- app_assoc. reflexivity.
Qed.

Lemma elem_of_chain (b : list string) :
  forall (a : list string) (q : string),
    q ∈ Normal.chain a b ->
    exists p s, b = p ++ s /\ p <> [] /\ q = Normal.rooted (a ++ p).
Proof.
  induction b as [|x b IH]; intros a q Hq; cbn [Normal.chain] in Hq.
  - apply elem_of_nil in Hq. contradiction.
  - apply elem_of_cons in Hq as [-> | Hq].
    + exists [x], b. repeat split. discriminate.
    + destruct (IH _ _ Hq) as (p & s & -> & _ & ->).
      exists (x :: p), s. rewrite <- app_assoc. repeat split. discriminate.
Qed.

Lemma mkdir_new (l : list string) (c : string) w :
  Forall Normal.good (l ++ [c]) ->
  is_dir w (Normal.rooted l) = true ->
  files w !! Normal.rooted l = None ->
  (Normal.rooted (l ++ [c]) ∉ dirs w) ->
  files w !! Normal.rooted (l ++ [c]) = None ->
  mkdir (Normal.rooted (l ++ [c])) w
  = (set_fs ({[ Normal.rooted (l ++ [c]) ]} ∪ dirs w) (files w) w, inr tt).
Proof.
  intros Hg Hd Hf Hnd Hnf.
  pose proof Hg as Hg'. apply Forall_app in Hg' as [Hl Hc].
  inversion Hc as [|? ? Hc' _]; subst.
  apply good_inv in Hc' as (_ & Hs & _).
  rewrite mkdir_run, rooted_not_empty, (abspath_rooted w _ Hg).
  rewrite (dirname_rooted_snoc l c Hl Hs), Hd.
  rewrite (proj2 (is_file_false w _) Hf), (proj2 (is_file_false w _) Hnf).
  unfold is_dir.
  rewrite (bool_decide_eq_false_2 (Normal.rooted (l ++ [c]) = "/"))
    by (apply rooted_not_root; [destruct l; discriminate|exact Hg]).
  rewrite (bool_decide_eq_false_2 _ Hnd). reflexivity.
Qed.

Lemma chain_last (a b : list string) :
  b <> [] -> Normal.rooted (a ++ b) ∈ Normal.chain a b.
Proof.
  intros Hb. destruct (snoc_cases b) as [-> | (p & c & ->)]; [congruence|].
  rewrite chain_snoc. apply elem_of_app. right.
  apply list_elem_of_singleton. reflexivity.
Qed.

Lemma chain_shorter (a b : list string) (c : string) :
  Forall Normal.good ((a ++ b) ++ [c]) ->
  Normal.rooted ((a ++ b) ++ [c]) ∉ Normal.chain a b.
Proof.
  intros Hg Hin. apply elem_of_chain in Hin as (p & s & -> & _ & E).
  apply rooted_inj in E; [|exact Hg|].
  - apply (f_equal length) in E. rewrite !length_app in E. cbn in E. lia.
  - apply Forall_app in Hg as [Hg _]. rewrite app_assoc in Hg.
    apply Forall_app in Hg as [Hg _]. exact Hg.
Qed.

(** [os.makedirs(name, exist_ok=True)] on a directory that exists, at any
    depth of the recursion *)
Lemma makedirs_rec_existing (fuel : nat) name (head tail : string) w :
  Path.split name = (head, tail) -> Str.is_empty tail = false ->
  path_exists w head = true -> path_isdir w name = true ->
  makedirs_rec (Datatypes.S fuel) name true w = (w, inr tt).
Proof.
  intros Hsplit Htail Hhead Hname.
  cbn [makedirs_rec]. rewrite Hsplit, Htail.
  rewrite bind_get, Hhead, andb_false_r, bind_ret.
  unfold try_except. rewrite mkdir_run.
  unfold path_isdir in Hname. apply andb_true_iff in Hname as [He Hd].
  apply negb_true_iff in He. rewrite He, Hd. cbn [orb].
  rewrite bind_get. unfold path_isdir. rewrite He, Hd. reflexivity.
Qed.

Lemma makedirs_rec_root (fuel : nat) w :
  makedirs_rec (Datatypes.S fuel) "/" true w = (w, inr tt).
Proof.
  assert (E : Path.split "/" = ("/", "")) by reflexivity.
  cbn [makedirs_rec]. rewrite E. cbn [Str.is_empty]. rewrite E.
  cbn [Str.is_empty negb andb].
  rewrite bind_get, bind_ret.
  unfold try_except. rewrite mkdir_run.
  change (abspath w "/") with "/".
  change (is_dir w "/") with true. cbn [Str.is_empty orb].
  rewrite bind_get. reflexivity.
Qed.

(** [os.makedirs] on a normalised path below an existing directory [a]:
    it makes the directories that are missing, from the top down *)
Lemma makedirs_rec_chain (a : list string) w :
  well_formed w ->
  is_dir w (Normal.rooted a) = true ->
  forall (b : list string) (fuel : nat),
    Forall Normal.good (a ++ b) ->
    (forall q, q ∈ Normal.chain a b -> (q ∉ dirs w) /\ files w !! q = None) ->
    (length b < fuel)%nat ->
    let r := makedirs_rec fuel (Normal.rooted (a ++ b)) true w in
    r.2 = inr tt
    /\ dirs r.1 = list_to_set (Normal.chain a b) ∪ dirs w
    /\ files r.1 = files w.
Proof.
  intros Hwf Hda. induction b as [|c b IH] using rev_ind;
    intros fuel Hg Habs Hfuel; cbv zeta.
  - destruct fuel as [|fuel]; [cbn in Hfuel; lia|].
    rewrite app_nil_r in *. cbn [Normal.chain list_to_set].
    rewrite union_empty_l_L.
    destruct (snoc_cases a) as [-> | (l & t & ->)].
    + rewrite rooted_nil, makedirs_rec_root. repeat split.
    + apply Forall_app in Hg as [Hl Ht]. inversion Ht as [|? ? Ht' _]; subst.
      pose proof (good_inv t Ht') as (He & Hs & _).
      rewrite (makedirs_rec_existing fuel _ (Normal.rooted l) t).
      * repeat split.
      * apply split_rooted_snoc; assumption.
      * exact He.
      * unfold path_exists. rewrite rooted_not_empty, (abspath_rooted w l Hl).
        pose proof Hwf as (Hn & _).
        destruct (Hn (Normal.rooted (l ++ [t]))) as [_ Hp].
        { left. apply is_dir_rooted; [destruct l; discriminate| |exact Hda].
          apply Forall_app. split; [exact Hl|]. constructor; [exact Ht'|constructor]. }
        rewrite (dirname_rooted_snoc l t Hl Hs) in Hp. rewrite Hp. reflexivity.
      * unfold path_isdir. rewrite rooted_not_empty.
        rewrite abspath_rooted, Hda; [reflexivity|].
        apply Forall_app. split; [exact Hl|]. constructor; [exact Ht'|constructor].
  - destruct fuel as [|fuel]; [lia|].
    rewrite length_app in Hfuel. cbn [length] in Hfuel.
    rewrite app_assoc in Hg |- *.
    pose proof Hg as Hg0. apply Forall_app in Hg0 as [Hab Hc].
    inversion Hc as [|? ? Hc' _]; subst.
    pose proof (good_inv c Hc') as (He & Hs & Hdot & _).
    assert (Hlast : (Normal.rooted ((a ++ b) ++ [c]) ∉ dirs w)
                    /\ files w !! Normal.rooted ((a ++ b) ++ [c]) = None).
    { apply Habs. rewrite chain_snoc, app_assoc. apply elem_of_app. right.
      apply list_elem_of_singleton. reflexivity. }
    destruct Hlast as [Hnd Hnf].
    assert (Hprev : forall q, q ∈ Normal.chain a b ->
              (q ∉ dirs w) /\ files w !! q = None).
    { intros q Hq. apply Habs. rewrite chain_snoc. apply elem_of_app.
      left. exact Hq. }
    destruct (IH fuel Hab Hprev ltac:(lia)) as (Hr & Hd & Hf).
    cbv zeta in Hr, Hd, Hf.
    remember (makedirs_rec (Datatypes.S fuel)
                (Normal.rooted ((a ++ b) ++ [c])) true w) as r eqn:Hrr.
    cbn [makedirs_rec] in Hrr.
    rewrite (split_rooted_snoc _ _ Hab Hs), He in Hrr.
    rewrite bind_get in Hrr. unfold path_exists in Hrr.
    rewrite rooted_not_empty, (abspath_rooted w _ Hab), He in Hrr.
    cbn [negb andb] in Hrr.
    destruct b as [|x b].
    + rewrite app_nil_r in *. pose proof Hwf as (_ & Hnf' & _).
      rewrite Hda in Hrr. cbn [orb negb] in Hrr.
      rewrite bind_ret in Hrr. unfold try_except in Hrr.
      rewrite (mkdir_new a c w Hg Hda (Hnf' _ Hda) Hnd Hnf) in Hrr.
      subst r. cbn [fst snd dirs files set_fs Normal.chain list_to_set app].
      rewrite union_empty_r_L. repeat split.
    + set (head := Normal.rooted (a ++ x :: b)) in *.
      assert (Hin : head ∈ Normal.chain a (x :: b))
        by (apply chain_last; discriminate).
      destruct (Hprev head Hin) as [Hhd Hhf].
      assert (Hhd' : is_dir w head = false).
      { unfold is_dir. apply orb_false_iff. split.
        - apply bool_decide_eq_false. apply rooted_not_root; [|exact Hab].
          destruct a; discriminate.
        - apply bool_decide_eq_false. exact Hhd. }
      rewrite Hhd', (proj2 (is_file_false w _) Hhf) in Hrr.
      cbn [orb negb] in Hrr.
      rewrite bind_assoc, bind_run in Hrr. unfold try_except at 1 in Hrr.
      destruct (makedirs_rec fuel head true w) as [w1 [e|[]]];
        cbn [fst snd] in Hr, Hd, Hf; [discriminate|].
      rewrite bind_ret, (bool_decide_eq_false_2 _ Hdot) in Hrr.
      unfold try_except in Hrr.
      rewrite (mkdir_new (a ++ x :: b) c w1 Hg) in Hrr.
      * subst r. cbn [fst snd dirs files set_fs].
        split; [reflexivity|]. split; [|exact Hf].
        rewrite Hd, chain_snoc, list_to_set_app_L.
        cbn [list_to_set]. rewrite union_empty_r_L, app_assoc.
        fold head. rewrite (assoc_L (∪) {[ _ ]}).
        rewrite (comm_L (∪) {[ _ ]} (list_to_set _)). reflexivity.
      * unfold is_dir. apply orb_true_iff. right. apply bool_decide_eq_true.
        rewrite Hd. apply elem_of_union. left.
        apply elem_of_list_to_set. exact Hin.
      * rewrite Hf. exact Hhf.
      * rewrite Hd, elem_of_union, elem_of_list_to_set.
        intros [Hbad|Hbad]; [|contradiction].
        apply (chain_shorter a (x :: b) c Hg Hbad).
      * rewrite Hf. exact Hnf.
Qed.
Lemma length_append_sep (a c : string) :
  String.length (a +:+ String Str.sep c)
  = (String.length a + Datatypes.S (String.length c))%nat.
Proof.
  induction a as [|x a IH]; [reflexivity|].
  rewrite append_cons. cbn [String.length]. rewrite IH. reflexivity.
Qed.

Lemma length_rooted (comps : list string) :
  (length comps <= String.length (Normal.rooted comps))%nat.
Proof.
  induction comps as [|c comps IH] using rev_ind; [cbn; lia|].
  rewrite rooted_snoc, length_append_sep, length_app. cbn [length].
  destruct comps; [cbn; lia|]. lia.
Qed.


End Facts.

(** ** Scenarios on the concrete machine *)

Section Scenarios.

Import MemoryS3 Scenario.



(** C1.  The end-to-end scenario of the batch downloader:
    [download_files] on two URLs with [output_dir="/tmp/out"], an empty
    directory.  The loop calls [download_file url] without a destination,
    which raises at once: the call ends with [FileNotFoundError], [curl]
    is never run, and [/tmp/out] is as empty as before. *)
Theorem download_files_end_to_end_scenario :
  let r := download_files net ["http://x/a.bin"; "http://x/b.bin"]
             (Some "/tmp/out") true machine in
  listing "/tmp/out" machine = inr []
  /\ r.2 = inl (FileNotFoundError "")
  /\ files r.1 = files machine
  /\ listing "/tmp/out" r.1 = inr []
  /\ log r.1 =
     [Print [PStr "downloading"; PInt 2; PStr "files"];
      Print [];
      Print [PStr "using output_dir"; PStr "/tmp/out"];
      Listdir "/tmp/out";
      Listdir "/tmp/out";
      Print [];
      Print [PStr "downloading"; PStr "http://x/a.bin"]].
Proof. vm_compute. repeat split. Qed.

(** C5.  With [skip_existing] unset and two URLs, only the first URL is
    handed to [download_file]; that call raises and the second URL is
    never attempted. *)
Theorem download_files_unconditional_scenario :
  let r := download_files net ["http://x/a.bin"; "http://x/b.bin"]
             (Some "/tmp/out") false machine in
  r.2 = inl (FileNotFoundError "")
  /\ log r.1 =
     [Print [PStr "downloading"; PInt 2; PStr "files"];
      Print [];
      Print [PStr "using output_dir"; PStr "/tmp/out"];
      Print [];
      Print [PStr "downloading"; PStr "http://x/a.bin"]].
Proof. vm_compute. repeat split. Qed.

(** C3.  After [upload_directory] with a file list has returned, the
    directory made by [mkdtemp] and the list file in it are still on the
    machine. *)
Theorem upload_directory_leak_scenario :
  let r := upload_directory rclone_ok "/home/u/data" "bucket/data"
             (Some ["a.csv"]) false machine in
  r.2 = inr tt
  /\ is_dir machine "/tmp/tmpk3x9" = false
  /\ is_dir r.1 "/tmp/tmpk3x9" = true
  /\ files r.1 !! "/tmp/tmpk3x9/file_list.txt" = Some "a.csv".
Proof. vm_compute. repeat split. Qed.

(** C8.  Without a file list, [upload_directory] hands [rclone] the
    option [--exclude] with a pattern of four characters, the first and
    the last a double quote.  That filter lets the hidden file [.hidden]
    of the directory through; the pattern without the quotes would stop
    it. *)
Theorem upload_directory_default_filter_scenario :
  let r := upload_directory rclone_ok "/home/u/data" "bucket/data"
             None false machine in
  last (log r.1) =
  Some (Call ["rclone"; "copy"; "/home/u/data";
              "paradigm-data-portal:bucket/data"; "-v";
              "--exclude"; exclude_pattern] 0)
  /\ String.length exclude_pattern = 4%nat
  /\ String.get 0 exclude_pattern = Some "034"%char
  /\ is_file machine "/home/u/data/.hidden" = true
  /\ Rclone.selected (file_content r.1) ["--exclude"; exclude_pattern]
       ".hidden" = true
  /\ Rclone.selected (file_content r.1) ["--exclude"; ".*"] ".hidden"
     = false.
Proof. vm_compute. repeat split. Qed.




Lemma download_files_to_s3_skips_witness :
  exists t,
    loop_trace "/tmp/tmpk3x9" "b" "p" ["http://x/c.bin"] true t
    /\ Print [PStr "downloading"; PStr "http://x/a.bin"] ∉ t.
Proof.
  assert (Hm : mkdtemp stocked = ((mkdtemp stocked).1, inr "/tmp/tmpk3x9"))
    by (vm_compute; reflexivity).
  assert (Hl : list_objects_v2 (s3 stocked) "b" "p" =
               inr {| Contents := Some [ {| Key := "p/a.bin" |} ] |})
    by (vm_compute; reflexivity).
  destruct (proj1 (download_files_to_s3_skips net
                     ["http://x/a.bin"; "http://x/c.bin"] "b" "p" stocked
                     (mkdtemp stocked).1 "/tmp/tmpk3x9" Hm) _ Hl)
    as (_ & _ & t & _ & Htr & Hskip & _).
  exists t. split.
  - vm_compute in Htr. exact Htr.
  - apply Hskip. vm_compute. reflexivity.
Defined.


Lemma get_file_hashes_order_length_witness :
  length ["md5:hello"; "md5:1,2"] = length ["notes.txt"; "data/a.csv"]
  /\ forall i path, ["notes.txt"; "data/a.csv"] !! i = Some path ->
       exists h, ["md5:hello"; "md5:1,2"] !! i = Some h
                 /\ get_file_hash md5 path machine = (machine, inr h).
Proof.
  apply (proj2 (get_file_hashes_order_length md5
                  ["notes.txt"; "data/a.csv"] machine
                  ["md5:hello"; "md5:1,2"])).
  vm_compute. reflexivity.
Defined.

End Scenarios.

(** ** Further scenarios on the concrete machines *)

Section MoreScenarios.

Import MemoryS3 Scenario MoreScenario.

Lemma download_file_bare_name_raises_witness :
  download_file net "http://x/a.bin" (Some "a.bin") machine =
  (announced "http://x/a.bin" machine, inl (FileNotFoundError "")).
Proof.
  apply (download_file_bare_name_raises net "http://x/a.bin" "a.bin" machine).
  reflexivity.
Defined.

Lemma download_files_skip_report_witness :
  "http://x/b.bin"
  ∈ remaining ["http://x/a.bin"; "http://x/b.bin"]
      (present_urls ["http://x/a.bin"; "http://x/b.bin"] ["a.bin"])
  <-> "http://x/b.bin" ∈ ["http://x/a.bin"; "http://x/b.bin"]
      /\ Path.basename "http://x/b.bin" ∉ ["a.bin"].
Proof.
  assert (Hl : listing (resolved_output_dir visited (Some "/tmp/out")) visited
               = inr ["a.bin"])
    by (vm_compute; reflexivity).
  exact (proj1 (proj2 (proj2
           (download_files_skip_report net
              ["http://x/a.bin"; "http://x/b.bin"] (Some "/tmp/out")
              visited ["a.bin"] Hl))) "http://x/b.bin").
Defined.


Lemma download_files_to_s3_listing_fails_witness :
  (download_files_to_s3 net ["http://x/c.bin"] "missing" "p" true machine).2
  = inl (ClientError "NoSuchBucket").
Proof.
  assert (Hm : mkdtemp machine = ((mkdtemp machine).1, inr "/tmp/tmpk3x9"))
    by (vm_compute; reflexivity).
  assert (Hl : list_objects_v2 (s3 machine) "missing" "p" =
               inl (ClientError "NoSuchBucket"))
    by (vm_compute; reflexivity).
  exact (proj1 (download_files_to_s3_listing_fails net ["http://x/c.bin"]
                  "missing" "p" machine (mkdtemp machine).1 "/tmp/tmpk3x9"
                  (ClientError "NoSuchBucket") Hm Hl)).
Defined.

Lemma download_files_to_s3_no_urls_witness :
  (download_files_to_s3 net [] "b" "p" true stocked).2 = inr tt.
Proof.
  assert (Hm : mkdtemp stocked = ((mkdtemp stocked).1, inr "/tmp/tmpk3x9"))
    by (vm_compute; reflexivity).
  assert (Hs : s3_skip_decision [] "b" "p" true stocked = inr ∅)
    by (vm_compute; reflexivity).
  exact (proj1 (download_files_to_s3_no_urls net "b" "p" true stocked
                  (mkdtemp stocked).1 "/tmp/tmpk3x9" ∅ Hm Hs)).
Defined.

Lemma download_files_to_s3_scope_witness :
  exists t,
    log (download_files_to_s3 net ["http://x/a.bin"; "http://x/c.bin"]
           "b" "p" true stocked).1 = log stocked ++ t
    /\ forall local_path bucket key, S3Upload local_path bucket key ∈ t ->
         bucket = "b".
Proof.
  assert (Hm : mkdtemp stocked = ((mkdtemp stocked).1, inr "/tmp/tmpk3x9"))
    by (vm_compute; reflexivity).
  assert (Hs : s3_skip_decision ["http://x/a.bin"; "http://x/c.bin"]
                 "b" "p" true stocked
               = inr (s3_skip_urls ["http://x/a.bin"; "http://x/c.bin"] "p"
                        {| Contents := Some [ {| Key := "p/a.bin" |} ] |}))
    by (vm_compute; reflexivity).
  destruct (download_files_to_s3_scope net
              ["http://x/a.bin"; "http://x/c.bin"] "b" "p" true stocked
              (mkdtemp stocked).1 "/tmp/tmpk3x9" _ Hm Hs)
    as (t & Hlog & _ & Hup & _).
  exists t. split; [exact Hlog|].
  intros lp b k Hin. exact (proj1 (Hup lp b k Hin)).
Defined.

Lemma upload_directory_mode_witness :
  exists options,
    options = ["--exclude"; exclude_pattern]
    /\ log (upload_directory rclone_ok "/home/u/data" "bucket/data" None true
              machine).1 =
       log machine ++ upload_directory_header "/home/u/data" "bucket/data"
       ++ [Call (["rclone"; "sync"; "/home/u/data";
                  "paradigm-data-portal:bucket/data"; "-v"] ++ options) 0].
Proof.
  assert (Hr : upload_directory rclone_ok "/home/u/data" "bucket/data" None
                 true machine =
               ((upload_directory rclone_ok "/home/u/data" "bucket/data" None
                   true machine).1, inr tt))
    by (vm_compute; reflexivity).
  destruct (upload_directory_mode rclone_ok "/home/u/data" "bucket/data" None
              true machine _ Hr) as (options & Hlog & Hopt).
  exists options. split; [exact Hopt|exact Hlog].
Defined.


Lemma upload_directory_twice_witness :
  exists temp_dir1 temp_dir2,
    temp_dir1 <> temp_dir2
    /\ is_dir machine temp_dir1 = false /\ is_dir machine temp_dir2 = false.
Proof.
  pose (w1 := (upload_directory rclone_ok "/home/u/data" "bucket/data"
                 (Some ["a.csv"]) false machine).1).
  pose (w2 := (upload_directory rclone_ok "/home/u/data" "bucket/data"
                 (Some [".hidden"]) true w1).1).
  assert (H1 : upload_directory rclone_ok "/home/u/data" "bucket/data"
                 (Some ["a.csv"]) false machine = (w1, inr tt))
    by (vm_compute; reflexivity).
  assert (H2 : upload_directory rclone_ok "/home/u/data" "bucket/data"
                 (Some [".hidden"]) true w1 = (w2, inr tt))
    by (vm_compute; reflexivity).
  destruct (upload_directory_twice rclone_ok _ _ _ _ _ _ _ _ _ _ _ H1 H2)
    as (d1 & d2 & Hne & Hn1 & Hn2 & _).
  exists d1, d2. split; [exact Hne|]. split; [exact Hn1|exact Hn2].
Defined.

End MoreScenarios.

(** ** Scenarios on the well-formed machine *)

Section PathScenarios.

Import MemoryS3 Scenario MoreScenario.





End PathScenarios.
